(** * Personal Finance Tracker: the record store and its persistence codec

    A shallow embedding of [financetracker.c].  The program keeps its
    transactions in a global array [txs] with a fill count [txCount]; every
    function reads only the first [txCount] slots, so the store is modelled as
    the list of those slots.  C [int] values are [Z], C [double] values are
    binary64 floats (Rocq's primitive [float]), C strings are lists of
    characters.  Functions that talk to the terminal are modelled on the values
    the input helpers hand them and on the outcome they report. *)

From Stdlib Require Import Ascii String.
From Stdlib Require Import ZArith List Bool Lia Floats.
From Stdlib Require Import DecimalPos DecimalN.
From Stdlib Require DecimalFacts.
From Stdlib Require Import Permutation Sorted.
Import ListNotations.
Open Scope Z_scope.

(** ** Constants of the program *)

Definition MAX_TRANSACTIONS : nat := 2000.
Definition STR_LEN : nat := 64.
Definition NOTE_LEN : nat := 128.
Definition LINE_LEN : nat := 512.

(** ** C strings *)

Definition cstring := list ascii.

Definition lit (s : string) : cstring := list_ascii_of_string s.

Definition NUL : ascii := "000"%char.
Definition NL : ascii := "010"%char.
Definition CR : ascii := "013"%char.
Definition BAR : ascii := "|"%char.
Definition SLASH : ascii := "/"%char.

(** What a C function sees of a buffer: the characters before the first NUL. *)
Fixpoint cstr (s : cstring) : cstring :=
  match s with
  | [] => []
  | c :: r => if Ascii.eqb c NUL then [] else c :: cstr r
  end.

(** [strncpy(dst, src, n)] into a zero-filled buffer of more than [n] bytes. *)
Definition strncpy (n : nat) (src : cstring) : cstring := firstn n (cstr src).

(** [isspace] in the C locale. *)
Definition is_space (c : ascii) : bool :=
  let n := N_of_ascii c in ((n =? 32) || ((9 <=? n) && (n <=? 13)))%N.

Fixpoint skip_ws (s : cstring) : cstring :=
  match s with
  | c :: r => if is_space c then skip_ws r else s
  | [] => []
  end.

Definition digit_val (c : ascii) : option Z :=
  let n := N_of_ascii c in
  if ((48 <=? n) && (n <=? 57))%N then Some (Z.of_N n - 48) else None.

Definition hex_val (c : ascii) : option Z :=
  let n := N_of_ascii c in
  if ((48 <=? n) && (n <=? 57))%N then Some (Z.of_N n - 48)
  else if ((97 <=? n) && (n <=? 102))%N then Some (Z.of_N n - 87)
  else if ((65 <=? n) && (n <=? 70))%N then Some (Z.of_N n - 55)
  else None.

(** [tolower] on one character. *)
Definition lower (c : ascii) : ascii :=
  let n := N_of_ascii c in
  if ((65 <=? n) && (n <=? 90))%N then ascii_of_N (n + 32) else c.

(** ** Scanning an input item

    A conversion of [sscanf] reads the longest run of characters that can
    still start a number; [run] drives a step function until it refuses the
    next character or the input ends. *)

Fixpoint run {S : Type} (step : S -> ascii -> option S) (st : S) (s : cstring)
  : S * cstring :=
  match s with
  | [] => (st, [])
  | c :: r =>
      match step st c with
      | Some st' => run step st' r
      | None => (st, s)
      end
  end.

(** *** [%d] *)

Inductive dstate :=
| DStart
| DSign (neg : bool)
| DDigits (neg : bool) (acc : Z).

Definition d_step (st : dstate) (c : ascii) : option dstate :=
  match st, digit_val c with
  | DStart, Some v => Some (DDigits false v)
  | DStart, None =>
      if Ascii.eqb c "-" then Some (DSign true)
      else if Ascii.eqb c "+" then Some (DSign false)
      else None
  | DSign n, Some v => Some (DDigits n v)
  | DDigits n a, Some v => Some (DDigits n (10 * a + v))
  | _, None => None
  end.

(** The digits are converted as by [strtol] (the value saturates at the range
    of [long]) and stored through an [int *] (the low 32 bits are kept). *)
Definition clamp_long (v : Z) : Z := Z.max (- 2 ^ 63) (Z.min (2 ^ 63 - 1) v).
Definition to_int (v : Z) : Z := (v + 2 ^ 31) mod 2 ^ 32 - 2 ^ 31.

Definition scan_d (s : cstring) : option (Z * cstring) :=
  let '(st, r) := run d_step DStart (skip_ws s) in
  match st with
  | DDigits n a => Some (to_int (clamp_long (if n then - a else a)), r)
  | _ => None
  end.

(** [%d] of [fprintf]. *)
Fixpoint uint_chars (d : Decimal.uint) : cstring :=
  match d with
  | Decimal.Nil => []
  | Decimal.D0 r => "0"%char :: uint_chars r
  | Decimal.D1 r => "1"%char :: uint_chars r
  | Decimal.D2 r => "2"%char :: uint_chars r
  | Decimal.D3 r => "3"%char :: uint_chars r
  | Decimal.D4 r => "4"%char :: uint_chars r
  | Decimal.D5 r => "5"%char :: uint_chars r
  | Decimal.D6 r => "6"%char :: uint_chars r
  | Decimal.D7 r => "7"%char :: uint_chars r
  | Decimal.D8 r => "8"%char :: uint_chars r
  | Decimal.D9 r => "9"%char :: uint_chars r
  end.

Definition print_u (n : Z) : cstring := uint_chars (N.to_uint (Z.to_N n)).

Definition print_d (z : Z) : cstring :=
  if z <? 0 then "-"%char :: print_u (- z) else print_u z.

(** *** [%lf]

    The characters [sscanf] takes for a [%lf], as the C library the program
    runs with (glibc) takes them: a sign, then [nan], [inf] or [infinity]
    (letters in either case), or the digits of a decimal or hexadecimal
    floating constant with at most one point and one exponent.  The
    characters taken are then converted by [strtod], which uses the longest
    prefix of them that is a number: an exponent letter (and its sign) that
    no digit follows is taken from the input but adds nothing to the value,
    so [50e] reads as 50, and [0x.] reads as the zero before the [x].
    Decimal mantissas are kept exactly ([m] with [k] digits after the point)
    and rounded once, to the nearest binary64 value. *)

Inductive lfstate :=
| LStart
| LSign (neg : bool)
| LZero (neg : bool)
| LInt (neg : bool) (m : Z)
| LDot (neg : bool)
| LFrac (neg : bool) (m k : Z)
| LExpE (neg : bool) (m k : Z)
| LExpSign (neg : bool) (m k : Z) (eneg : bool)
| LExp (neg : bool) (m k : Z) (eneg : bool) (x : Z)
| LHexX (neg : bool)
| LHexInt (neg : bool) (m : Z)
| LHexDot (neg : bool)
| LHexFrac (neg : bool) (m k : Z)
| LHexP (neg : bool) (m k : Z)
| LHexPSign (neg : bool) (m k : Z) (eneg : bool)
| LHexExp (neg : bool) (m k : Z) (eneg : bool) (x : Z)
| LInf (neg : bool) (n : nat)
| LNan (neg : bool) (n : nat).

Definition is_letter (l c : ascii) : bool := Ascii.eqb (lower c) l.

Definition lf_first (neg : bool) (c : ascii) : option lfstate :=
  match digit_val c with
  | Some v => Some (if v =? 0 then LZero neg else LInt neg v)
  | None =>
      if Ascii.eqb c "." then Some (LDot neg)
      else if is_letter "i" c then Some (LInf neg 1)
      else if is_letter "n" c then Some (LNan neg 1)
      else None
  end.

Definition sign_of (c : ascii) : option bool :=
  if Ascii.eqb c "-" then Some true
  else if Ascii.eqb c "+" then Some false
  else None.

Definition lf_step (st : lfstate) (c : ascii) : option lfstate :=
  match st with
  | LStart =>
      match sign_of c with
      | Some n => Some (LSign n)
      | None => lf_first false c
      end
  | LSign n => lf_first n c
  | LZero n =>
      match digit_val c with
      | Some v => Some (LInt n v)
      | None =>
          if Ascii.eqb c "." then Some (LFrac n 0 0)
          else if is_letter "e" c then Some (LExpE n 0 0)
          else if is_letter "x" c then Some (LHexX n)
          else None
      end
  | LInt n m =>
      match digit_val c with
      | Some v => Some (LInt n (10 * m + v))
      | None =>
          if Ascii.eqb c "." then Some (LFrac n m 0)
          else if is_letter "e" c then Some (LExpE n m 0)
          else None
      end
  | LDot n =>
      match digit_val c with
      | Some v => Some (LFrac n v 1)
      | None => None
      end
  | LFrac n m k =>
      match digit_val c with
      | Some v => Some (LFrac n (10 * m + v) (k + 1))
      | None => if is_letter "e" c then Some (LExpE n m k) else None
      end
  | LExpE n m k =>
      match digit_val c with
      | Some v => Some (LExp n m k false v)
      | None =>
          match sign_of c with
          | Some en => Some (LExpSign n m k en)
          | None => None
          end
      end
  | LExpSign n m k en =>
      match digit_val c with
      | Some v => Some (LExp n m k en v)
      | None => None
      end
  | LExp n m k en x =>
      match digit_val c with
      | Some v => Some (LExp n m k en (10 * x + v))
      | None => None
      end
  | LHexX n =>
      match hex_val c with
      | Some v => Some (LHexInt n v)
      | None => if Ascii.eqb c "." then Some (LHexDot n) else None
      end
  | LHexInt n m =>
      match hex_val c with
      | Some v => Some (LHexInt n (16 * m + v))
      | None =>
          if Ascii.eqb c "." then Some (LHexFrac n m 0)
          else if is_letter "p" c then Some (LHexP n m 0)
          else None
      end
  | LHexDot n =>
      match hex_val c with
      | Some v => Some (LHexFrac n v 1)
      | None => None
      end
  | LHexFrac n m k =>
      match hex_val c with
      | Some v => Some (LHexFrac n (16 * m + v) (k + 1))
      | None => if is_letter "p" c then Some (LHexP n m k) else None
      end
  | LHexP n m k =>
      match digit_val c with
      | Some v => Some (LHexExp n m k false v)
      | None =>
          match sign_of c with
          | Some en => Some (LHexPSign n m k en)
          | None => None
          end
      end
  | LHexPSign n m k en =>
      match digit_val c with
      | Some v => Some (LHexExp n m k en v)
      | None => None
      end
  | LHexExp n m k en x =>
      match digit_val c with
      | Some v => Some (LHexExp n m k en (10 * x + v))
      | None => None
      end
  | LInf n i =>
      if (i <? 8)%nat then
        if is_letter (nth i (lit "infinity") NUL) c then Some (LInf n (S i))
        else None
      else None
  | LNan n i =>
      if (i <? 3)%nat then
        if is_letter (nth i (lit "nan") NUL) c then Some (LNan n (S i))
        else None
      else None
  end.

Definition signed_zero (neg : bool) : float := if neg then neg_zero else zero.
Definition signed_inf (neg : bool) : float :=
  if neg then neg_infinity else infinity.

(** The binary64 value nearest to [m * 10 ^ e10] (ties to even). *)
Definition dec_float (neg : bool) (m e10 : Z) : float :=
  match m with
  | Zpos p =>
      SF2Prim
        (if 0 <=? e10
         then binary_round prec emax neg (p * Z.to_pos (10 ^ e10))%positive 0
         else
           let '(q, e', l) :=
             SFdiv_core_binary prec emax (Zpos p) 0 (10 ^ (- e10)) 0 in
           binary_round_aux prec emax neg q e' l)
  | _ => signed_zero neg
  end.

(** The binary64 value nearest to [m * 2 ^ e2]. *)
Definition hex_float (neg : bool) (m e2 : Z) : float :=
  match m with
  | Zpos p => SF2Prim (binary_round prec emax neg p e2)
  | _ => signed_zero neg
  end.

Definition signed (neg : bool) (x : Z) : Z := if neg then - x else x.

(** The value [strtod] gives for the characters taken, if any. *)
Definition lf_value (st : lfstate) : option float :=
  match st with
  | LZero n => Some (signed_zero n)
  | LInt n m => Some (dec_float n m 0)
  | LFrac n m k | LExpE n m k | LExpSign n m k _ => Some (dec_float n m (- k))
  | LExp n m k en x => Some (dec_float n m (signed en x - k))
  | LHexDot n => Some (signed_zero n)
  | LHexInt n m => Some (hex_float n m 0)
  | LHexFrac n m k | LHexP n m k | LHexPSign n m k _ =>
      Some (hex_float n m (- (4 * k)))
  | LHexExp n m k en x => Some (hex_float n m (signed en x - 4 * k))
  | LInf n 3%nat | LInf n 8%nat => Some (signed_inf n)
  | LNan _ 3%nat => Some nan
  | _ => None
  end.

Definition scan_lf (s : cstring) : option (float * cstring) :=
  let '(st, r) := run lf_step LStart (skip_ws s) in
  match lf_value st with
  | Some x => Some (x, r)
  | None => None
  end.

(** [%.2f] of [fprintf]: the exact value of the double, rounded to a whole
    number of hundredths (ties to even), printed with two digits after the
    point. *)
Definition round_half_even (n d : Z) : Z :=
  let q := n / d in
  match (2 * (n mod d) ?= d) with
  | Lt => q
  | Gt => q + 1
  | Eq => if Z.even q then q else q + 1
  end.

Definition hundredths (m : positive) (e : Z) : Z :=
  if 0 <=? e then Zpos m * 2 ^ e * 100
  else round_half_even (Zpos m * 100) (2 ^ (- e)).

Definition sign_chars (neg : bool) : cstring := if neg then ["-"%char] else [].

Definition two_digits (n : Z) : cstring :=
  if n <? 10 then "0"%char :: print_u n else print_u n.

Definition fmt_2f (x : float) : cstring :=
  match Prim2SF x with
  | S754_nan => lit "nan"
  | S754_infinity s => sign_chars s ++ lit "inf"
  | S754_zero s => sign_chars s ++ lit "0.00"
  | S754_finite s m e =>
      let h := hundredths m e in
      sign_chars s ++ print_u (h / 100) ++ "."%char :: two_digits (h mod 100)
  end.

(** The double a user gets by typing the decimal text [s]. *)
Definition dbl (s : string) : float :=
  match scan_lf (lit s) with
  | Some (x, _) => x
  | None => zero
  end.

(** *** Literal characters and scansets of a [sscanf] format *)

Definition expect (c : ascii) (s : cstring) : option cstring :=
  match s with
  | x :: r => if Ascii.eqb x c then Some r else None
  | [] => None
  end.

(** [%w[^stop]]: at most [w] characters, none of them [stop]. *)
Fixpoint scanset_not (stop : ascii) (w : nat) (s : cstring)
  : cstring * cstring :=
  match w, s with
  | S w', c :: r =>
      if Ascii.eqb c stop then ([], s)
      else let '(t, rest) := scanset_not stop w' r in (c :: t, rest)
  | _, _ => ([], s)
  end.

Definition scan_set (stop : ascii) (w : nat) (s : cstring)
  : option (cstring * cstring) :=
  match scanset_not stop w s with
  | ([], _) => None
  | (t, rest) => Some (t, rest)
  end.

(** ** Terminal and file input *)

(** [fgets(buf, n, f)]: at most [n - 1] characters, ending after a newline;
    no line at the end of the input. *)
Fixpoint fgets_chars (k : nat) (f : cstring) : cstring * cstring :=
  match k, f with
  | S k', c :: r =>
      if Ascii.eqb c NL then ([c], r)
      else let '(l, rest) := fgets_chars k' r in (c :: l, rest)
  | _, _ => ([], f)
  end.

Definition fgets (n : nat) (f : cstring) : option (cstring * cstring) :=
  match f with
  | [] => None
  | _ => Some (fgets_chars (n - 1) f)
  end.

Definition trim_newline (s : cstring) : cstring :=
  let s := cstr s in
  match rev s with
  | c :: _ => if Ascii.eqb c NL || Ascii.eqb c CR then removelast s else s
  | [] => s
  end.

(** [read_line(prompt, buf, n)] on the pending terminal input. *)
Definition read_line (n : nat) (stdin : cstring) : cstring * cstring :=
  match fgets n stdin with
  | None => ([], stdin)
  | Some (line, rest) => (trim_newline line, rest)
  end.

(** One round of the loops of [read_int] and [read_double] on the line
    [line]: the value the helper returns, or [None] when it asks again. *)
Definition read_int_try (minV maxV : Z) (line : cstring) : option Z :=
  match scan_d (cstr line) with
  | Some (x, _) => if (minV <=? x) && (x <=? maxV) then Some x else None
  | None => None
  end.

Definition read_double_try (minV : float) (line : cstring) : option float :=
  match scan_lf (cstr line) with
  | Some (x, _) => if (minV <=? x)%float then Some x else None
  | None => None
  end.

(** ** Transactions and the store *)

Inductive TxType := INCOME | EXPENSE.

Definition TxType_eqb (a b : TxType) : bool :=
  match a, b with
  | INCOME, INCOME | EXPENSE, EXPENSE => true
  | _, _ => false
  end.

Definition TxType_int (t : TxType) : Z :=
  match t with INCOME => 0 | EXPENSE => 1 end.

(** The fields [y], [m], [d], [type], [category], [amount] and [note] of
    the C struct. *)
Record Transaction := {
  tx_y : Z;
  tx_m : Z;
  tx_d : Z;
  tx_type : TxType;
  tx_category : cstring;
  tx_amount : float;
  tx_note : cstring
}.

(** [txs[0 .. txCount - 1]]. *)
Definition store := list Transaction.

Definition txCount (st : store) : Z := Z.of_nat (length st).

Definition mdays (leap : bool) : list Z :=
  [0; 31; if leap then 29 else 28; 31; 30; 31; 30; 31; 31; 30; 31; 30; 31].

Definition valid_date (y m d : Z) : bool :=
  if (y <? 1900) || (y >? 3000) then false
  else if (m <? 1) || (m >? 12) then false
  else
    let leap :=
      ((Z.rem y 4 =? 0) && negb (Z.rem y 100 =? 0)) || (Z.rem y 400 =? 0) in
    if (d <? 1) || (d >? nth (Z.to_nat m) (mdays leap) 0) then false
    else true.

(** *** [add_transaction] *)

(** What the prompts of [add_transaction] return: three [read_int] for the
    date, one for the type (0 or 1, held as the [TxType] it is cast to),
    [read_line] for category and note, [read_double] for the amount. *)
Record entry := {
  in_y : Z;
  in_m : Z;
  in_d : Z;
  in_t : TxType;
  in_category : cstring;
  in_amount : float;
  in_note : cstring
}.

Definition no_char (c : ascii) (s : cstring) : bool :=
  forallb (fun x => negb (Ascii.eqb x c)) s.

(** A text [read_line] can return from a buffer of [n] bytes. *)
Definition line_read (n : nat) (s : cstring) : bool :=
  (length s <? n)%nat && no_char NUL s && no_char NL s.

(** The guarantees of the input helpers on an entry. *)
Definition entry_read (e : entry) : bool :=
  (1900 <=? in_y e) && (in_y e <=? 3000)
  && (1 <=? in_m e) && (in_m e <=? 12)
  && (1 <=? in_d e) && (in_d e <=? 31)
  && line_read STR_LEN (in_category e)
  && (0 <=? in_amount e)%float
  && line_read NOTE_LEN (in_note e).

Inductive add_outcome :=
| StorageFull
| InvalidDate
| AmountNotPositive
| Added.

Definition bar_to_slash (s : cstring) : cstring :=
  map (fun c => if Ascii.eqb c BAR then SLASH else c) (cstr s).

Definition add_transaction (st : store) (e : entry) : add_outcome * store :=
  if (MAX_TRANSACTIONS <=? length st)%nat then (StorageFull, st)
  else if negb (valid_date (in_y e) (in_m e) (in_d e)) then (InvalidDate, st)
  else
    let category :=
      match cstr (in_category e) with
      | [] => match in_t e with INCOME => lit "Salary" | EXPENSE => lit "Misc" end
      | _ => in_category e
      end in
    if (in_amount e <=? 0)%float then (AmountNotPositive, st)
    else
      let note := bar_to_slash (in_note e) in
      let category := bar_to_slash category in
      (Added,
       st ++ [ {| tx_y := in_y e; tx_m := in_m e; tx_d := in_d e;
                  tx_type := in_t e;
                  tx_category := strncpy (STR_LEN - 1) category;
                  tx_amount := in_amount e;
                  tx_note := strncpy (NOTE_LEN - 1) note |} ]).

(** *** [delete_by_index], on the index [read_int] returns *)

Definition delete_by_index (st : store) (idx : nat) : store :=
  match st with
  | [] => st
  | _ => firstn idx st ++ skipn (S idx) st
  end.

(** ** Sorting *)

Definition cmp_date (x y : Transaction) : Z :=
  if negb (tx_y x =? tx_y y) then (if tx_y x <? tx_y y then -1 else 1)
  else if negb (tx_m x =? tx_m y) then (if tx_m x <? tx_m y then -1 else 1)
  else if negb (tx_d x =? tx_d y) then (if tx_d x <? tx_d y then -1 else 1)
  else 0.

Definition cmp_amount_desc (x y : Transaction) : Z :=
  if (tx_amount x <? tx_amount y)%float then 1
  else if (tx_amount y <? tx_amount x)%float then -1
  else 0.

(** [qsort] is the C library's.  The C standard promises that the array ends
    up holding the same elements in ascending order of the comparison
    function, and leaves the order of elements that compare equal
    unspecified; every array allowed by that promise is a possible result. *)
Definition qsort {A : Type} (cmp : A -> A -> Z) (l l' : list A) : Prop :=
  Permutation l l' /\ StronglySorted (fun a b => cmp a b <= 0) l'.

(** [sort_menu] with the choice [c] that [read_int] returns (1 or 2). *)
Definition sort_menu (c : Z) (st st' : store) : Prop :=
  match st with
  | [] => st' = st
  | _ => if c =? 1 then qsort cmp_date st st' else qsort cmp_amount_desc st st'
  end.

(** Insertion sort, one library routine that meets the promise: it is used to
    show that [sort_menu] always has a result. *)
Fixpoint insert_by {A : Type} (cmp : A -> A -> Z) (a : A) (l : list A)
  : list A :=
  match l with
  | [] => [a]
  | b :: r => if cmp a b <=? 0 then a :: l else b :: insert_by cmp a r
  end.

Fixpoint isort {A : Type} (cmp : A -> A -> Z) (l : list A) : list A :=
  match l with
  | [] => []
  | a :: r => insert_by cmp a (isort cmp r)
  end.

(** ** Save and load *)

(** [fprintf(f, "%d|%d|%d|%d|%s|%.2f|%s\n", ...)]. *)
Definition fprintf_record (y m d k : Z) (c : cstring) (a : float)
    (nt : cstring) : cstring :=
  print_d y ++ BAR :: print_d m ++ BAR :: print_d d ++ BAR :: print_d k
  ++ BAR :: c ++ BAR :: fmt_2f a ++ BAR :: nt ++ [NL].

Definition tx_line (t : Transaction) : cstring :=
  fprintf_record (tx_y t) (tx_m t) (tx_d t) (TxType_int (tx_type t))
    (cstr (tx_category t)) (tx_amount t) (cstr (tx_note t)).

(** The text [save_to_file] writes. *)
Definition serialize (st : store) : cstring := flat_map tx_line st.

(** [save_to_file]: [writable] tells whether [fopen(fname, "w")] succeeds;
    the result is the return value and the new content of the file, if any. *)
Definition save_to_file (writable : bool) (st : store) : Z * option cstring :=
  if writable then (1, Some (serialize st)) else (0, None).

(** The outcome of
    [sscanf(line, "%d|%d|%d|%d|%63[^|]|%lf|%127[^\n]", ...)]:
    the return value and the variables as the call leaves them. *)
Record scanned := {
  matched : Z;
  sc_y : Z;
  sc_m : Z;
  sc_d : Z;
  typeInt : Z;
  sc_category : cstring;
  sc_amount : float;
  sc_note : cstring
}.

Definition bar_then {A : Type} (f : cstring -> option (A * cstring))
    (s : cstring) : option (A * cstring) :=
  match expect BAR s with
  | Some r => f r
  | None => None
  end.

Definition sscanf_record (line : cstring) : scanned :=
  let s0 := cstr line in
  let out n y m d t c a nt :=
    {| matched := n; sc_y := y; sc_m := m; sc_d := d; typeInt := t;
       sc_category := c; sc_amount := a; sc_note := nt |} in
  match scan_d s0 with
  | None => out (match skip_ws s0 with [] => -1 | _ => 0 end) 0 0 0 0 [] zero []
  | Some (y, s1) =>
  match bar_then scan_d s1 with
  | None => out 1 y 0 0 0 [] zero []
  | Some (m, s2) =>
  match bar_then scan_d s2 with
  | None => out 2 y m 0 0 [] zero []
  | Some (d, s3) =>
  match bar_then scan_d s3 with
  | None => out 3 y m d 0 [] zero []
  | Some (t, s4) =>
  match bar_then (scan_set BAR (STR_LEN - 1)) s4 with
  | None => out 4 y m d t [] zero []
  | Some (c, s5) =>
  match bar_then scan_lf s5 with
  | None => out 5 y m d t c zero []
  | Some (a, s6) =>
  match bar_then (scan_set NL (NOTE_LEN - 1)) s6 with
  | None => out 6 y m d t c a []
  | Some (nt, _) => out 7 y m d t c a nt
  end end end end end end end.

(** One round of the loop of [load_from_file]: the records kept so far
    ([txs[0 .. n - 1]]) and the line [fgets] has just read. *)
Definition load_line (line : cstring) (kept : store) : store :=
  let sc := sscanf_record line in
  if 6 <=? matched sc then
    let t :=
      {| tx_y := sc_y sc; tx_m := sc_m sc; tx_d := sc_d sc;
         tx_type := if typeInt sc =? 1 then EXPENSE else INCOME;
         tx_category := strncpy (STR_LEN - 1) (sc_category sc);
         tx_amount := sc_amount sc;
         tx_note :=
           if matched sc =? 7 then strncpy (NOTE_LEN - 1) (sc_note sc)
           else [] |} in
    if valid_date (tx_y t) (tx_m t) (tx_d t) && (0 <=? tx_amount t)%float then
      if (length kept <? MAX_TRANSACTIONS)%nat then kept ++ [t] else kept
    else kept
  else kept.

(** The loop [while (fgets(line, sizeof(line), f))]; every round takes at
    least one character off the file, so its length bounds the rounds. *)
Fixpoint load_loop (rounds : nat) (f : cstring) (kept : store) : store :=
  match rounds with
  | O => kept
  | S k =>
      match fgets LINE_LEN f with
      | None => kept
      | Some (line, rest) => load_loop k rest (load_line line kept)
      end
  end.

(** [load_from_file]: [file] is the content of the file when
    [fopen(fname, "r")] succeeds; the result is the return value and the
    store afterwards. *)
Definition load_from_file (file : option cstring) (st : store) : Z * store :=
  match file with
  | None => (0, st)
  | Some f => (1, load_loop (length f) f [])
  end.

(** The lines [fgets] cuts the file into. *)
Fixpoint file_lines (rounds : nat) (f : cstring) : list cstring :=
  match rounds with
  | O => []
  | S k =>
      match fgets LINE_LEN f with
      | None => []
      | Some (line, rest) => line :: file_lines k rest
      end
  end.

(** ** Monthly expense chart *)

(** [sums[i] += a]. *)
Fixpoint add_at (i : nat) (a : float) (sums : list float) : list float :=
  match sums, i with
  | [], _ => []
  | s :: r, O => (s + a)%float :: r
  | s :: r, S j => s :: add_at j a r
  end.

(** The array [sums[13]] after the first loop; slot 0 is never used. *)
Definition chart_step (year : Z) (sums : list float) (t : Transaction)
  : list float :=
  if TxType_eqb (tx_type t) EXPENSE && (tx_y t =? year) then
    if (1 <=? tx_m t) && (tx_m t <=? 12)
    then add_at (Z.to_nat (tx_m t)) (tx_amount t) sums
    else sums
  else sums.

Definition chart_sums (st : store) (year : Z) : list float :=
  fold_left (chart_step year) st (repeat zero 13).

(** [maxv] after the second loop, over the months 1 to 12. *)
Definition chart_max (sums : list float) : float :=
  fold_left (fun maxv s => if (maxv <? s)%float then s else maxv)
    (skipn 1 sums) zero.

(** [total] after the last loop. *)
Definition chart_total (sums : list float) : float :=
  fold_left PrimFloat.add (skipn 1 sums) zero.

(** [(int)x]: the value with its fraction dropped, undefined ([None]) when
    that does not fit an [int]. *)
Definition double_to_int (x : float) : option Z :=
  match Prim2SF x with
  | S754_zero _ => Some 0
  | S754_finite s m e =>
      let v := if 0 <=? e then Zpos m * 2 ^ e else Zpos m / 2 ^ (- e) in
      let v := if s then - v else v in
      if (- 2 ^ 31 <=? v) && (v <? 2 ^ 31) then Some v else None
  | _ => None
  end.

Definition maxWidth : float := 50%float.

Definition bar_len (maxv s : float) : option Z :=
  match double_to_int (s / maxv * maxWidth + 0.5)%float with
  | Some bar => Some (if bar <? 0 then 0 else bar)
  | None => None
  end.

(** What [monthly_spending_chart] reports for the year [read_int] returns:
    one of its two messages, or the twelve rows (length of the bar, sum of
    the month) and the total. *)
Inductive chart_outcome :=
| NoData
| NoExpenses (year : Z)
| Chart (rows : list (option Z * float)) (total : float).

Definition monthly_spending_chart (st : store) (year : Z) : chart_outcome :=
  match st with
  | [] => NoData
  | _ =>
      let sums := chart_sums st year in
      let maxv := chart_max sums in
      if (maxv =? 0)%float then NoExpenses year
      else
        Chart (map (fun s => (bar_len maxv s, s)) (skipn 1 sums))
          (chart_total sums)
  end.

(** ** Summary totals: income, expense and their difference, as printed *)

Definition summary_step (acc : float * float) (t : Transaction)
  : float * float :=
  match tx_type t with
  | INCOME => (fst acc + tx_amount t, snd acc)%float
  | EXPENSE => (fst acc, snd acc + tx_amount t)%float
  end.

Definition show_summary (st : store) : float * float * float :=
  let acc := fold_left summary_step st (zero, zero) in
  (fst acc, snd acc, (fst acc - snd acc)%float).

(** ** Stores and what they satisfy *)

(** The stores the program reaches with [add_transaction] alone. *)
Inductive built_by_add : store -> Prop :=
| built_empty : built_by_add []
| built_add st e :
    built_by_add st -> entry_read e = true ->
    built_by_add (snd (add_transaction st e)).

(** No [|] in a category or a note. *)
Definition bar_free (t : Transaction) : Prop :=
  no_char BAR (tx_category t) = true /\ no_char BAR (tx_note t) = true.

(** The texts fit their arrays and the amount is a number not below zero. *)
Definition tx_ok (t : Transaction) : bool :=
  (length (tx_category t) <? STR_LEN)%nat && no_char NUL (tx_category t)
  && (length (tx_note t) <? NOTE_LEN)%nat && no_char NUL (tx_note t)
  && valid_date (tx_y t) (tx_m t) (tx_d t)
  && (0 <=? tx_amount t)%float.

(** A record [add_transaction] can have stored, and that [save_to_file]
    writes on one line that [fgets] reads whole. *)
Definition tx_entered (t : Transaction) : bool :=
  tx_ok t
  && negb (length (tx_category t) =? 0)%nat
  && no_char BAR (tx_category t) && no_char NL (tx_category t)
  && no_char BAR (tx_note t) && no_char NL (tx_note t).

(** The amount comes back from its two-decimal text. *)
Definition two_decimal (a : float) : Prop :=
  scan_lf (fmt_2f a) = Some (a, []).

(** The line of the record fits the buffer of [load_from_file]. *)
Definition fits_line (t : Transaction) : Prop :=
  (length (tx_line t) <? LINE_LEN)%nat = true.

(** Order by date and by amount. *)
Definition date_le (x y : Transaction) : Prop :=
  tx_y x < tx_y y
  \/ (tx_y x = tx_y y
      /\ (tx_m x < tx_m y \/ (tx_m x = tx_m y /\ tx_d x <= tx_d y))).

Definition amount_ge (x y : Transaction) : Prop :=
  (tx_amount y <=? tx_amount x)%float = true.

(** A sort is stable when records with equal keys keep their order: the
    records equivalent to any given one appear in the same sequence. *)
Definition stable {A : Type} (cmp : A -> A -> Z) (l l' : list A) : Prop :=
  forall a, filter (fun b => cmp a b =? 0) l' = filter (fun b => cmp a b =? 0) l.

(** The value of a run of decimal digits read after the value [a]. *)
Fixpoint uint_val (a : Z) (d : Decimal.uint) : Z :=
  match d with
  | Decimal.Nil => a
  | Decimal.D0 r => uint_val (10 * a) r
  | Decimal.D1 r => uint_val (10 * a + 1) r
  | Decimal.D2 r => uint_val (10 * a + 2) r
  | Decimal.D3 r => uint_val (10 * a + 3) r
  | Decimal.D4 r => uint_val (10 * a + 4) r
  | Decimal.D5 r => uint_val (10 * a + 5) r
  | Decimal.D6 r => uint_val (10 * a + 6) r
  | Decimal.D7 r => uint_val (10 * a + 7) r
  | Decimal.D8 r => uint_val (10 * a + 8) r
  | Decimal.D9 r => uint_val (10 * a + 9) r
  end.

(** ** Stores used as examples *)

Definition mk_entry (y m d : Z) (t : TxType) (category amount note : string)
  : entry :=
  {| in_y := y; in_m := m; in_d := d; in_t := t; in_category := lit category;
     in_amount := dbl amount; in_note := lit note |}.

Definition add_all (es : list entry) : store :=
  fold_left (fun st e => snd (add_transaction st e)) es [].

(** Food 50.00 and Rent 950.00 spent, Salary 2000.00 earned. *)
Definition three_entries : list entry :=
  [ mk_entry 2025 1 15 EXPENSE "Food" "50.00" "";
    mk_entry 2025 2 1 EXPENSE "Rent" "950.00" "";
    mk_entry 2025 1 20 INCOME "Salary" "2000.00" "" ].

Definition three_store : store := add_all three_entries.

(** One expense of a tenth of a cent. *)
Definition mill_store : store :=
  add_all [ mk_entry 2025 1 15 EXPENSE "Food" "0.001" "" ].

(** ** Reading a line, field by field *)

(** The first six fields of [line] parse: an integer, then five times a [|]
    and the next field, as the conversions of [sscanf] read them; [rest] is
    what follows the amount. *)
Definition fields_parse (line : cstring) (y m d k : Z) (c : cstring)
    (a : float) (rest : cstring) : Prop :=
  exists s1 s2 s3 s4 s5,
    scan_d (cstr line) = Some (y, s1)
    /\ bar_then scan_d s1 = Some (m, s2)
    /\ bar_then scan_d s2 = Some (d, s3)
    /\ bar_then scan_d s3 = Some (k, s4)
    /\ bar_then (scan_set BAR (STR_LEN - 1)) s4 = Some (c, s5)
    /\ bar_then scan_lf s5 = Some (a, rest).

(** The note that follows the amount: the text after one more [|], up to the
    end of the line, or nothing. *)
Definition note_of (rest : cstring) : cstring :=
  match bar_then (scan_set NL (NOTE_LEN - 1)) rest with
  | Some (nt, _) => strncpy (NOTE_LEN - 1) nt
  | None => []
  end.

(** The record a line with the fields [y], [m], [d], [k], [c], [a] gives. *)
Definition parsed_record (y m d k : Z) (c : cstring) (a : float)
    (rest : cstring) : Transaction :=
  {| tx_y := y; tx_m := m; tx_d := d;
     tx_type := if k =? 1 then EXPENSE else INCOME;
     tx_category := strncpy (STR_LEN - 1) c;
     tx_amount := a;
     tx_note := note_of rest |}.

(** A file of one good line and one line of garbage. *)
Definition two_lines : cstring :=
  lit "2025|1|15|1|Food|50.00|lunch" ++ NL :: lit "abc|garbage" ++ [NL].

(** A line whose note holds the delimiter. *)
Definition piped_note : cstring := lit "2025|1|15|1|Food|50.00|a|b" ++ [NL].

(** ** Sort keys *)

(** Lexicographic comparison of three integers. *)
Definition lex3 (a b : Z * Z * Z) : comparison :=
  let '(a1, a2, a3) := a in
  let '(b1, b2, b3) := b in
  match a1 ?= b1 with
  | Eq => match a2 ?= b2 with Eq => a3 ?= b3 | c => c end
  | c => c
  end.

Definition lex_le (a b : Z * Z * Z) : Prop := lex3 a b <> Gt.

Definition opp3 (a : Z * Z * Z) : Z * Z * Z :=
  let '(a1, a2, a3) := a in (- a1, - a2, - a3).

(** The place of a binary64 value in the order of [<]: sign class, then
    exponent, then mantissa; no place for a NaN, one place for both zeros. *)
Definition sf_rank (x : spec_float) : option (Z * Z * Z) :=
  match x with
  | S754_nan => None
  | S754_infinity true => Some (-2, 0, 0)
  | S754_finite true m e => Some (-1, - e, Zneg m)
  | S754_zero _ => Some (0, 0, 0)
  | S754_finite false m e => Some (1, e, Zpos m)
  | S754_infinity false => Some (2, 0, 0)
  end.

Definition rank (a : float) : Z * Z * Z :=
  match sf_rank (Prim2SF a) with
  | Some k => k
  | None => (0, 0, 0)
  end.

Definition date_key (t : Transaction) : Z * Z * Z := (tx_y t, tx_m t, tx_d t).

(** Larger amounts first. *)
Definition amount_key (t : Transaction) : Z * Z * Z := opp3 (rank (tx_amount t)).

(** The amount is a number (not a NaN) and not below zero: what
    [add_transaction] and [load_from_file] both check before they keep a
    record. *)
Definition amount_ok (t : Transaction) : Prop :=
  (0 <=? tx_amount t)%float = true.

(** Two records of the same day and the same amount. *)
Definition tie_a : Transaction :=
  {| tx_y := 2025; tx_m := 1; tx_d := 15; tx_type := EXPENSE;
     tx_category := lit "Food"; tx_amount := 50; tx_note := [] |}.

Definition tie_b : Transaction :=
  {| tx_y := 2025; tx_m := 1; tx_d := 15; tx_type := EXPENSE;
     tx_category := lit "Rent"; tx_amount := 50; tx_note := [] |}.

Definition tie_store : store := [tie_a; tie_b].

(** The stores the program can hold: it starts empty and goes on by the
    actions of its menu, on values its input helpers accept. *)
Inductive reachable : store -> Prop :=
| reach_start : reachable []
| reach_add st e :
    reachable st -> entry_read e = true ->
    reachable (snd (add_transaction st e))
| reach_delete st idx :
    reachable st -> (idx < length st)%nat ->
    reachable (delete_by_index st idx)
| reach_sort c st st' :
    reachable st -> sort_menu c st st' -> reachable st'
| reach_load file st :
    reachable st -> reachable (snd (load_from_file file st)).

(** ** Sums, as sentences about the store *)

(** The amounts of [l] added up in order, in double arithmetic. *)
Definition sum_amounts (l : list Transaction) : float :=
  fold_left PrimFloat.add (map tx_amount l) zero.

Definition of_type (ty : TxType) (st : store) : list Transaction :=
  filter (fun t => TxType_eqb (tx_type t) ty) st.

(** The expenses of month [m] of [year]. *)
Definition expenses_of (year m : Z) (st : store) : list Transaction :=
  filter (fun t => TxType_eqb (tx_type t) EXPENSE && (tx_y t =? year)
                   && (tx_m t =? m)) st.

(** A tenth earned and three tenths spent; two tenths more to earn. *)
Definition tenths_store : store :=
  add_all [ mk_entry 2025 1 15 INCOME "Salary" "0.1" "";
            mk_entry 2025 2 1 EXPENSE "Rent" "0.3" "" ].

Definition two_tenths : entry := mk_entry 2025 2 2 INCOME "Salary" "0.2" "".

(** A binary64 value that is a number and not below zero. *)
Definition sf_nonneg (x : spec_float) : Prop :=
  match x with
  | S754_zero _ | S754_finite false _ _ | S754_infinity false => True
  | _ => False
  end.

(** The months of the chart. *)
Definition months : list Z := [1; 2; 3; 4; 5; 6; 7; 8; 9; 10; 11; 12].

(** ** Searching and filtering *)

(** [to_lower_str]: every character up to the NUL through [tolower]. *)
Definition to_lower_str (s : cstring) : cstring := map lower (cstr s).

Fixpoint starts_with (needle s : cstring) : bool :=
  match needle, s with
  | [], _ => true
  | c :: n', x :: s' => Ascii.eqb c x && starts_with n' s'
  | _ :: _, [] => false
  end.

(** [strstr(hay, needle) != NULL]. *)
Fixpoint strstr (hay needle : cstring) : bool :=
  starts_with needle hay
  || match hay with
     | [] => false
     | _ :: r => strstr r needle
     end.

(** The store with the index of every record, as the loops over
    [i = 0 .. txCount - 1] see it. *)
Definition indexed (st : store) : list (nat * Transaction) :=
  combine (seq 0 (length st)) st.

(** What a listing reports: one of the messages, or the rows it prints, each
    the index and the record given to [print_transaction]; no row stands for
    the closing message ("No matches.", "No expenses above that amount."). *)
Inductive listing :=
| ListNoData
| ListInvalidDate
| Rows (rows : list (nat * Transaction)).

(** [strncpy(buf, src, n); buf[n - 1] = 0]. *)
Definition copy_terminated (n : nat) (src : cstring) : cstring :=
  firstn (n - 1) (strncpy n src).

(** The test of the text search on one record, [ql] being the query in lower
    case. *)
Definition text_match (c : Z) (ql : cstring) (t : Transaction) : bool :=
  let field := if c =? 1 then tx_category t else tx_note t in
  strstr (to_lower_str (copy_terminated NOTE_LEN field)) ql.

(** [search_menu] with the choice [c] (1 to 3), the text [q] that [read_line]
    returns for the choices 1 and 2, and the date the three [read_int] return
    for the choice 3. *)
Definition search_menu (c : Z) (q : cstring) (y m d : Z) (st : store)
  : listing :=
  match st with
  | [] => ListNoData
  | _ =>
      if (c =? 1) || (c =? 2) then
        let ql := to_lower_str (copy_terminated STR_LEN q) in
        Rows (filter (fun it => text_match c ql (snd it)) (indexed st))
      else if negb (valid_date y m d) then ListInvalidDate
      else
        Rows (filter (fun it => (tx_y (snd it) =? y) && (tx_m (snd it) =? m)
                                && (tx_d (snd it) =? d)) (indexed st))
  end.

(** [filter_expenses_over] with the threshold [read_double] returns. *)
Definition filter_expenses_over (thr : float) (st : store) : listing :=
  match st with
  | [] => ListNoData
  | _ =>
      Rows (filter (fun it => TxType_eqb (tx_type (snd it)) EXPENSE
                              && (thr <? tx_amount (snd it))%float)
              (indexed st))
  end.

(** [list_all]: every record with its index, or the message of the empty
    store. *)
Definition list_all (st : store) : listing :=
  match st with
  | [] => ListNoData
  | _ => Rows (indexed st)
  end.

(** ** Days of a month *)

Definition leap_year (y : Z) : bool :=
  ((y mod 4 =? 0) && negb (y mod 100 =? 0)) || (y mod 400 =? 0).

Definition days_in_month (y m : Z) : Z :=
  if m =? 2 then (if leap_year y then 29 else 28)
  else if (m =? 4) || (m =? 6) || (m =? 9) || (m =? 11) then 30
  else 31.

(** ** Records as the store keeps them *)

(** What holds of every record in the store: the texts fit their arrays, the
    category is not empty and has no [|], neither text has a newline, the date
    is valid and the amount is a number not below zero. *)
Definition tx_stored (t : Transaction) : bool :=
  tx_ok t
  && negb (length (tx_category t) =? 0)%nat
  && no_char BAR (tx_category t) && no_char NL (tx_category t)
  && no_char NL (tx_note t).

(** The number of [|] in a text. *)
Definition bars (s : cstring) : nat := count_occ ascii_dec s BAR.


(** The text a search by category (choice 1) or by note looks into. *)
Definition searched_field (c : Z) (t : Transaction) : cstring :=
  if c =? 1 then tx_category t else tx_note t.

(** Rows in the order of the store. *)
Definition by_index (rows : list (nat * Transaction)) : Prop :=
  StronglySorted (fun a b => (fst a < fst b)%nat) rows.

(** A file that is empty or whose last character is a newline. *)
Definition ends_line (f : cstring) : Prop :=
  f = [] \/ exists p, f = p ++ [NL].

(** An amount below this bound is printed with at most 302 digits before
    the point. *)
Definition short_amount : float := 0x1p1000%float.

(** The longest texts an entry can have, with a large amount. *)
Definition long_entry : entry :=
  {| in_y := 2025; in_m := 1; in_d := 1; in_t := EXPENSE;
     in_category := repeat "c"%char 63; in_amount := dbl "1e308";
     in_note := repeat "n"%char 127 |}.

(** The loop [for (;;)] of [read_int] and [read_double] on the pending
    terminal input: at the end of the input [fgets] gives nothing and the
    loop goes on, a line that [try] refuses is used up and the loop asks
    again; [None] when the helper has not returned after [rounds] rounds. *)
Fixpoint ask_again {A} (try : cstring -> option A) (rounds : nat)
    (stdin : cstring) : option (A * cstring) :=
  match rounds with
  | O => None
  | S k =>
      match fgets 64 stdin with
      | None => ask_again try k stdin
      | Some (line, rest) =>
          match try line with
          | Some x => Some (x, rest)
          | None => ask_again try k rest
          end
      end
  end.

Definition read_int (minV maxV : Z) (rounds : nat) (stdin : cstring)
  : option (Z * cstring) :=
  ask_again (read_int_try minV maxV) rounds stdin.

Definition read_double (minV : float) (rounds : nat) (stdin : cstring)
  : option (float * cstring) :=
  ask_again (read_double_try minV) rounds stdin.

(** A line as typed: up to 62 characters and the newline. *)
Definition typed_line (l : cstring) : Prop :=
  exists body, l = body ++ [NL] /\ no_char NL body = true
               /\ (length body < 63)%nat.

(** A line of a text file: characters other than the newline, then the
    newline. *)
Definition file_line (l : cstring) : Prop :=
  exists body, l = body ++ [NL] /\ no_char NL body = true.

(** A line that the buffer of [load_from_file] holds whole, the newline
    included. *)
Definition short_line (l : cstring) : Prop :=
  file_line l /\ (length l < LINE_LEN)%nat.

(** The line passes the checks of the loader: its first six fields parse,
    the date is valid and the amount is not below zero. *)
Definition line_passes (line : cstring) : Prop :=
  exists y m d k c a rest,
    fields_parse line y m d k c a rest
    /\ valid_date y m d = true /\ (0 <=? a)%float = true.

(** The two lines of [two_lines] the other way round. *)
Definition garbage_first : cstring :=
  lit "abc|garbage" ++ NL :: lit "2025|1|15|1|Food|50.00|lunch" ++ [NL].

(** A line of 540 characters: 511 that are no number, then a good record. *)
Definition long_bad : cstring :=
  repeat "x"%char 511 ++ lit "2025|1|15|1|Food|50.00|lunch" ++ [NL].

(** * Properties *)

Ltac split_andb :=
  repeat match goal with
         | h : _ && _ = true |- _ => apply andb_prop in h as [? ?]
         end.

(** ** Characters and input items *)

Lemma cstr_no_nul s : no_char NUL s = true -> cstr s = s.
Proof.
  induction s as [|c r IH]; simpl; [reflexivity|].
  intros H. apply andb_prop in H as [Hc Hr].
  apply negb_true_iff in Hc. rewrite Hc, IH by assumption. reflexivity.
Qed.

Lemma no_char_cstr s : no_char NUL (cstr s) = true.
Proof.
  induction s as [|c r IH]; simpl; [reflexivity|].
  destruct (Ascii.eqb c NUL) eqn:E; simpl; [reflexivity|].
  now rewrite E, IH.
Qed.

Lemma no_char_app c a b :
  no_char c (a ++ b) = no_char c a && no_char c b.
Proof. apply forallb_app. Qed.

Lemma no_char_cons c x s :
  no_char c (x :: s) = negb (Ascii.eqb x c) && no_char c s.
Proof. reflexivity. Qed.

Lemma no_char_firstn c n s : no_char c s = true -> no_char c (firstn n s) = true.
Proof.
  revert n; induction s as [|x r IH]; intros [|n] H; simpl in *; auto.
  apply andb_prop in H as [Hx Hr]. now rewrite Hx, IH.
Qed.

Lemma no_char_removelast c s :
  no_char c s = true -> no_char c (removelast s) = true.
Proof.
  induction s as [|x r IH]; simpl; auto.
  intros H. apply andb_prop in H as [Hx Hr].
  destruct r; simpl in *; auto. now rewrite Hx, IH.
Qed.

Lemma cstr_idem s : cstr (cstr s) = cstr s.
Proof. apply cstr_no_nul, no_char_cstr. Qed.

Lemma cstr_keeps c s : no_char c s = true -> no_char c (cstr s) = true.
Proof.
  induction s as [|x r IH]; simpl; auto.
  intros H. apply andb_prop in H as [Hx Hr].
  destruct (Ascii.eqb x NUL); simpl; auto. now rewrite Hx, IH.
Qed.

Lemma length_cstr s : (length (cstr s) <= length s)%nat.
Proof.
  induction s as [|x r IH]; simpl; auto.
  destruct (Ascii.eqb x NUL); simpl; lia.
Qed.

(** An item that is followed by [|] ends there: no step function below
    accepts that character. *)
Lemma run_stops {S : Type} (step : S -> ascii -> option S) (c : ascii) :
  (forall st, step st c = None) ->
  forall s st r,
    run step st (s ++ c :: r)
    = (fst (run step st s), snd (run step st s) ++ c :: r).
Proof.
  intros Hc s. induction s as [|x s IH]; intros st r; simpl.
  - now rewrite Hc.
  - destruct (step st x); [apply IH | reflexivity].
Qed.

Lemma d_step_bar st : d_step st BAR = None.
Proof. destruct st; reflexivity. Qed.

Lemma lf_step_bar st : lf_step st BAR = None.
Proof.
  destruct st as [| | | | | | | | | | | | | | | | ? i | ? i]; try reflexivity.
  - do 9 (destruct i as [|i]; try reflexivity).
  - do 4 (destruct i as [|i]; try reflexivity).
Qed.

Lemma skip_ws_stops s c r :
  is_space c = false ->
  skip_ws (s ++ c :: r) = skip_ws s ++ c :: r.
Proof.
  intros Hc. induction s as [|x s IH]; simpl.
  - now rewrite Hc.
  - destruct (is_space x); [apply IH | reflexivity].
Qed.

Lemma scan_d_bar s v rest r :
  scan_d s = Some (v, rest) ->
  scan_d (s ++ BAR :: r) = Some (v, rest ++ BAR :: r).
Proof.
  unfold scan_d. rewrite skip_ws_stops by reflexivity.
  rewrite (run_stops d_step BAR d_step_bar).
  destruct (run d_step DStart (skip_ws s)) as [st r']; simpl.
  destruct st; intros H; inversion H; reflexivity.
Qed.

Lemma scan_lf_bar s v rest r :
  scan_lf s = Some (v, rest) ->
  scan_lf (s ++ BAR :: r) = Some (v, rest ++ BAR :: r).
Proof.
  unfold scan_lf. rewrite skip_ws_stops by reflexivity.
  rewrite (run_stops lf_step BAR lf_step_bar).
  destruct (run lf_step LStart (skip_ws s)) as [st r']; simpl.
  destruct (lf_value st); intros H; inversion H; reflexivity.
Qed.

(** ** Decimal integers: [%d] written and read back *)

Lemma uint_val_acc d : forall acc,
  Zpos (Pos.of_uint_acc d acc) = uint_val (Zpos acc) d.
Proof.
  induction d; intros acc; cbn [Pos.of_uint_acc uint_val]; try reflexivity;
    rewrite IHd; f_equal; lia.
Qed.

Lemma uint_val_of_uint d : Z.of_N (Pos.of_uint d) = uint_val 0 d.
Proof.
  induction d; cbn [Pos.of_uint uint_val Z.of_N]; try reflexivity;
    try assumption; rewrite uint_val_acc; reflexivity.
Qed.

Lemma uint_val_to_uint n : uint_val 0 (N.to_uint n) = Z.of_N n.
Proof.
  rewrite <- uint_val_of_uint.
  change (Pos.of_uint (N.to_uint n)) with (N.of_uint (N.to_uint n)).
  now rewrite DecimalN.Unsigned.of_to.
Qed.

Lemma run_digits n r d : forall a,
  run d_step (DDigits n a) (uint_chars d ++ BAR :: r)
  = (DDigits n (uint_val a d), BAR :: r).
Proof.
  induction d; intros a; simpl; try reflexivity; rewrite IHd;
    rewrite ?Z.add_0_r; reflexivity.
Qed.

Lemma to_uint_nonnil n : N.to_uint n <> Decimal.Nil.
Proof.
  destruct n; simpl; [discriminate | apply DecimalPos.Unsigned.to_uint_nonnil].
Qed.

Lemma run_print_u n v r :
  0 <= v ->
  run d_step (DSign n) (print_u v ++ BAR :: r) = (DDigits n v, BAR :: r)
  /\ run d_step DStart (print_u v ++ BAR :: r) = (DDigits false v, BAR :: r).
Proof.
  intros Hv. unfold print_u.
  pose proof (uint_val_to_uint (Z.to_N v)) as Hval.
  rewrite Z2N.id in Hval by assumption.
  pose proof (to_uint_nonnil (Z.to_N v)) as Hnil.
  destruct (N.to_uint (Z.to_N v)) as [|d|d|d|d|d|d|d|d|d|d];
    try congruence; simpl in *; rewrite !run_digits, Hval; split; reflexivity.
Qed.

Lemma print_u_head v :
  exists c r, print_u v = c :: r /\ is_space c = false /\ no_char NUL (print_u v) = true
              /\ no_char NL (print_u v) = true.
Proof.
  unfold print_u. pose proof (to_uint_nonnil (Z.to_N v)) as Hnil.
  assert (Hall : forall d, no_char NUL (uint_chars d) = true
                           /\ no_char NL (uint_chars d) = true)
    by (induction d; simpl; auto).
  destruct (Hall (N.to_uint (Z.to_N v))) as [H0 H1].
  destruct (N.to_uint (Z.to_N v)) as [|d|d|d|d|d|d|d|d|d|d];
    try congruence; simpl; eexists _, _; (split; [reflexivity|]); auto.
Qed.

Lemma no_nul_print_d z :
  no_char NUL (print_d z) = true /\ no_char NL (print_d z) = true.
Proof.
  unfold print_d.
  destruct (z <? 0); [destruct (print_u_head (- z)) as (c & r & _ & _ & H0 & H1)
                     | destruct (print_u_head z) as (c & r & _ & _ & H0 & H1)];
    simpl; auto.
Qed.

Lemma to_int_small z : - 2 ^ 31 <= z < 2 ^ 31 -> to_int (clamp_long z) = z.
Proof.
  intros Hz. unfold to_int, clamp_long.
  rewrite Z.min_r, Z.max_r by lia.
  rewrite Z.mod_small by lia. lia.
Qed.

(** A number written with [%d] and followed by [|] is read back by [%d]. *)
Lemma scan_d_print_d z r :
  - 2 ^ 31 <= z < 2 ^ 31 ->
  scan_d (print_d z ++ BAR :: r) = Some (z, BAR :: r).
Proof.
  intros Hz. unfold scan_d, print_d.
  destruct (z <? 0) eqn:Hneg.
  - apply Z.ltb_lt in Hneg.
    destruct (run_print_u true (- z) r) as [Hrun _]; [lia|].
    cbn [app skip_ws].
    change (is_space "-") with false. cbv iota.
    cbn [run]. change (d_step DStart "-") with (Some (DSign true)).
    cbv iota. rewrite Hrun. rewrite Z.opp_involutive, to_int_small by assumption.
    reflexivity.
  - apply Z.ltb_ge in Hneg.
    destruct (run_print_u false z r) as [_ Hrun]; [lia|].
    destruct (print_u_head z) as (c & s & Hc & Hsp & _).
    assert (Hskip : skip_ws (print_u z ++ BAR :: r) = print_u z ++ BAR :: r)
      by (rewrite Hc; simpl; now rewrite Hsp).
    rewrite Hskip, Hrun, to_int_small by assumption. reflexivity.
Qed.

(** ** Scansets *)

Lemma scanset_not_stops stop s : forall w r,
  no_char stop s = true -> (length s <= w)%nat ->
  scanset_not stop w (s ++ stop :: r) = (s, stop :: r).
Proof.
  induction s as [|c s IH]; intros w r Hs Hw;
    cbn [app no_char forallb length] in *.
  - destruct w; cbn [scanset_not]; [reflexivity|]. now rewrite Ascii.eqb_refl.
  - apply andb_prop in Hs as [Hc Hs]. apply negb_true_iff in Hc.
    destruct w as [|w]; [lia|]. cbn [scanset_not].
    rewrite Hc, IH by (auto; lia). reflexivity.
Qed.

Lemma scan_set_stops stop s w r :
  s <> [] -> no_char stop s = true -> (length s <= w)%nat ->
  scan_set stop w (s ++ stop :: r) = Some (s, stop :: r).
Proof.
  intros Hne Hs Hw. unfold scan_set. rewrite scanset_not_stops by assumption.
  destruct s; [congruence | reflexivity].
Qed.

Lemma scanset_not_clean stop : forall w s,
  no_char stop (fst (scanset_not stop w s)) = true
  /\ (length (fst (scanset_not stop w s)) <= w)%nat.
Proof.
  induction w as [|w IH]; intros [|c s]; cbn [scanset_not fst no_char forallb length];
    auto with arith.
  destruct (Ascii.eqb c stop) eqn:E; cbn [fst no_char forallb length];
    auto with arith.
  specialize (IH s). destruct (scanset_not stop w s) as [t rest].
  cbn [fst no_char forallb length] in *.
  rewrite E. destruct IH as [IH1 IH2]. split; [exact IH1 | lia].
Qed.

Lemma scan_set_clean stop w s t rest :
  scan_set stop w s = Some (t, rest) ->
  no_char stop t = true /\ (length t <= w)%nat /\ t <> [].
Proof.
  unfold scan_set. pose proof (scanset_not_clean stop w s) as H.
  destruct (scanset_not stop w s) as [[|c t'] r']; [discriminate|].
  intros E; inversion E; subst. destruct H; repeat split; auto; discriminate.
Qed.

Lemma firstn_short {A : Type} (l : list A) n :
  (length l <= n)%nat -> firstn n l = l.
Proof. apply firstn_all2. Qed.

Lemma strncpy_short n s :
  no_char NUL s = true -> (length s <= n)%nat -> strncpy n s = s.
Proof.
  intros H0 Hn. unfold strncpy. rewrite cstr_no_nul by assumption.
  now apply firstn_short.
Qed.

(** ** The two-decimal text of an amount *)

Lemma no_nul_two_digits n :
  no_char NUL (two_digits n) = true /\ no_char NL (two_digits n) = true.
Proof.
  unfold two_digits. destruct (print_u_head n) as (c & r & _ & _ & H0 & H1).
  destruct (n <? 10); simpl; auto.
Qed.

Lemma no_nul_fmt_2f a :
  no_char NUL (fmt_2f a) = true /\ no_char NL (fmt_2f a) = true.
Proof.
  unfold fmt_2f.
  destruct (Prim2SF a) as [s|s| |s m e]; try (destruct s; split; reflexivity);
    [split; reflexivity|].
  destruct (print_u_head (hundredths m e / 100)) as (c & r & _ & _ & H0 & H1).
  destruct (no_nul_two_digits (hundredths m e mod 100)) as [T0 T1].
  rewrite !no_char_app, !no_char_cons, H0, H1, T0, T1.
  destruct s; split; reflexivity.
Qed.

(** ** One record written and read back *)

Lemma valid_date_range y m d :
  valid_date y m d = true ->
  1900 <= y <= 3000 /\ 1 <= m <= 12 /\ 1 <= d <= 31.
Proof.
  unfold valid_date.
  destruct (y <? 1900) eqn:Y1; [discriminate|].
  destruct (y >? 3000) eqn:Y2; [discriminate|].
  destruct (m <? 1) eqn:M1; [discriminate|].
  destruct (m >? 12) eqn:M2; [discriminate|].
  cbn [orb].
  set (leap := _ && _ || _).
  destruct (d <? 1) eqn:D1; [discriminate|].
  destruct (d >? _) eqn:D2; [discriminate|]. intros _.
  apply Z.ltb_ge in Y1, M1, D1.
  rewrite Z.gtb_ltb in Y2, M2, D2. apply Z.ltb_ge in Y2, M2, D2.
  repeat split; try lia.
  assert (Hm : nth (Z.to_nat m) (mdays leap) 0 <= 31).
  { generalize (Z.to_nat m) as k. intros k.
    destruct leap; do 13 (destruct k as [|k]; [simpl; lia|]);
      destruct k; simpl; lia. }
  lia.
Qed.

Lemma bar_then_bar {A : Type} (f : cstring -> option (A * cstring)) s :
  bar_then f (BAR :: s) = f s.
Proof. reflexivity. Qed.

Lemma tx_entered_facts t :
  tx_entered t = true ->
  (length (tx_category t) <= STR_LEN - 1)%nat
  /\ no_char NUL (tx_category t) = true
  /\ (length (tx_note t) <= NOTE_LEN - 1)%nat
  /\ no_char NUL (tx_note t) = true
  /\ valid_date (tx_y t) (tx_m t) (tx_d t) = true
  /\ (0 <=? tx_amount t)%float = true
  /\ tx_category t <> []
  /\ no_char BAR (tx_category t) = true
  /\ no_char NL (tx_category t) = true
  /\ no_char BAR (tx_note t) = true
  /\ no_char NL (tx_note t) = true.
Proof.
  unfold tx_entered, tx_ok. intros H.
  repeat (apply andb_prop in H as [H ?]).
  repeat match goal with
         | h : (_ <? _)%nat = true |- _ => apply Nat.ltb_lt in h
         end.
  unfold STR_LEN, NOTE_LEN in *.
  repeat split; try assumption; try lia.
  intros E. rewrite E in *. discriminate.
Qed.

Lemma no_nul_fprintf y m d k c a nt :
  no_char NUL c = true -> no_char NUL nt = true ->
  no_char NUL (fprintf_record y m d k c a nt) = true.
Proof.
  intros C0 N0. unfold fprintf_record.
  repeat (rewrite no_char_app || rewrite no_char_cons).
  rewrite !(proj1 (no_nul_print_d _)), (proj1 (no_nul_fmt_2f _)), C0, N0.
  reflexivity.
Qed.

(** What [sscanf] finds on a line written by [fprintf]. *)
Lemma sscanf_fprintf y m d k c a nt :
  - 2 ^ 31 <= y < 2 ^ 31 -> - 2 ^ 31 <= m < 2 ^ 31 ->
  - 2 ^ 31 <= d < 2 ^ 31 -> - 2 ^ 31 <= k < 2 ^ 31 ->
  c <> [] -> no_char NUL c = true -> no_char BAR c = true ->
  (length c <= STR_LEN - 1)%nat ->
  no_char NUL nt = true -> no_char NL nt = true ->
  (length nt <= NOTE_LEN - 1)%nat ->
  two_decimal a ->
  sscanf_record (fprintf_record y m d k c a nt)
  = {| matched := match nt with [] => 6 | _ => 7 end;
       sc_y := y; sc_m := m; sc_d := d; typeInt := k;
       sc_category := c; sc_amount := a; sc_note := nt |}.
Proof.
  intros Hy Hm Hd Hk CE C0 CB CL N0 NN NL' H2. unfold sscanf_record.
  rewrite (cstr_no_nul _ (no_nul_fprintf y m d k c a nt C0 N0)).
  unfold fprintf_record.
  rewrite scan_d_print_d by lia. rewrite bar_then_bar.
  rewrite scan_d_print_d by lia. rewrite bar_then_bar.
  rewrite scan_d_print_d by lia. rewrite bar_then_bar.
  rewrite scan_d_print_d by lia. rewrite bar_then_bar.
  rewrite scan_set_stops by assumption. rewrite bar_then_bar.
  rewrite (scan_lf_bar _ _ _ _ H2). cbn [app]. rewrite bar_then_bar.
  destruct nt as [|x nt'] eqn:En.
  - reflexivity.
  - rewrite <- En in *.
    rewrite (scan_set_stops NL nt (NOTE_LEN - 1) [])
      by (auto; rewrite En; discriminate).
    reflexivity.
Qed.

(** One round of the loading loop on a line written by [fprintf] keeps the
    record on that line. *)
Lemma load_line_fprintf y m d k c a nt kept :
  valid_date y m d = true -> - 2 ^ 31 <= k < 2 ^ 31 ->
  c <> [] -> no_char NUL c = true -> no_char BAR c = true ->
  (length c <= STR_LEN - 1)%nat ->
  no_char NUL nt = true -> no_char NL nt = true ->
  (length nt <= NOTE_LEN - 1)%nat ->
  two_decimal a -> (0 <=? a)%float = true ->
  (length kept < MAX_TRANSACTIONS)%nat ->
  load_line (fprintf_record y m d k c a nt) kept
  = kept ++ [ {| tx_y := y; tx_m := m; tx_d := d;
                 tx_type := if k =? 1 then EXPENSE else INCOME;
                 tx_category := c; tx_amount := a; tx_note := nt |} ].
Proof.
  intros VD Hk CE C0 CB CL N0 NN NL' H2 AP Hlen. unfold load_line.
  pose proof (valid_date_range _ _ _ VD) as (Hy & Hm & Hd).
  rewrite sscanf_fprintf by (assumption || lia).
  cbn [matched sc_y sc_m sc_d typeInt sc_category sc_amount sc_note
       tx_y tx_m tx_d tx_amount].
  rewrite VD, AP. cbn [andb].
  apply Nat.ltb_lt in Hlen. rewrite Hlen.
  assert (H6 : (6 <=? match nt with [] => 6 | _ => 7 end) = true)
    by (destruct nt; reflexivity).
  rewrite H6. do 3 f_equal.
  - now apply strncpy_short.
  - destruct nt; [reflexivity|]. now apply strncpy_short.
Qed.

Lemma load_line_tx_line t kept :
  tx_entered t = true -> two_decimal (tx_amount t) ->
  (length kept < MAX_TRANSACTIONS)%nat ->
  load_line (tx_line t) kept = kept ++ [t].
Proof.
  intros Hin H2 Hlen.
  apply tx_entered_facts in Hin
    as (CL & C0 & NL' & N0 & VD & AP & CE & CB & _ & _ & NN).
  unfold tx_line. rewrite !cstr_no_nul by assumption.
  rewrite load_line_fprintf
    by (try assumption; destruct (tx_type t); simpl; lia).
  destruct t as [y m d [|] c a nt]; reflexivity.
Qed.

(** ** A saved store read back *)

Lemma fgets_chars_line body : forall k rest,
  no_char NL body = true -> (length body < k)%nat ->
  fgets_chars k (body ++ NL :: rest) = (body ++ [NL], rest).
Proof.
  induction body as [|c body IH]; intros k rest Hb Hk;
    cbn [app length no_char forallb] in *.
  - destruct k; [lia | reflexivity].
  - apply andb_prop in Hb as [Hc Hb]. apply negb_true_iff in Hc.
    destruct k as [|k]; [lia|]. cbn [fgets_chars].
    rewrite Hc, IH by (auto; lia). reflexivity.
Qed.

Lemma tx_line_body t :
  tx_entered t = true ->
  exists body, tx_line t = body ++ [NL] /\ no_char NL body = true.
Proof.
  intros H. apply tx_entered_facts in H
    as (_ & C0 & _ & N0 & _ & _ & _ & _ & CN & _ & NN).
  exists (print_d (tx_y t) ++ BAR :: print_d (tx_m t) ++ BAR
          :: print_d (tx_d t) ++ BAR :: print_d (TxType_int (tx_type t))
          ++ BAR :: tx_category t ++ BAR :: fmt_2f (tx_amount t)
          ++ BAR :: tx_note t).
  split.
  - unfold tx_line, fprintf_record. rewrite !cstr_no_nul by assumption.
    repeat (rewrite <- app_assoc; cbn [app]). reflexivity.
  - repeat (rewrite no_char_app || rewrite no_char_cons).
    rewrite !(proj2 (no_nul_print_d _)), (proj2 (no_nul_fmt_2f _)), CN, NN.
    reflexivity.
Qed.

Lemma fgets_tx_line t rest :
  tx_entered t = true -> fits_line t ->
  fgets LINE_LEN (tx_line t ++ rest) = Some (tx_line t, rest).
Proof.
  intros Hin Hfit. destruct (tx_line_body t Hin) as (body & Hb & Hnl).
  unfold fits_line in Hfit. apply Nat.ltb_lt in Hfit. rewrite Hb in *.
  rewrite length_app in Hfit. cbn [length] in Hfit.
  rewrite <- app_assoc. cbn [app]. unfold fgets.
  destruct (body ++ NL :: rest) eqn:E; [destruct body; discriminate|].
  rewrite <- E. f_equal. apply fgets_chars_line; [assumption|].
  unfold LINE_LEN in *. lia.
Qed.

Lemma load_loop_serialize st : forall kept rounds,
  Forall (fun t => tx_entered t = true /\ two_decimal (tx_amount t)
                   /\ fits_line t) st ->
  (length kept + length st <= MAX_TRANSACTIONS)%nat ->
  (length (serialize st) <= rounds)%nat ->
  load_loop rounds (serialize st) kept = kept ++ st.
Proof.
  induction st as [|t st IH]; intros kept rounds Hall Hcap Hr.
  - rewrite app_nil_r. destruct rounds; reflexivity.
  - inversion Hall as [|? ? (Hin & H2 & Hfit) Hrest]; subst.
    cbn [serialize flat_map length] in *. rewrite length_app in Hr.
    destruct (tx_line_body t Hin) as (body & Hb & _).
    assert (Hpos : (0 < length (tx_line t))%nat)
      by (rewrite Hb, length_app; cbn [length]; lia).
    destruct rounds as [|rounds]; [lia|]. cbn [load_loop].
    rewrite fgets_tx_line by assumption.
    rewrite load_line_tx_line by (auto; lia).
    fold (serialize st). rewrite IH; auto.
    + now rewrite <- app_assoc.
    + rewrite length_app. cbn [length]. lia.
    + fold (serialize st) in Hr. lia.
Qed.

(** ** What [add_transaction] stores *)

Lemma bar_to_slash_clean s :
  no_char BAR (bar_to_slash s) = true
  /\ no_char NUL (bar_to_slash s) = true
  /\ (no_char NL s = true -> no_char NL (bar_to_slash s) = true)
  /\ (cstr s <> [] -> bar_to_slash s <> []).
Proof.
  unfold bar_to_slash. repeat split.
  - induction (cstr s) as [|c r IH]; [reflexivity|].
    cbn [map]. rewrite no_char_cons, IH.
    destruct (Ascii.eqb c BAR) eqn:E; [reflexivity | now rewrite E].
  - pose proof (no_char_cstr s) as H.
    induction (cstr s) as [|c r IH]; [reflexivity|].
    rewrite no_char_cons in H. apply andb_prop in H as [Hc Hr].
    cbn [map]. rewrite no_char_cons, IH by assumption.
    destruct (Ascii.eqb c BAR); [reflexivity | now rewrite Hc].
  - intros H. apply cstr_keeps in H.
    induction (cstr s) as [|c r IH]; [reflexivity|].
    rewrite no_char_cons in H. apply andb_prop in H as [Hc Hr].
    cbn [map]. rewrite no_char_cons, IH by assumption.
    destruct (Ascii.eqb c BAR); [reflexivity | now rewrite Hc].
  - destruct (cstr s); [congruence | discriminate].
Qed.

Lemma strncpy_clean n s :
  (length (strncpy n s) <= n)%nat
  /\ no_char NUL (strncpy n s) = true
  /\ (forall c, no_char c s = true -> no_char c (strncpy n s) = true)
  /\ (no_char NUL s = true -> s <> [] -> (0 < n)%nat -> strncpy n s <> []).
Proof.
  unfold strncpy. repeat split.
  - rewrite length_firstn. lia.
  - apply no_char_firstn, no_char_cstr.
  - intros c H. now apply no_char_firstn, cstr_keeps.
  - intros H0 Hne Hn. rewrite cstr_no_nul by assumption.
    destruct s; [congruence|]. destruct n; [lia | discriminate].
Qed.

Lemma entry_read_facts e :
  entry_read e = true ->
  no_char NL (in_category e) = true
  /\ no_char NL (in_note e) = true
  /\ (0 <=? in_amount e)%float = true.
Proof.
  unfold entry_read, line_read. intros H. split_andb. auto.
Qed.

Lemma add_transaction_added st e :
  fst (add_transaction st e) = Added ->
  exists t,
    snd (add_transaction st e) = st ++ [t]
    /\ (length st < MAX_TRANSACTIONS)%nat
    /\ valid_date (tx_y t) (tx_m t) (tx_d t) = true
    /\ (in_amount e <=? 0)%float = false
    /\ tx_amount t = in_amount e /\ tx_type t = in_t e
    /\ tx_y t = in_y e /\ tx_m t = in_m e /\ tx_d t = in_d e
    /\ tx_note t = strncpy (NOTE_LEN - 1) (bar_to_slash (in_note e))
    /\ exists c, cstr c <> [] /\ (no_char NL (in_category e) = true ->
                                  no_char NL c = true)
                 /\ tx_category t = strncpy (STR_LEN - 1) (bar_to_slash c).
Proof.
  unfold add_transaction.
  destruct (MAX_TRANSACTIONS <=? length st)%nat eqn:Hcap; [discriminate|].
  destruct (valid_date (in_y e) (in_m e) (in_d e)) eqn:Hd; [|discriminate].
  cbn [negb]. destruct (in_amount e <=? 0)%float eqn:Ha; [discriminate|].
  intros _. eexists. split; [reflexivity|].
  apply Nat.leb_gt in Hcap.
  cbn [tx_y tx_m tx_d tx_type tx_category tx_amount tx_note].
  repeat (split; [first [assumption | reflexivity]|]).
  destruct (cstr (in_category e)) eqn:Ec.
  - destruct (in_t e); eexists; (split; [|split; [|reflexivity]]);
      try discriminate; reflexivity.
  - exists (in_category e). rewrite Ec. repeat split; auto. discriminate.
Qed.

Lemma add_transaction_same st e :
  fst (add_transaction st e) <> Added -> snd (add_transaction st e) = st.
Proof.
  unfold add_transaction.
  destruct (MAX_TRANSACTIONS <=? length st)%nat; [reflexivity|].
  destruct (valid_date (in_y e) (in_m e) (in_d e)); [|reflexivity].
  cbn [negb]. destruct (in_amount e <=? 0)%float; [reflexivity|].
  cbn [fst]. congruence.
Qed.

Lemma add_outcome_dec (o : add_outcome) : o = Added \/ o <> Added.
Proof. destruct o; auto; right; discriminate. Qed.

(** The record [add_transaction] appends has clean texts, a valid date and a
    number not below zero as amount. *)
Lemma add_transaction_entered st e t :
  entry_read e = true ->
  snd (add_transaction st e) = st ++ [t] ->
  tx_entered t = true /\ bar_free t.
Proof.
  intros Hr Hsnd.
  destruct (add_outcome_dec (fst (add_transaction st e))) as [Ha|Hn].
  2:{ rewrite (add_transaction_same _ _ Hn) in Hsnd.
      apply (f_equal (@length _)) in Hsnd. rewrite length_app in Hsnd.
      cbn [length] in Hsnd. lia. }
  destruct (add_transaction_added _ _ Ha)
    as (t' & E & _ & Hd & _ & Hamt & _ & _ & _ & _ & Hnote & c & Hc & Hcn & Hcat).
  rewrite E in Hsnd. apply app_inv_head in Hsnd. inversion Hsnd; subst t'.
  destruct (entry_read_facts e Hr) as (RC & RN & RA).
  destruct (bar_to_slash_clean (in_note e)) as (NB & N0 & NNL & _).
  destruct (bar_to_slash_clean c) as (CB & C0 & CNL & CNE).
  destruct (strncpy_clean (NOTE_LEN - 1) (bar_to_slash (in_note e)))
    as (SL & S0 & SK & _).
  destruct (strncpy_clean (STR_LEN - 1) (bar_to_slash c))
    as (TL & T0 & TK & TNE).
  assert (Hne : tx_category t <> [])
    by (rewrite Hcat; apply TNE; [exact C0 | exact (CNE Hc) | apply Nat.lt_0_succ]).
  unfold bar_free, tx_entered, tx_ok. rewrite Hnote, Hcat in *.
  rewrite T0, S0, Hd, Hamt, RA, (SK BAR NB), (TK BAR CB),
    (SK NL (NNL RN)), (TK NL (CNL (Hcn RC))).
  assert (L1 : (length (strncpy (STR_LEN - 1) (bar_to_slash c)) <? STR_LEN)%nat
               = true) by (apply Nat.ltb_lt; unfold STR_LEN in *; lia).
  assert (L2 : (length (strncpy (NOTE_LEN - 1) (bar_to_slash (in_note e)))
                <? NOTE_LEN)%nat = true)
    by (apply Nat.ltb_lt; unfold NOTE_LEN in *; lia).
  rewrite L1, L2.
  destruct (strncpy (STR_LEN - 1) (bar_to_slash c)); [congruence|].
  repeat split; reflexivity.
Qed.

Lemma built_by_add_inv st :
  built_by_add st ->
  Forall (fun t => tx_entered t = true /\ bar_free t) st
  /\ (length st <= MAX_TRANSACTIONS)%nat.
Proof.
  induction 1 as [|st e Hb [IHf IHl] Hr].
  - split; [constructor | apply Nat.le_0_l].
  - destruct (add_outcome_dec (fst (add_transaction st e))) as [Ha|Hn].
    + destruct (add_transaction_added _ _ Ha) as (t & E & Hlen & _).
      pose proof (add_transaction_entered st e t Hr E) as Ht.
      rewrite E. split.
      * apply Forall_app. split; [assumption | now constructor].
      * rewrite length_app. cbn [length]. lia.
    + rewrite (add_transaction_same _ _ Hn). now split.
Qed.

Lemma built_add_all es :
  forallb entry_read es = true -> built_by_add (add_all es).
Proof.
  unfold add_all. generalize built_empty. generalize (@nil Transaction) as st.
  induction es as [|e es IH]; intros st Hst Hes; cbn [fold_left]; [assumption|].
  cbn [forallb] in Hes. apply andb_prop in Hes as [He Hes].
  apply IH; [now apply built_add | assumption].
Qed.

(** C1, as the program has it: a store built with [add_transaction] alone is
    read back from its own saved text exactly, record for record and in order,
    provided every amount comes back from its two-decimal text and every line
    fits the 512-byte buffer of the loader. *)
Theorem save_then_load_restores (st prev : store) :
  built_by_add st ->
  Forall (fun t => two_decimal (tx_amount t) /\ fits_line t) st ->
  save_to_file true st = (1, Some (serialize st))
  /\ load_from_file (Some (serialize st)) prev = (1, st).
Proof.
  intros Hb Hamt. split; [reflexivity|].
  destruct (built_by_add_inv st Hb) as [Hin Hlen].
  cbn [load_from_file]. f_equal.
  rewrite load_loop_serialize; [reflexivity | | cbn [length]; lia | lia].
  rewrite Forall_forall in *. intros t Ht.
  destruct (Hin t Ht) as [? _]. destruct (Hamt t Ht). auto.
Qed.

Lemma save_then_load_restores_witness :
  load_from_file (Some (serialize three_store)) mill_store = (1, three_store).
Proof.
  refine (proj2 (save_then_load_restores three_store mill_store _ _)).
  - apply built_add_all. vm_compute. reflexivity.
  - let v := eval vm_compute in three_store in
    assert (E : three_store = v) by (vm_compute; reflexivity).
    rewrite E. repeat constructor; vm_compute; reflexivity.
Defined.

(** C1 as stated fails: an amount of a tenth of a cent is written as [0.00]
    and read back as zero. *)
Lemma save_then_load_loses_mills :
  built_by_add mill_store
  /\ snd (load_from_file (Some (serialize mill_store)) []) <> mill_store.
Proof.
  split.
  - apply built_add_all. vm_compute. reflexivity.
  - intros H.
    apply (f_equal (fun s => match s with
                             | t :: _ => (tx_amount t =? 0)%float
                             | [] => false
                             end)) in H.
    vm_compute in H. discriminate.
Qed.

(** ** The loading loop, line by line *)

Lemma sscanf_parsed line y m d k c a rest :
  fields_parse line y m d k c a rest ->
  let sc := sscanf_record line in
  6 <= matched sc
  /\ sc_y sc = y /\ sc_m sc = m /\ sc_d sc = d /\ typeInt sc = k
  /\ sc_category sc = c /\ sc_amount sc = a
  /\ (if matched sc =? 7 then strncpy (NOTE_LEN - 1) (sc_note sc) else [])
     = note_of rest.
Proof.
  intros (s1 & s2 & s3 & s4 & s5 & H1 & H2 & H3 & H4 & H5 & H6).
  unfold sscanf_record, note_of. rewrite H1, H2, H3, H4, H5, H6.
  destruct (bar_then (scan_set NL (NOTE_LEN - 1)) rest) as [[nt r]|];
    cbn; repeat split; try reflexivity; lia.
Qed.

Lemma sscanf_matched line :
  6 <= matched (sscanf_record line) ->
  exists rest,
    let sc := sscanf_record line in
    fields_parse line (sc_y sc) (sc_m sc) (sc_d sc) (typeInt sc)
      (sc_category sc) (sc_amount sc) rest.
Proof.
  unfold sscanf_record, fields_parse.
  destruct (scan_d (cstr line)) as [[y s1]|] eqn:H1;
    [|destruct (skip_ws (cstr line)); cbn; lia].
  destruct (bar_then scan_d s1) as [[m s2]|] eqn:H2; [|cbn; lia].
  destruct (bar_then scan_d s2) as [[d s3]|] eqn:H3; [|cbn; lia].
  destruct (bar_then scan_d s3) as [[k s4]|] eqn:H4; [|cbn; lia].
  destruct (bar_then (scan_set BAR (STR_LEN - 1)) s4) as [[c s5]|] eqn:H5;
    [|cbn; lia].
  destruct (bar_then scan_lf s5) as [[a s6]|] eqn:H6; [|cbn; lia].
  intros _. exists s6.
  destruct (bar_then (scan_set NL (NOTE_LEN - 1)) s6) as [[nt r]|];
    cbn [matched sc_y sc_m sc_d typeInt sc_category sc_amount sc_note];
    exists s1, s2, s3, s4, s5; repeat split; assumption.
Qed.

Lemma fields_parse_fun line y m d k c a rest y' m' d' k' c' a' rest' :
  fields_parse line y m d k c a rest ->
  fields_parse line y' m' d' k' c' a' rest' ->
  y = y' /\ m = m' /\ d = d' /\ k = k' /\ c = c' /\ a = a' /\ rest = rest'.
Proof.
  intros (s1 & s2 & s3 & s4 & s5 & H1 & H2 & H3 & H4 & H5 & H6)
         (t1 & t2 & t3 & t4 & t5 & G1 & G2 & G3 & G4 & G5 & G6).
  rewrite H1 in G1; inversion G1; subst.
  rewrite H2 in G2; inversion G2; subst.
  rewrite H3 in G3; inversion G3; subst.
  rewrite H4 in G4; inversion G4; subst.
  rewrite H5 in G5; inversion G5; subst.
  rewrite H6 in G6; inversion G6; subst.
  repeat split; reflexivity.
Qed.

(** A line whose six fields parse, with a valid date and an amount not below
    zero, is kept while there is room. *)
Lemma load_line_accepts line y m d k c a rest kept :
  fields_parse line y m d k c a rest ->
  valid_date y m d = true -> (0 <=? a)%float = true ->
  (length kept < MAX_TRANSACTIONS)%nat ->
  load_line line kept = kept ++ [parsed_record y m d k c a rest].
Proof.
  intros Hp VD AP Hlen.
  destruct (sscanf_parsed _ _ _ _ _ _ _ _ Hp)
    as (H6 & Ey & Em & Ed & Ek & Ec & Ea & En).
  unfold load_line, parsed_record.
  apply Z.leb_le in H6. rewrite H6.
  cbn [tx_y tx_m tx_d tx_amount].
  rewrite Ey, Em, Ed, Ek, Ec, Ea, En, VD, AP. cbn [andb].
  apply Nat.ltb_lt in Hlen. now rewrite Hlen.
Qed.

(** Every other line leaves the records kept so far as they are. *)
Lemma load_line_cases line kept :
  load_line line kept = kept
  \/ exists y m d k c a rest,
       fields_parse line y m d k c a rest
       /\ valid_date y m d = true /\ (0 <=? a)%float = true
       /\ (length kept < MAX_TRANSACTIONS)%nat
       /\ load_line line kept = kept ++ [parsed_record y m d k c a rest].
Proof.
  destruct (6 <=? matched (sscanf_record line)) eqn:H6.
  2:{ left. unfold load_line. now rewrite H6. }
  apply Z.leb_le in H6. destruct (sscanf_matched line H6) as [rest Hp].
  cbv zeta in Hp. set (sc := sscanf_record line) in *.
  destruct (valid_date (sc_y sc) (sc_m sc) (sc_d sc)) eqn:VD.
  2:{ left. unfold load_line. fold sc. cbn [tx_y tx_m tx_d].
      rewrite VD. now destruct (6 <=? matched sc). }
  destruct (0 <=? sc_amount sc)%float eqn:AP.
  2:{ left. unfold load_line. fold sc. cbn [tx_y tx_m tx_d tx_amount].
      rewrite VD, AP. now destruct (6 <=? matched sc). }
  destruct (length kept <? MAX_TRANSACTIONS)%nat eqn:Hlen.
  2:{ left. unfold load_line. fold sc. cbn [tx_y tx_m tx_d tx_amount].
      rewrite VD, AP, Hlen. now destruct (6 <=? matched sc). }
  right. apply Nat.ltb_lt in Hlen.
  exists (sc_y sc), (sc_m sc), (sc_d sc), (typeInt sc), (sc_category sc),
    (sc_amount sc), rest.
  repeat split; try assumption. now apply load_line_accepts.
Qed.

Lemma load_line_rejects line kept :
  ~ (exists y m d k c a rest,
       fields_parse line y m d k c a rest
       /\ valid_date y m d = true /\ (0 <=? a)%float = true) ->
  load_line line kept = kept.
Proof.
  intros Hno. destruct (load_line_cases line kept)
    as [E|(y & m & d & k & c & a & rest & Hp & VD & AP & _)]; [exact E|].
  exfalso. apply Hno. now exists y, m, d, k, c, a, rest.
Qed.

Lemma load_line_room line kept :
  (length kept < MAX_TRANSACTIONS)%nat ->
  load_line line kept = kept ++ load_line line [].
Proof.
  intros Hlen.
  assert (H0 : (length (@nil Transaction) < MAX_TRANSACTIONS)%nat)
    by (cbn; unfold MAX_TRANSACTIONS; lia).
  destruct (load_line_cases line [])
    as [E|(y & m & d & k & c & a & rest & Hp & VD & AP & _ & E)].
  - rewrite E, app_nil_r.
    destruct (load_line_cases line kept)
      as [E'|(y & m & d & k & c & a & rest & Hp & VD & AP & _ & _)];
      [exact E'|].
    rewrite (load_line_accepts _ _ _ _ _ _ _ _ [] Hp VD AP H0) in E.
    discriminate.
  - rewrite E. cbn [app]. now apply load_line_accepts.
Qed.

Lemma load_line_full line kept :
  (MAX_TRANSACTIONS <= length kept)%nat -> load_line line kept = kept.
Proof.
  intros Hlen. destruct (load_line_cases line kept)
    as [E|(y & m & d & k & c & a & rest & _ & _ & _ & Hl & _)]; [exact E | lia].
Qed.

Lemma load_line_length line kept :
  (length kept <= MAX_TRANSACTIONS)%nat ->
  (length (load_line line kept) <= MAX_TRANSACTIONS)%nat.
Proof.
  intros Hlen. destruct (load_line_cases line kept)
    as [E|(y & m & d & k & c & a & rest & _ & _ & _ & Hl & E)];
    rewrite E; [assumption|]. rewrite length_app. cbn [length]. lia.
Qed.

(** The loop keeps, in file order, the records of the accepted lines, as
    many as the array holds. *)
Lemma load_loop_lines rounds : forall f kept,
  (length kept <= MAX_TRANSACTIONS)%nat ->
  load_loop rounds f kept
  = firstn MAX_TRANSACTIONS
      (kept ++ flat_map (fun l => load_line l []) (file_lines rounds f)).
Proof.
  induction rounds as [|k IH]; intros f kept Hlen; cbn [load_loop file_lines].
  - cbn [flat_map]. rewrite app_nil_r. symmetry. now apply firstn_all2.
  - destruct (fgets LINE_LEN f) as [[line rest]|].
    2:{ cbn [flat_map]. rewrite app_nil_r. symmetry. now apply firstn_all2. }
    rewrite IH by now apply load_line_length. cbn [flat_map].
    destruct (Nat.lt_ge_cases (length kept) MAX_TRANSACTIONS) as [Hlt|Hge].
    + rewrite (load_line_room line kept Hlt). now rewrite <- app_assoc.
    + rewrite (load_line_full line kept Hge).
      assert (E : length kept = MAX_TRANSACTIONS) by lia.
      rewrite <- E at 1 2. rewrite !firstn_app, !firstn_all, Nat.sub_diag.
      reflexivity.
Qed.

Lemma fgets_chars_split k : forall f,
  fst (fgets_chars k f) ++ snd (fgets_chars k f) = f.
Proof.
  induction k as [|k IH]; intros [|c f]; cbn [fgets_chars fst snd app];
    try reflexivity.
  destruct (Ascii.eqb c NL); [reflexivity|].
  specialize (IH f). destruct (fgets_chars k f) as [l rest].
  cbn [fst snd app] in *. now rewrite IH.
Qed.

Lemma fgets_chars_some k c f : fst (fgets_chars (S k) (c :: f)) <> [].
Proof.
  cbn [fgets_chars]. destruct (Ascii.eqb c NL); [discriminate|].
  destruct (fgets_chars k f). discriminate.
Qed.

Lemma fgets_progress f line rest :
  fgets LINE_LEN f = Some (line, rest) ->
  line ++ rest = f /\ (length rest < length f)%nat.
Proof.
  unfold fgets. destruct f as [|c f]; [discriminate|].
  change (LINE_LEN - 1)%nat with (S 510).
  pose proof (fgets_chars_split (S 510) (c :: f)) as Hs.
  pose proof (fgets_chars_some 510 c f) as Hne.
  destruct (fgets_chars (S 510) (c :: f)) as [l r].
  intros E. injection E as E1 E2. subst l r. cbn [fst snd] in *.
  split; [exact Hs|].
  rewrite <- Hs, length_app. destruct line; [congruence | cbn [length]; lia].
Qed.

(** The loop ends because the file is used up: the lines it reads are the
    whole file, in order. *)
Lemma file_lines_whole rounds : forall f,
  (length f <= rounds)%nat -> concat (file_lines rounds f) = f.
Proof.
  induction rounds as [|k IH]; intros f Hf; cbn [file_lines].
  - destruct f; [reflexivity | cbn [length] in Hf; lia].
  - destruct (fgets LINE_LEN f) as [[line rest]|] eqn:E.
    + destruct (fgets_progress _ _ _ E) as [Hs Hl].
      cbn [concat]. rewrite IH by lia. exact Hs.
    + destruct f; [reflexivity | discriminate].
Qed.

(** C9: when the file cannot be opened, [load_from_file] returns 0 and the
    store is as before, records and count; with a file it returns 1 and the
    store is what the loop has read, whatever it held before. *)
Theorem load_without_file_keeps_store :
  forall st,
    load_from_file None st = (0, st)
    /\ txCount (snd (load_from_file None st)) = txCount st
    /\ forall file st',
         fst (load_from_file (Some file) st) = 1
         /\ load_from_file (Some file) st = load_from_file (Some file) st'.
Proof.
  intros st. repeat split.
Qed.

(** C10: the loader takes any integer as the kind of a record; 1 is loaded
    as an expense and every other value as an income, 7 and -3 among them. *)
Theorem kind_is_not_validated :
  (forall line y m d k c a rest kept,
     fields_parse line y m d k c a rest ->
     valid_date y m d = true -> (0 <=? a)%float = true ->
     (length kept < MAX_TRANSACTIONS)%nat ->
     exists t,
       load_line line kept = kept ++ [t]
       /\ (k = 1 -> tx_type t = EXPENSE) /\ (k <> 1 -> tx_type t = INCOME))
  /\ (forall k kept,
        - 2 ^ 31 <= k < 2 ^ 31 -> (length kept < MAX_TRANSACTIONS)%nat ->
        load_line (fprintf_record 2025 1 15 k (lit "Food") 50 (lit "lunch")) kept
        = kept ++ [ {| tx_y := 2025; tx_m := 1; tx_d := 15;
                       tx_type := if k =? 1 then EXPENSE else INCOME;
                       tx_category := lit "Food"; tx_amount := 50;
                       tx_note := lit "lunch" |} ])
  /\ map tx_type
       (snd (load_from_file
               (Some (lit "2025|1|15|7|Food|50.00|lunch" ++ NL
                      :: lit "2025|1|16|-3|Food|50.00|lunch" ++ NL
                      :: lit "2025|1|17|1|Food|50.00|lunch" ++ [NL])) []))
     = [INCOME; INCOME; EXPENSE].
Proof.
  split; [|split].
  - intros line y m d k c a rest kept Hp VD AP Hlen.
    exists (parsed_record y m d k c a rest).
    split; [now apply load_line_accepts|]. cbn [parsed_record tx_type].
    split; intros Hk.
    + now rewrite Hk.
    + apply Z.eqb_neq in Hk. now rewrite Hk.
  - intros k kept Hk Hlen.
    apply load_line_fprintf; try assumption; try reflexivity;
      try discriminate; cbn; lia.
  - vm_compute. reflexivity.
Qed.

Lemma kind_is_not_validated_witness :
  load_line (fprintf_record 2025 1 15 7 (lit "Food") 50 (lit "lunch")) three_store
  = three_store
    ++ [ {| tx_y := 2025; tx_m := 1; tx_d := 15; tx_type := INCOME;
            tx_category := lit "Food"; tx_amount := 50;
            tx_note := lit "lunch" |} ].
Proof.
  apply (proj1 (proj2 kind_is_not_validated) 7 three_store).
  - lia.
  - apply Nat.ltb_lt. vm_compute. reflexivity.
Defined.

(** ** What every operation keeps true of the store *)

Lemma bar_then_some {A : Type} (f : cstring -> option (A * cstring)) s x :
  bar_then f s = Some x -> exists r, s = BAR :: r /\ f r = Some x.
Proof.
  unfold bar_then, expect. destruct s as [|c r]; [discriminate|].
  destruct (Ascii.eqb c BAR) eqn:E; [|discriminate].
  apply Ascii.eqb_eq in E. subst c. intros H. now exists r.
Qed.

Lemma load_loop_forall (P : Transaction -> Prop) :
  (forall line y m d k c a rest,
     fields_parse line y m d k c a rest ->
     valid_date y m d = true -> (0 <=? a)%float = true ->
     P (parsed_record y m d k c a rest)) ->
  forall rounds f kept, Forall P kept -> Forall P (load_loop rounds f kept).
Proof.
  intros HP. induction rounds as [|n IH]; intros f kept Hk;
    cbn [load_loop]; [assumption|].
  destruct (fgets LINE_LEN f) as [[line rest]|]; [|assumption].
  apply IH. destruct (load_line_cases line kept)
    as [E|(y & m & d & k & c & a & r & Hp & VD & AP & _ & E)]; rewrite E;
    [assumption|].
  apply Forall_app. split; [assumption|]. constructor; [|constructor].
  now apply (HP line).
Qed.

Lemma parsed_category_bar_free line y m d k c a rest :
  fields_parse line y m d k c a rest ->
  no_char BAR (tx_category (parsed_record y m d k c a rest)) = true.
Proof.
  intros (s1 & s2 & s3 & s4 & s5 & _ & _ & _ & _ & H5 & _).
  apply bar_then_some in H5 as (r & _ & H5).
  apply scan_set_clean in H5 as (Hb & _ & _).
  cbn [parsed_record tx_category].
  now apply (proj1 (proj2 (proj2 (strncpy_clean _ _)))).
Qed.

Lemma Forall_firstn_skipn {A : Type} (P : A -> Prop) (l : list A) n m :
  Forall P l -> Forall P (firstn n l ++ skipn m l).
Proof.
  intros H. apply Forall_app. split.
  - revert n. induction H; intros [|n]; cbn [firstn]; auto.
  - revert m. induction H; intros [|m]; cbn [skipn]; auto.
Qed.

Lemma sort_menu_permutation c st st' : sort_menu c st st' -> Permutation st st'.
Proof.
  unfold sort_menu, qsort. destruct st as [|t st].
  - intros ->. constructor.
  - destruct (c =? 1); intros [H _]; exact H.
Qed.

Lemma add_transaction_bar_free st e :
  Forall bar_free st -> Forall bar_free (snd (add_transaction st e)).
Proof.
  intros Hst.
  destruct (add_outcome_dec (fst (add_transaction st e))) as [Ha|Hn].
  2:{ now rewrite (add_transaction_same _ _ Hn). }
  destruct (add_transaction_added _ _ Ha)
    as (t & E & _ & _ & _ & _ & _ & _ & _ & _ & Hnote & c & _ & _ & Hcat).
  rewrite E. apply Forall_app. split; [assumption|].
  constructor; [|constructor]. unfold bar_free. rewrite Hnote, Hcat.
  split; apply (proj1 (proj2 (proj2 (strncpy_clean _ _))));
    apply bar_to_slash_clean.
Qed.

(** C2, as the program has it: [add_transaction] replaces every [|] of the
    category and of the note, and sorting, deleting and a failed load keep
    the records they find, so a store free of [|] stays so under them;
    [load_from_file] takes the category up to the first [|], so a loaded
    category never holds one, but it takes the note as the rest of the line,
    unchanged. *)
Theorem delimiter_kept_out_of_texts (st : store) :
  Forall bar_free st ->
  (forall e, Forall bar_free (snd (add_transaction st e)))
  /\ (forall idx, Forall bar_free (delete_by_index st idx))
  /\ (forall c st', sort_menu c st st' -> Forall bar_free st')
  /\ Forall bar_free (snd (load_from_file None st))
  /\ (forall file,
        Forall (fun t => no_char BAR (tx_category t) = true)
          (snd (load_from_file (Some file) st))).
Proof.
  intros Hst. split; [|split; [|split; [|split]]].
  - intros e. now apply add_transaction_bar_free.
  - intros idx. unfold delete_by_index. destruct st; [constructor|].
    now apply Forall_firstn_skipn.
  - intros c st' Hs. apply sort_menu_permutation in Hs.
    now apply (Permutation_Forall Hs).
  - exact Hst.
  - intros file. cbn [load_from_file snd].
    apply load_loop_forall; [|constructor].
    intros line y m d k c a rest Hp _ _.
    now apply (parsed_category_bar_free line).
Qed.

Lemma delimiter_kept_out_of_texts_witness :
  Forall bar_free
    (snd (add_transaction three_store
            (mk_entry 2025 3 1 EXPENSE "Food|Drink" "12.50" "a|b"))).
Proof.
  refine (proj1 (delimiter_kept_out_of_texts three_store _) _).
  let v := eval vm_compute in three_store in
  assert (E : three_store = v) by (vm_compute; reflexivity).
  rewrite E. repeat constructor.
Defined.

(** C2 as stated fails: the loader does not touch a [|] in the note. *)
Lemma loaded_note_keeps_delimiter :
  Forall bar_free []
  /\ ~ Forall bar_free (snd (load_from_file (Some piped_note) [])).
Proof.
  split; [constructor|]. intros H.
  assert (E : snd (load_from_file (Some piped_note) [])
              = [ {| tx_y := 2025; tx_m := 1; tx_d := 15; tx_type := EXPENSE;
                     tx_category := lit "Food"; tx_amount := 50;
                     tx_note := lit "a|b" |} ])
    by (vm_compute; reflexivity).
  rewrite E in H. inversion H as [|? ? [_ Hn] _]. discriminate Hn.
Qed.

(** ** The order of the sort keys *)

Lemma lex3_refl a : lex3 a a = Eq.
Proof. destruct a as [[a1 a2] a3]. cbn. now rewrite !Z.compare_refl. Qed.

Lemma lex3_eq a b : lex3 a b = Eq -> a = b.
Proof.
  destruct a as [[a1 a2] a3], b as [[b1 b2] b3]. cbn.
  destruct (Z.compare_spec a1 b1); try discriminate.
  destruct (Z.compare_spec a2 b2); try discriminate.
  destruct (Z.compare_spec a3 b3); try discriminate. intros _. congruence.
Qed.

Lemma lex3_antisym a b : lex3 b a = CompOpp (lex3 a b).
Proof.
  destruct a as [[a1 a2] a3], b as [[b1 b2] b3]. cbn.
  rewrite (Z.compare_antisym a1 b1), (Z.compare_antisym a2 b2),
    (Z.compare_antisym a3 b3).
  destruct (a1 ?= b1), (a2 ?= b2), (a3 ?= b3); reflexivity.
Qed.

Lemma lex3_opp a b : lex3 (opp3 a) (opp3 b) = lex3 b a.
Proof.
  destruct a as [[a1 a2] a3], b as [[b1 b2] b3]. cbn.
  now rewrite !Z.compare_opp.
Qed.

Lemma lex_le_refl a : lex_le a a.
Proof. unfold lex_le. now rewrite lex3_refl. Qed.

Lemma lex_le_total a b : lex_le a b \/ lex_le b a.
Proof.
  unfold lex_le. rewrite (lex3_antisym a b).
  destruct (lex3 a b); cbn; auto; left + right; discriminate.
Qed.

Lemma lex_le_antisym a b : lex_le a b -> lex_le b a -> a = b.
Proof.
  unfold lex_le. rewrite (lex3_antisym a b). intros H1 H2.
  apply lex3_eq. destruct (lex3 a b); cbn in *; congruence.
Qed.

Lemma lex_le_trans a b c : lex_le a b -> lex_le b c -> lex_le a c.
Proof.
  unfold lex_le.
  destruct a as [[a1 a2] a3], b as [[b1 b2] b3], c as [[c1 c2] c3]. cbn.
  destruct (Z.compare_spec a1 b1), (Z.compare_spec b1 c1),
    (Z.compare_spec a1 c1); try congruence; try lia;
  destruct (Z.compare_spec a2 b2), (Z.compare_spec b2 c2),
    (Z.compare_spec a2 c2); try congruence; try lia;
  destruct (Z.compare_spec a3 b3), (Z.compare_spec b3 c3),
    (Z.compare_spec a3 c3); try congruence; lia.
Qed.

(** ** Comparison of binary64 values *)

Lemma SFcompare_rank x y :
  SFcompare x y
  = match sf_rank x, sf_rank y with
    | Some a, Some b => Some (lex3 a b)
    | _, _ => None
    end.
Proof.
  destruct x as [[|]|[|]| |[|] mx ex], y as [[|]|[|]| |[|] my ey];
    try reflexivity; cbn [SFcompare sf_rank lex3].
  rewrite Z.compare_opp, (Z.compare_antisym ex ey).
  change (-1 ?= -1) with Eq. cbv iota.
  destruct (ex ?= ey); reflexivity.
Qed.

Lemma leb_rank a b :
  (a <=? b)%float = true ->
  sf_rank (Prim2SF a) = Some (rank a) /\ sf_rank (Prim2SF b) = Some (rank b)
  /\ lex_le (rank a) (rank b).
Proof.
  rewrite leb_spec. unfold SFleb, rank, lex_le. rewrite SFcompare_rank.
  destruct (sf_rank (Prim2SF a)), (sf_rank (Prim2SF b)); try discriminate.
  destruct (lex3 p p0); try discriminate; repeat split; discriminate.
Qed.

Lemma amount_ok_rank t :
  amount_ok t -> sf_rank (Prim2SF (tx_amount t)) = Some (rank (tx_amount t)).
Proof. intros H. now destruct (leb_rank _ _ H) as (_ & H' & _). Qed.

Lemma ltb_rank a b :
  sf_rank (Prim2SF a) = Some (rank a) -> sf_rank (Prim2SF b) = Some (rank b) ->
  (a <? b)%float = match lex3 (rank a) (rank b) with Lt => true | _ => false end.
Proof.
  intros Ha Hb. rewrite ltb_spec. unfold SFltb.
  now rewrite SFcompare_rank, Ha, Hb.
Qed.

Lemma leb_rank_iff a b :
  sf_rank (Prim2SF a) = Some (rank a) -> sf_rank (Prim2SF b) = Some (rank b) ->
  ((a <=? b)%float = true <-> lex_le (rank a) (rank b)).
Proof.
  intros Ha Hb. rewrite leb_spec. unfold SFleb, lex_le.
  rewrite SFcompare_rank, Ha, Hb.
  destruct (lex3 (rank a) (rank b)); split; congruence.
Qed.

Lemma eqb_rank_iff a b :
  sf_rank (Prim2SF a) = Some (rank a) -> sf_rank (Prim2SF b) = Some (rank b) ->
  ((a =? b)%float = true <-> rank a = rank b).
Proof.
  intros Ha Hb. rewrite eqb_spec. unfold SFeqb.
  rewrite SFcompare_rank, Ha, Hb. split.
  - destruct (lex3 (rank a) (rank b)) eqn:E; try discriminate.
    intros _. now apply lex3_eq.
  - intros ->. now rewrite lex3_refl.
Qed.

(** ** Sorting by a key *)

Lemma StronglySorted_map_impl {A B : Type} (R : A -> A -> Prop)
    (Q : B -> B -> Prop) (f : A -> B) (D : A -> Prop) (l : list A) :
  (forall a b, D a -> D b -> R a b -> Q (f a) (f b)) ->
  Forall D l -> StronglySorted R l -> StronglySorted Q (map f l).
Proof.
  intros HRQ HD HS. induction HS as [|a l HS IH Ha]; cbn [map]; constructor.
  - apply IH. now inversion HD.
  - inversion HD as [|? ? Da Dl]; subst. rewrite Forall_forall in *.
    intros y Hy. apply in_map_iff in Hy as (b & <- & Hb). auto.
Qed.

Lemma sorted_keys_unique (k1 : list (Z * Z * Z)) : forall k2,
  Permutation k1 k2 ->
  StronglySorted lex_le k1 -> StronglySorted lex_le k2 -> k1 = k2.
Proof.
  induction k1 as [|a k1 IH]; intros k2 Hp H1 H2.
  - now apply Permutation_nil in Hp.
  - destruct k2 as [|b k2];
      [apply Permutation_sym, Permutation_nil in Hp; discriminate|].
    inversion H1 as [|? ? S1 F1]; inversion H2 as [|? ? S2 F2]; subst.
    rewrite Forall_forall in F1, F2.
    assert (Hab : lex_le a b).
    { assert (Hin : In b (a :: k1))
        by (apply (Permutation_in _ (Permutation_sym Hp)); now left).
      destruct Hin as [->|Hin]; [apply lex_le_refl | now apply F1]. }
    assert (Hba : lex_le b a).
    { assert (Hin : In a (b :: k2)) by (apply (Permutation_in _ Hp); now left).
      destruct Hin as [->|Hin]; [apply lex_le_refl | now apply F2]. }
    pose proof (lex_le_antisym _ _ Hab Hba) as ->.
    f_equal. apply IH; auto. now apply Permutation_cons_inv in Hp.
Qed.

Section SortByKey.

Variables (A : Type) (key : A -> Z * Z * Z) (cmp : A -> A -> Z).
Variable D : A -> Prop.
Hypothesis cmp_key :
  forall a b, D a -> D b -> (cmp a b <= 0 <-> lex_le (key a) (key b)).

Lemma qsort_keys l l' :
  Forall D l -> qsort cmp l l' ->
  Permutation l l' /\ Forall D l' /\ StronglySorted lex_le (map key l').
Proof.
  intros HD [Hp Hs].
  assert (HD' : Forall D l') by now apply (Permutation_Forall Hp).
  repeat split; try assumption.
  apply (StronglySorted_map_impl (fun a b => cmp a b <= 0) lex_le key D);
    auto.
  intros a b Da Db. now apply cmp_key.
Qed.

Lemma qsort_again l s1 s2 :
  Forall D l -> qsort cmp l s1 -> qsort cmp s1 s2 ->
  map key s2 = map key s1.
Proof.
  intros HD H1 H2.
  destruct (qsort_keys _ _ HD H1) as (P1 & D1 & S1).
  destruct (qsort_keys _ _ D1 H2) as (P2 & D2 & S2).
  symmetry. apply sorted_keys_unique; auto. now apply Permutation_map.
Qed.

Lemma insert_by_perm a l : Permutation (a :: l) (insert_by cmp a l).
Proof.
  induction l as [|b l IH]; cbn [insert_by]; [reflexivity|].
  destruct (cmp a b <=? 0); [reflexivity|].
  rewrite perm_swap. now constructor.
Qed.

Lemma insert_by_sorted a l :
  D a -> Forall D l ->
  StronglySorted (fun x y => cmp x y <= 0) l ->
  StronglySorted (fun x y => cmp x y <= 0) (insert_by cmp a l).
Proof.
  intros Da Dl Hs. induction Hs as [|b l Hs IH Hb]; cbn [insert_by].
  - repeat constructor.
  - inversion Dl as [|? ? Db Dl']; subst.
    rewrite Forall_forall in Hb, Dl'.
    destruct (cmp a b <=? 0) eqn:E.
    + apply Z.leb_le in E. constructor; [now constructor; [|apply Forall_forall]|].
      constructor; [assumption|]. apply Forall_forall. intros x Hx.
      apply cmp_key; auto. apply cmp_key in E; auto.
      apply (lex_le_trans _ (key b)); [assumption|].
      apply cmp_key; auto.
    + apply Z.leb_gt in E. constructor; [apply IH; now apply Forall_forall|].
      apply Forall_forall. intros x Hx.
      apply (Permutation_in _ (Permutation_sym (insert_by_perm a l))) in Hx.
      destruct Hx as [<-|Hx]; [|now apply Hb].
      apply cmp_key; auto.
      destruct (lex_le_total (key a) (key b)) as [H|H]; [|exact H].
      apply cmp_key in H; auto. lia.
Qed.

Lemma isort_qsort l : Forall D l -> qsort cmp l (isort cmp l).
Proof.
  intros HD. induction HD as [|a l Da Dl [IHp IHs]]; cbn [isort].
  - split; constructor.
  - split.
    + rewrite <- insert_by_perm. now constructor.
    + apply insert_by_sorted; auto. now apply (Permutation_Forall IHp).
Qed.

End SortByKey.

(** ** The two comparison functions *)

Lemma cmp_date_key a b :
  cmp_date a b <= 0 <-> lex_le (date_key a) (date_key b).
Proof.
  unfold cmp_date, lex_le, date_key, lex3.
  destruct (Z.eqb_spec (tx_y a) (tx_y b)), (Z.ltb_spec (tx_y a) (tx_y b)),
    (Z.compare_spec (tx_y a) (tx_y b)); cbn [negb]; try lia;
    try (split; [discriminate | lia]); try (split; [lia | congruence]);
  destruct (Z.eqb_spec (tx_m a) (tx_m b)), (Z.ltb_spec (tx_m a) (tx_m b)),
    (Z.compare_spec (tx_m a) (tx_m b)); cbn [negb]; try lia;
    try (split; [discriminate | lia]); try (split; [lia | congruence]);
  destruct (Z.eqb_spec (tx_d a) (tx_d b)), (Z.ltb_spec (tx_d a) (tx_d b)),
    (Z.compare_spec (tx_d a) (tx_d b)); cbn [negb]; try lia;
    try (split; [discriminate | lia]); try (split; [lia | congruence]).
Qed.

Lemma date_key_le a b : lex_le (date_key a) (date_key b) <-> date_le a b.
Proof.
  unfold lex_le, date_key, lex3, date_le.
  destruct (Z.compare_spec (tx_y a) (tx_y b)),
    (Z.compare_spec (tx_m a) (tx_m b)),
    (Z.compare_spec (tx_d a) (tx_d b));
    split; intros HH; try discriminate; try congruence; try lia.
Qed.

Lemma cmp_amount_key a b :
  amount_ok a -> amount_ok b ->
  (cmp_amount_desc a b <= 0 <-> lex_le (amount_key a) (amount_key b)).
Proof.
  intros Ha Hb. apply amount_ok_rank in Ha, Hb.
  unfold cmp_amount_desc, amount_key, lex_le.
  rewrite lex3_opp, (ltb_rank _ _ Ha Hb), (ltb_rank _ _ Hb Ha).
  rewrite (lex3_antisym (rank (tx_amount a)) (rank (tx_amount b))).
  destruct (lex3 (rank (tx_amount a)) (rank (tx_amount b))); cbn [CompOpp];
    split; intros H; try discriminate; try congruence; lia.
Qed.

Lemma amount_key_ge a b :
  amount_ok a -> amount_ok b ->
  (lex_le (amount_key a) (amount_key b) <-> amount_ge a b).
Proof.
  intros Ha Hb. apply amount_ok_rank in Ha, Hb.
  unfold amount_key, amount_ge, lex_le. rewrite lex3_opp.
  now rewrite (leb_rank_iff _ _ Hb Ha).
Qed.

Lemma amount_key_eq a b :
  amount_ok a -> amount_ok b ->
  (amount_key a = amount_key b
   <-> (tx_amount a =? tx_amount b)%float = true).
Proof.
  intros Ha Hb. apply amount_ok_rank in Ha, Hb.
  rewrite (eqb_rank_iff _ _ Ha Hb). unfold amount_key, opp3.
  destruct (rank (tx_amount a)) as [[a1 a2] a3],
    (rank (tx_amount b)) as [[b1 b2] b3].
  split; intros H; inversion H; f_equal; try f_equal; lia.
Qed.

(** ** Amounts in the stores the program can hold *)

Lemma reachable_amount_ok st : reachable st -> Forall amount_ok st.
Proof.
  induction 1 as [|st e Hr IH He|st idx Hr IH Hi|c st st' Hr IH Hs
                  |file st Hr IH].
  - constructor.
  - destruct (add_outcome_dec (fst (add_transaction st e))) as [Ha|Hn].
    2:{ now rewrite (add_transaction_same _ _ Hn). }
    destruct (add_transaction_added _ _ Ha)
      as (t & E & _ & _ & _ & Hamt & _).
    rewrite E. apply Forall_app. split; [assumption|].
    constructor; [|constructor]. unfold amount_ok. rewrite Hamt.
    now destruct (entry_read_facts e He) as (_ & _ & RA).
  - unfold delete_by_index. destruct st; [constructor|].
    now apply Forall_firstn_skipn.
  - apply sort_menu_permutation in Hs. now apply (Permutation_Forall Hs).
  - destruct file as [f|]; [|exact IH]. cbn [load_from_file snd].
    apply load_loop_forall; [|constructor].
    intros line y m d k c a rest _ _ AP. exact AP.
Qed.

Lemma sort_menu_by_date st st' :
  sort_menu 1 st st' -> qsort cmp_date st st'.
Proof.
  unfold sort_menu. destruct st; [|now cbn].
  intros ->. split; constructor.
Qed.

Lemma sort_menu_by_amount st st' :
  sort_menu 2 st st' -> qsort cmp_amount_desc st st'.
Proof.
  unfold sort_menu. destruct st; [|now cbn].
  intros ->. split; constructor.
Qed.

Lemma qsort_sort_menu c st st' :
  qsort (if c =? 1 then cmp_date else cmp_amount_desc) st st' ->
  sort_menu c st st'.
Proof.
  unfold sort_menu. destruct st as [|t st].
  - intros [Hp _]. now apply Permutation_nil in Hp.
  - now destruct (c =? 1).
Qed.

Lemma Forall_True {A : Type} (l : list A) : Forall (fun _ => True) l.
Proof. induction l; constructor; auto. Qed.

Lemma StronglySorted_impl {A : Type} (R Q : A -> A -> Prop) (D : A -> Prop)
    (l : list A) :
  (forall a b, D a -> D b -> R a b -> Q a b) ->
  Forall D l -> StronglySorted R l -> StronglySorted Q l.
Proof.
  intros HRQ HD HS.
  pose proof (StronglySorted_map_impl R Q (fun a => a) D l HRQ HD HS) as H.
  now rewrite map_id in H.
Qed.

Lemma sorted_by_date st st' :
  qsort cmp_date st st' -> Permutation st st' /\ StronglySorted date_le st'.
Proof.
  intros [Hp Hs]. split; [assumption|].
  apply (StronglySorted_impl (fun a b => cmp_date a b <= 0) date_le
           (fun _ => True)); auto using Forall_True.
  intros a b _ _ H. now apply date_key_le, cmp_date_key.
Qed.

Lemma sorted_by_amount st st' :
  Forall amount_ok st -> qsort cmp_amount_desc st st' ->
  Permutation st st' /\ Forall amount_ok st' /\ StronglySorted amount_ge st'.
Proof.
  intros Hok [Hp Hs].
  assert (Hok' : Forall amount_ok st') by now apply (Permutation_Forall Hp).
  repeat split; try assumption.
  apply (StronglySorted_impl (fun a b => cmp_amount_desc a b <= 0) amount_ge
           amount_ok); auto.
  intros a b Ha Hb H. now apply amount_key_ge, cmp_amount_key.
Qed.

(** C5, as the program has it: either sort leaves the same records, those
    with the smaller date, respectively the larger amount, first; the C
    library's [qsort] does the sorting, and it leaves the order of records
    with equal dates, or equal amounts, unspecified.  Both sorts have a
    result on every store the program can hold. *)
Theorem sorts_order_the_store :
  (forall st st',
     sort_menu 1 st st' -> Permutation st st' /\ StronglySorted date_le st')
  /\ (forall st st',
        reachable st -> sort_menu 2 st st' ->
        Permutation st st' /\ StronglySorted amount_ge st')
  /\ (forall st, exists st', sort_menu 1 st st')
  /\ (forall st, reachable st -> exists st', sort_menu 2 st st').
Proof.
  split; [|split; [|split]].
  - intros st st' Hs. now apply sorted_by_date, sort_menu_by_date.
  - intros st st' Hr Hs. apply reachable_amount_ok in Hr.
    destruct (sorted_by_amount st st' Hr (sort_menu_by_amount _ _ Hs))
      as (Hp & _ & Hsorted). now split.
  - intros st. exists (isort cmp_date st).
    apply (qsort_sort_menu 1).
    apply (isort_qsort _ date_key cmp_date (fun _ => True));
      auto using Forall_True.
    intros a b _ _. apply cmp_date_key.
  - intros st Hr. exists (isort cmp_amount_desc st).
    apply (qsort_sort_menu 2).
    apply (isort_qsort _ amount_key cmp_amount_desc amount_ok).
    + exact cmp_amount_key.
    + now apply reachable_amount_ok.
Qed.

Lemma tie_store_swapped c : sort_menu c tie_store [tie_b; tie_a].
Proof.
  apply qsort_sort_menu. split; [apply perm_swap|].
  destruct (c =? 1); repeat constructor; vm_compute; discriminate.
Qed.

Lemma tie_store_kept c : sort_menu c tie_store tie_store.
Proof.
  apply qsort_sort_menu. split; [reflexivity|].
  destruct (c =? 1); repeat constructor; vm_compute; discriminate.
Qed.

Lemma sorts_order_the_store_witness :
  Permutation tie_store [tie_b; tie_a]
  /\ StronglySorted date_le [tie_b; tie_a].
Proof.
  exact (proj1 sorts_order_the_store tie_store [tie_b; tie_a]
           (tie_store_swapped 1)).
Defined.

(** C5 as stated fails: two records of the same day and the same amount may
    come out of either sort in the other order. *)
Lemma sort_may_swap_equal_records :
  sort_menu 1 tie_store [tie_b; tie_a]
  /\ ~ stable cmp_date tie_store [tie_b; tie_a]
  /\ sort_menu 2 tie_store [tie_b; tie_a]
  /\ ~ stable cmp_amount_desc tie_store [tie_b; tie_a].
Proof.
  split; [apply tie_store_swapped|]. split.
  { intros H. specialize (H tie_a). vm_compute in H. discriminate H. }
  split; [apply tie_store_swapped|].
  intros H. specialize (H tie_a). vm_compute in H. discriminate H.
Qed.

Lemma same_keys_same_amounts s2 : forall s1,
  Forall amount_ok s1 -> Forall amount_ok s2 ->
  map amount_key s2 = map amount_key s1 ->
  Forall2 (fun a b => (tx_amount a =? tx_amount b)%float = true) s2 s1.
Proof.
  induction s2 as [|a s2 IH]; intros [|b s1] H1 H2 E; cbn [map] in E;
    try discriminate; constructor.
  - inversion H1; inversion H2; subst. inversion E.
    now apply amount_key_eq.
  - inversion H1; inversion H2; subst. inversion E. now apply IH.
Qed.

(** C6, as the program has it: a sort, run once or twice, leaves the same
    records, none gained, lost or doubled; the second run leaves the store
    in the order of the key and does not change the sequence of the dates,
    respectively of the amounts; records with equal keys may change places. *)
Theorem sort_twice_keeps_records_and_keys :
  (forall c st s1 s2,
     sort_menu c st s1 -> sort_menu c s1 s2 ->
     Permutation st s1 /\ Permutation st s2)
  /\ (forall st s1 s2,
        sort_menu 1 st s1 -> sort_menu 1 s1 s2 ->
        StronglySorted date_le s2 /\ map date_key s2 = map date_key s1)
  /\ (forall st s1 s2,
        reachable st -> sort_menu 2 st s1 -> sort_menu 2 s1 s2 ->
        StronglySorted amount_ge s2
        /\ Forall2 (fun a b => (tx_amount a =? tx_amount b)%float = true)
             s2 s1).
Proof.
  split; [|split].
  - intros c st s1 s2 H1 H2. apply sort_menu_permutation in H1, H2.
    split; [assumption | now transitivity s1].
  - intros st s1 s2 H1 H2. apply sort_menu_by_date in H1, H2. split.
    + now apply (sorted_by_date s1).
    + apply (qsort_again _ date_key cmp_date (fun _ => True) ) with (l := st);
        auto using Forall_True.
      intros a b _ _. apply cmp_date_key.
  - intros st s1 s2 Hr H1 H2. apply reachable_amount_ok in Hr.
    apply sort_menu_by_amount in H1, H2.
    destruct (sorted_by_amount _ _ Hr H1) as (_ & Hok1 & _).
    destruct (sorted_by_amount _ _ Hok1 H2) as (_ & Hok2 & Hs2).
    split; [assumption|].
    apply same_keys_same_amounts; auto.
    now apply (qsort_again _ amount_key cmp_amount_desc amount_ok
                 cmp_amount_key st).
Qed.

Lemma sort_twice_keeps_records_and_keys_witness :
  Permutation tie_store tie_store /\ Permutation tie_store [tie_b; tie_a].
Proof.
  exact (proj1 sort_twice_keeps_records_and_keys 1 tie_store tie_store
           [tie_b; tie_a] (tie_store_kept 1) (tie_store_swapped 1)).
Defined.

(** C6 as stated fails: a first sort may leave two equal records as they
    are, and a second one swap them. *)
Lemma second_sort_may_reorder :
  sort_menu 1 tie_store tie_store
  /\ sort_menu 1 tie_store [tie_b; tie_a]
  /\ sort_menu 2 tie_store tie_store
  /\ sort_menu 2 tie_store [tie_b; tie_a]
  /\ [tie_b; tie_a] <> tie_store.
Proof.
  split; [apply tie_store_kept|]. split; [apply tie_store_swapped|].
  split; [apply tie_store_kept|]. split; [apply tie_store_swapped|].
  discriminate.
Qed.

(** ** Summary totals *)

Lemma summary_fold st : forall acc,
  fold_left summary_step st acc
  = (fold_left PrimFloat.add (map tx_amount (of_type INCOME st)) (fst acc),
     fold_left PrimFloat.add (map tx_amount (of_type EXPENSE st)) (snd acc)).
Proof.
  induction st as [|t st IH]; intros [i x]; cbn [fold_left]; [reflexivity|].
  rewrite IH. unfold summary_step, of_type. cbn [filter].
  destruct (tx_type t); reflexivity.
Qed.

Lemma show_summary_sums st :
  show_summary st
  = (sum_amounts (of_type INCOME st), sum_amounts (of_type EXPENSE st),
     (sum_amounts (of_type INCOME st) - sum_amounts (of_type EXPENSE st))%float).
Proof. unfold show_summary. now rewrite summary_fold. Qed.

Lemma show_summary_app st t :
  show_summary (st ++ [t])
  = let '(income, expense, _) := show_summary st in
    match tx_type t with
    | INCOME =>
        ((income + tx_amount t)%float, expense,
         (income + tx_amount t - expense)%float)
    | EXPENSE =>
        (income, (expense + tx_amount t)%float,
         (income - (expense + tx_amount t))%float)
    end.
Proof.
  unfold show_summary. rewrite fold_left_app. cbn [fold_left].
  destruct (fold_left summary_step st (zero, zero)) as [i x].
  unfold summary_step. destruct (tx_type t); reflexivity.
Qed.

(** C8, as the program has it: the income and the expense shown are the
    amounts of the records of that type, added up in the order of the store,
    and the savings are their difference, all in double arithmetic; all
    three are zero on the empty store; adding an income [A] turns the income
    into [income + A], leaves the expense alone and turns the savings into
    [(income + A) - expense]. *)
Theorem summary_totals :
  (forall st,
     show_summary st
     = (sum_amounts (of_type INCOME st), sum_amounts (of_type EXPENSE st),
        (sum_amounts (of_type INCOME st)
         - sum_amounts (of_type EXPENSE st))%float))
  /\ show_summary [] = (zero, zero, zero)
  /\ (forall st e income expense savings,
        in_t e = INCOME ->
        fst (add_transaction st e) = Added ->
        show_summary st = (income, expense, savings) ->
        show_summary (snd (add_transaction st e))
        = ((income + in_amount e)%float, expense,
           (income + in_amount e - expense)%float)).
Proof.
  split; [exact show_summary_sums | split; [reflexivity|]].
  intros st e income expense savings Ht Ha Hs.
  destruct (add_transaction_added _ _ Ha)
    as (t & E & _ & _ & _ & Hamt & Hty & _).
  rewrite E, show_summary_app, Hs, Hty, Ht, Hamt. reflexivity.
Qed.

Lemma summary_totals_witness :
  show_summary (snd (add_transaction tenths_store two_tenths))
  = ((dbl "0.1" + dbl "0.2")%float, dbl "0.3",
     (dbl "0.1" + dbl "0.2" - dbl "0.3")%float).
Proof.
  apply (proj2 (proj2 summary_totals) tenths_store two_tenths
           (dbl "0.1") (dbl "0.3") (dbl "0.1" - dbl "0.3")%float);
    vm_compute; reflexivity.
Defined.

(** C8 as stated fails: after 0.1 earned and 0.3 spent, an income of 0.2
    does not raise the savings by 0.2. *)
Lemma savings_do_not_rise_by_the_income :
  built_by_add tenths_store
  /\ entry_read two_tenths = true
  /\ in_t two_tenths = INCOME
  /\ fst (add_transaction tenths_store two_tenths) = Added
  /\ (snd (show_summary (snd (add_transaction tenths_store two_tenths)))
       =? snd (show_summary tenths_store) + in_amount two_tenths)%float
      = false
  /\ snd (show_summary (snd (add_transaction tenths_store two_tenths)))
     <> (snd (show_summary tenths_store) + in_amount two_tenths)%float.
Proof.
  split; [apply built_add_all; vm_compute; reflexivity|].
  repeat (split; [vm_compute; reflexivity|]).
  intros E.
  assert (H : (snd (show_summary
                      (snd (add_transaction tenths_store two_tenths)))
               =? snd (show_summary tenths_store) + in_amount two_tenths)%float
              = false) by (vm_compute; reflexivity).
  rewrite <- E in H. vm_compute in H. discriminate.
Qed.

(** ** Sums of amounts not below zero *)

Lemma shr_1_nonneg mrs : 0 <= shr_m mrs -> 0 <= shr_m (shr_1 mrs).
Proof.
  destruct mrs as [m r s]. cbn [shr_m shr_1].
  destruct m as [|[p|p|]|[p|p|]]; cbn [shr_m]; lia.
Qed.

Lemma iter_shr_1_nonneg p : forall mrs,
  0 <= shr_m mrs -> 0 <= shr_m (iter_pos shr_1 p mrs).
Proof.
  induction p as [p IH|p IH|]; intros mrs H; cbn [iter_pos].
  - apply IH, IH. now apply shr_1_nonneg.
  - now apply IH, IH.
  - now apply shr_1_nonneg.
Qed.

Lemma shr_fexp_nonneg m e l :
  0 <= m -> 0 <= shr_m (fst (shr_fexp prec emax m e l)).
Proof.
  intros H. unfold shr_fexp, shr.
  assert (H0 : 0 <= shr_m (shr_record_of_loc m l))
    by (destruct l as [|[| |]]; exact H).
  destruct (fexp prec emax (Zdigits2 m + e) - e); cbn [fst]; auto.
  now apply iter_shr_1_nonneg.
Qed.

Lemma round_nearest_even_nonneg m l : 0 <= m -> 0 <= round_nearest_even m l.
Proof.
  intros H. unfold round_nearest_even.
  destruct l as [|[| |]]; try lia. destruct (Z.even m); lia.
Qed.

Lemma binary_round_aux_nonneg m e l :
  0 <= m -> sf_nonneg (binary_round_aux prec emax false m e l).
Proof.
  intros H. unfold binary_round_aux.
  pose proof (shr_fexp_nonneg m e l H) as H1.
  destruct (shr_fexp prec emax m e l) as [mrs' e']. cbn [fst] in H1.
  pose proof (shr_fexp_nonneg _ e' loc_Exact
                (round_nearest_even_nonneg _ (loc_of_shr_record mrs') H1))
    as H2.
  destruct (shr_fexp prec emax
              (round_nearest_even (shr_m mrs') (loc_of_shr_record mrs')) e'
              loc_Exact) as [mrs'' e''].
  cbn [fst] in H2. destruct (shr_m mrs''); [exact I | | lia].
  destruct (_ <=? _); exact I.
Qed.

Lemma SFadd_nonneg x y :
  sf_nonneg x -> sf_nonneg y -> sf_nonneg (SFadd prec emax x y).
Proof.
  destruct x as [[|]|[|]| |[|] mx ex], y as [[|]|[|]| |[|] my ey];
    cbn [sf_nonneg]; try contradiction; intros _ _; try exact I.
  unfold SFadd, cond_Zopp, binary_normalize, binary_round.
  cbn [Z.add].
  destruct (shl_align _ _ _) as [mz ez].
  now apply binary_round_aux_nonneg.
Qed.

Lemma leb_zero_nonneg a :
  (0 <=? a)%float = true <-> sf_nonneg (Prim2SF a).
Proof.
  rewrite leb_spec. change (Prim2SF 0) with (S754_zero false).
  unfold SFleb. destruct (Prim2SF a) as [[|]|[|]| |[|] m e]; cbn;
    split; intros H; try discriminate; try contradiction; auto.
Qed.

Lemma add_nonneg a b :
  (0 <=? a)%float = true -> (0 <=? b)%float = true ->
  (0 <=? a + b)%float = true.
Proof.
  rewrite !leb_zero_nonneg, add_spec. apply SFadd_nonneg.
Qed.

Lemma nonneg_rank a :
  (0 <=? a)%float = true -> sf_rank (Prim2SF a) = Some (rank a).
Proof. intros H. now destruct (leb_rank _ _ H) as (_ & H' & _). Qed.

Lemma fold_add_nonneg l : forall acc,
  (0 <=? acc)%float = true ->
  Forall (fun a => (0 <=? a)%float = true) l ->
  (0 <=? fold_left PrimFloat.add l acc)%float = true.
Proof.
  induction l as [|a l IH]; intros acc Hacc Hl; cbn [fold_left];
    [assumption|].
  inversion Hl; subst. apply IH; [now apply add_nonneg | assumption].
Qed.

Lemma sum_amounts_nonneg l :
  Forall amount_ok l -> (0 <=? sum_amounts l)%float = true.
Proof.
  intros H. unfold sum_amounts. apply fold_add_nonneg; [reflexivity|].
  induction H; cbn [map]; constructor; auto.
Qed.

(** ** The monthly sums *)

Lemma length_add_at l : forall j a, length (add_at j a l) = length l.
Proof.
  induction l as [|s l IH]; intros [|j] a; cbn [add_at length]; auto.
Qed.

Lemma nth_add_at l : forall i j a,
  (j < length l)%nat ->
  nth i (add_at j a l) zero
  = if (i =? j)%nat then (nth i l zero + a)%float else nth i l zero.
Proof.
  induction l as [|s l IH]; intros i j a Hj; cbn [length] in Hj; [lia|].
  destruct j as [|j], i as [|i]; cbn [add_at nth Nat.eqb]; try reflexivity.
  apply IH. lia.
Qed.

Lemma length_chart_step year sums t :
  length (chart_step year sums t) = length sums.
Proof.
  unfold chart_step.
  destruct (_ && _); [|reflexivity].
  destruct (_ && _); [apply length_add_at | reflexivity].
Qed.

Lemma chart_fold_nth year m st : forall sums,
  1 <= m <= 12 -> length sums = 13%nat ->
  nth (Z.to_nat m) (fold_left (chart_step year) st sums) zero
  = fold_left PrimFloat.add (map tx_amount (expenses_of year m st))
      (nth (Z.to_nat m) sums zero).
Proof.
  intros sums Hm. revert sums.
  induction st as [|t st IH]; intros sums Hlen; cbn [fold_left];
    [reflexivity|].
  rewrite IH by now rewrite length_chart_step.
  unfold expenses_of, chart_step. cbn [filter].
  destruct (TxType_eqb (tx_type t) EXPENSE && (tx_y t =? year)) eqn:Ht;
    cbn [andb]; [|reflexivity].
  destruct (Z.eqb_spec (tx_m t) m) as [->|Hne].
  - assert (Hin : (1 <=? m) && (m <=? 12) = true)
      by (apply andb_true_intro; split; apply Z.leb_le; lia).
    rewrite Hin, nth_add_at by lia. now rewrite Nat.eqb_refl.
  - destruct ((1 <=? tx_m t) && (tx_m t <=? 12)) eqn:Hin; [|reflexivity].
    apply andb_prop in Hin as [H1 H2]. apply Z.leb_le in H1, H2.
    rewrite nth_add_at by lia.
    destruct (Nat.eqb_spec (Z.to_nat m) (Z.to_nat (tx_m t))); [lia|].
    reflexivity.
Qed.

Lemma length_chart_fold year st : forall sums,
  length (fold_left (chart_step year) st sums) = length sums.
Proof.
  induction st as [|t st IH]; intros sums; cbn [fold_left]; [reflexivity|].
  now rewrite IH, length_chart_step.
Qed.

Lemma length_chart_sums st year : length (chart_sums st year) = 13%nat.
Proof. unfold chart_sums. now rewrite length_chart_fold. Qed.

Lemma chart_sums_nth st year m :
  1 <= m <= 12 ->
  nth (Z.to_nat m) (chart_sums st year) zero
  = sum_amounts (expenses_of year m st).
Proof.
  intros Hm. unfold chart_sums. rewrite chart_fold_nth by auto.
  unfold sum_amounts. f_equal.
  assert (Hn : (Z.to_nat m < 13)%nat) by lia.
  revert Hn. generalize (Z.to_nat m). intros n Hn.
  do 13 (destruct n as [|n]; [reflexivity|]). lia.
Qed.

Lemma months_of_sums (sums : list float) :
  length sums = 13%nat ->
  skipn 1 sums = map (fun m => nth (Z.to_nat m) sums zero) months.
Proof.
  intros H. do 13 (destruct sums as [|? sums]; [discriminate H|]).
  destruct sums; [reflexivity | discriminate H].
Qed.

Lemma expenses_amount_ok st year m :
  Forall amount_ok st -> Forall amount_ok (expenses_of year m st).
Proof.
  intros H. unfold expenses_of. rewrite Forall_forall in *.
  intros t Ht. apply filter_In in Ht as [Ht _]. auto.
Qed.

(** The greatest of a list of numbers not below zero, as the second loop of
    the chart finds it. *)
Lemma fold_max_spec l : forall v,
  (0 <=? v)%float = true ->
  Forall (fun s => (0 <=? s)%float = true) l ->
  let mx := fold_left (fun maxv s => if (maxv <? s)%float then s else maxv)
              l v in
  (0 <=? mx)%float = true /\ (v <=? mx)%float = true
  /\ Forall (fun s => (s <=? mx)%float = true) l
  /\ (mx = v \/ In mx l).
Proof.
  induction l as [|s l IH]; intros v Hv Hl; cbn [fold_left].
  - repeat split; auto.
    apply (leb_rank_iff _ _ (nonneg_rank _ Hv) (nonneg_rank _ Hv)).
    apply lex_le_refl.
  - inversion Hl as [|? ? Hs Hl']; subst.
    pose proof (nonneg_rank _ Hv) as Rv. pose proof (nonneg_rank _ Hs) as Rs.
    destruct (v <? s)%float eqn:E; rewrite (ltb_rank _ _ Rv Rs) in E.
    + destruct (IH s Hs Hl') as (M0 & M1 & M2 & M3). cbv zeta in *.
      set (mx := fold_left _ l s) in *.
      pose proof (nonneg_rank _ M0) as Rm.
      assert (Hvs : lex_le (rank v) (rank s))
        by (unfold lex_le; destruct (lex3 (rank v) (rank s)); congruence).
      repeat split; auto.
      * apply (leb_rank_iff _ _ Rv Rm).
        apply (lex_le_trans _ (rank s)); [assumption|].
        now apply (leb_rank_iff _ _ Rs Rm).
      * destruct M3 as [->|M3]; right; [now left | now right].
    + destruct (IH v Hv Hl') as (M0 & M1 & M2 & M3). cbv zeta in *.
      set (mx := fold_left _ l v) in *.
      pose proof (nonneg_rank _ M0) as Rm.
      assert (Hsv : lex_le (rank s) (rank v)).
      { unfold lex_le. rewrite (lex3_antisym (rank v) (rank s)).
        destruct (lex3 (rank v) (rank s)); cbn; congruence. }
      repeat split; auto.
      * constructor; [|assumption].
        apply (leb_rank_iff _ _ Rs Rm).
        apply (lex_le_trans _ (rank v)); [assumption|].
        now apply (leb_rank_iff _ _ Rv Rm).
      * destruct M3 as [M3|M3]; [now left | right; now right].
Qed.

Lemma in_months m : In m months <-> 1 <= m <= 12.
Proof.
  unfold months. cbn [In]. split; [intuition lia|].
  intros H.
  assert (C : m = 1 \/ m = 2 \/ m = 3 \/ m = 4 \/ m = 5 \/ m = 6 \/ m = 7
              \/ m = 8 \/ m = 9 \/ m = 10 \/ m = 11 \/ m = 12) by lia.
  intuition auto.
Qed.

Lemma chart_sums_nonneg st year :
  Forall amount_ok st ->
  Forall (fun s => (0 <=? s)%float = true) (skipn 1 (chart_sums st year)).
Proof.
  intros H. rewrite months_of_sums by apply length_chart_sums.
  apply Forall_forall. intros s Hs.
  apply in_map_iff in Hs as (m & <- & Hm). apply in_months in Hm.
  rewrite chart_sums_nth by assumption.
  now apply sum_amounts_nonneg, expenses_amount_ok.
Qed.

Lemma chart_max_spec st year :
  Forall amount_ok st ->
  (forall m, 1 <= m <= 12 ->
     (nth (Z.to_nat m) (chart_sums st year) zero
      <=? chart_max (chart_sums st year))%float = true)
  /\ (exists m, 1 <= m <= 12
                /\ (chart_max (chart_sums st year)
                    =? nth (Z.to_nat m) (chart_sums st year) zero)%float
                   = true).
Proof.
  intros Hok. pose proof (chart_sums_nonneg st year Hok) as Hnn.
  destruct (fold_max_spec _ zero eq_refl Hnn) as (M0 & _ & M2 & M3).
  cbv zeta in *. fold (chart_max (chart_sums st year)) in *.
  set (mx := chart_max (chart_sums st year)) in *.
  rewrite months_of_sums in M2, M3, Hnn by apply length_chart_sums.
  rewrite Forall_forall in M2, Hnn.
  pose proof (nonneg_rank _ M0) as Rm.
  split.
  - intros m Hm. apply M2, in_map_iff. exists m. split; [reflexivity|].
    now apply in_months.
  - destruct M3 as [M3|M3].
    + exists 1. split; [lia|].
      assert (Hin : In (nth (Z.to_nat 1) (chart_sums st year) zero)
                      (map (fun m => nth (Z.to_nat m) (chart_sums st year) zero)
                         months))
        by (apply in_map_iff; exists 1; split; [reflexivity | now left]).
      pose proof (Hnn _ Hin) as H0. pose proof (M2 _ Hin) as H1.
      pose proof (nonneg_rank _ H0) as Rs.
      apply (eqb_rank_iff _ _ Rm Rs). apply lex_le_antisym.
      * rewrite M3. now apply (leb_rank_iff _ _ (nonneg_rank zero eq_refl) Rs).
      * now apply (leb_rank_iff _ _ Rs Rm).
    + apply in_map_iff in M3 as (m & E & Hm). apply in_months in Hm.
      exists m. split; [assumption|]. rewrite E.
      now apply (eqb_rank_iff _ _ Rm Rm).
Qed.

Lemma reach_add_all es :
  forallb entry_read es = true -> reachable (add_all es).
Proof.
  unfold add_all. generalize reach_start. generalize (@nil Transaction) as st.
  induction es as [|e es IH]; intros st Hst Hes; cbn [fold_left]; [assumption|].
  cbn [forallb] in Hes. apply andb_prop in Hes as [He Hes].
  apply IH; [now apply reach_add | assumption].
Qed.

(** C7: the chart keeps one sum per month, the amounts of the expenses of
    that month of the year added up in double arithmetic, exactly zero where
    there is none; its scale is the greatest of the twelve sums and its total
    is their sum; when the greatest sum is zero it draws no chart and says
    that the year has no expenses (or, on an empty store, that there is no
    data).  The three records of the scenario give 50, 950 and ten zeros,
    the greatest 950 and the total 1000. *)
Theorem monthly_expense_totals :
  (forall st year,
     length (skipn 1 (chart_sums st year)) = 12%nat
     /\ forall m, 1 <= m <= 12 ->
          nth (Z.to_nat m) (chart_sums st year) zero
          = sum_amounts (expenses_of year m st)
          /\ (expenses_of year m st = [] ->
              nth (Z.to_nat m) (chart_sums st year) zero = zero))
  /\ (forall st year,
        reachable st ->
        (forall m, 1 <= m <= 12 ->
           (nth (Z.to_nat m) (chart_sums st year) zero
            <=? chart_max (chart_sums st year))%float = true)
        /\ (exists m, 1 <= m <= 12
                      /\ (chart_max (chart_sums st year)
                          =? nth (Z.to_nat m) (chart_sums st year) zero)%float
                         = true))
  /\ (forall st year,
        chart_total (chart_sums st year)
        = fold_left PrimFloat.add
            (map (fun m => sum_amounts (expenses_of year m st)) months) zero)
  /\ (forall st year,
        match monthly_spending_chart st year with
        | NoData => st = []
        | NoExpenses y =>
            y = year /\ st <> []
            /\ (chart_max (chart_sums st year) =? 0)%float = true
        | Chart rows total =>
            st <> []
            /\ (chart_max (chart_sums st year) =? 0)%float = false
            /\ map snd rows = skipn 1 (chart_sums st year)
            /\ total = chart_total (chart_sums st year)
        end)
  /\ (chart_sums three_store 2025
      = [zero; 50; 950; 0; 0; 0; 0; 0; 0; 0; 0; 0; 0]%float
      /\ chart_max (chart_sums three_store 2025) = 950%float
      /\ chart_total (chart_sums three_store 2025) = 1000%float).
Proof.
  split; [|split; [|split; [|split]]].
  - intros st year. split.
    + rewrite length_skipn, length_chart_sums. reflexivity.
    + intros m Hm. split; [now apply chart_sums_nth|].
      intros E. now rewrite chart_sums_nth, E.
  - intros st year Hr. now apply chart_max_spec, reachable_amount_ok.
  - intros st year. unfold chart_total.
    rewrite months_of_sums by apply length_chart_sums. f_equal.
    apply map_ext_in. intros m Hm. apply chart_sums_nth. now apply in_months.
  - intros st year. unfold monthly_spending_chart.
    destruct st as [|t st]; [reflexivity|].
    destruct (chart_max (chart_sums (t :: st) year) =? 0)%float eqn:E.
    + repeat split; auto; discriminate.
    + repeat split; try discriminate.
      rewrite map_map. cbn [snd]. apply map_id.
  - vm_compute. repeat split; reflexivity.
Qed.

Lemma monthly_expense_totals_witness :
  (nth (Z.to_nat 2) (chart_sums three_store 2025) zero
   <=? chart_max (chart_sums three_store 2025))%float = true.
Proof.
  refine (proj1 (proj1 (proj2 monthly_expense_totals) three_store 2025 _) 2 _).
  - apply reach_add_all. vm_compute. reflexivity.
  - lia.
Defined.

(** ** What the input helpers return

    The guarantees gathered in [entry_read] are those of [read_int],
    [read_line] and [read_double]. *)


Lemma read_double_try_min minV line x :
  read_double_try minV line = Some x -> (minV <=? x)%float = true.
Proof.
  unfold read_double_try.
  destruct (scan_lf (cstr line)) as [[v r]|]; [|discriminate].
  destruct (minV <=? v)%float eqn:E; [|discriminate].
  intros H. now inversion H; subst.
Qed.

Lemma fgets_chars_shape k : forall f,
  exists body tail,
    fst (fgets_chars k f) = body ++ tail
    /\ no_char NL body = true /\ (tail = [] \/ tail = [NL])
    /\ (length (body ++ tail) <= k)%nat.
Proof.
  induction k as [|k IH]; intros [|c f]; cbn [fgets_chars fst];
    try (exists [], []; repeat split; auto; cbn; lia).
  destruct (Ascii.eqb c NL) eqn:E.
  - apply Ascii.eqb_eq in E. subst c. exists [], [NL].
    repeat split; auto. cbn. lia.
  - destruct (IH f) as (body & tail & Hl & Hb & Ht & Hk).
    destruct (fgets_chars k f) as [l rest]. cbn [fst] in *. subst l.
    exists (c :: body), tail. rewrite no_char_cons, E, Hb.
    repeat split; auto. cbn [app length]. lia.
Qed.

Lemma cstr_app a b :
  cstr (a ++ b) = if no_char NUL a then a ++ cstr b else cstr a.
Proof.
  induction a as [|c a IH]; cbn [app cstr]; [reflexivity|].
  rewrite no_char_cons. destruct (Ascii.eqb c NUL); cbn [negb andb];
    [reflexivity|].
  rewrite IH. now destruct (no_char NUL a).
Qed.

Lemma length_removelast_le {A : Type} (l : list A) :
  (length (removelast l) <= length l)%nat.
Proof.
  induction l as [|a [|b l] IH]; cbn [removelast length] in *; lia.
Qed.

Lemma trim_newline_clean s body tail :
  s = body ++ tail -> no_char NL body = true -> tail = [] \/ tail = [NL] ->
  no_char NL (trim_newline s) = true
  /\ no_char NUL (trim_newline s) = true
  /\ (length (trim_newline s) <= length s)%nat.
Proof.
  intros -> Hb Ht. unfold trim_newline.
  assert (Hlen : (length (cstr (body ++ tail)) <= length (body ++ tail))%nat)
    by apply length_cstr.
  assert (H0 : no_char NUL (cstr (body ++ tail)) = true) by apply no_char_cstr.
  assert (Hcases : no_char NL (cstr (body ++ tail)) = true
                   \/ cstr (body ++ tail) = body ++ [NL]).
  { rewrite cstr_app. destruct (no_char NUL body) eqn:E.
    - destruct Ht as [->| ->]; [left | right; reflexivity].
      cbn [cstr]. now rewrite app_nil_r.
    - left. now apply cstr_keeps. }
  destruct Hcases as [Hn|Hs].
  - destruct (rev (cstr (body ++ tail))) as [|c r];
      [repeat split; auto|].
    destruct (Ascii.eqb c NL || Ascii.eqb c CR); repeat split; auto;
      try now apply no_char_removelast.
    etransitivity; [apply length_removelast_le | exact Hlen].
  - rewrite Hs in *. rewrite rev_app_distr. cbn [rev app].
    change (Ascii.eqb NL NL || Ascii.eqb NL CR) with true. cbv iota.
    rewrite removelast_last. rewrite no_char_app in H0.
    apply andb_prop in H0 as [H0 _]. repeat split; auto.
    rewrite length_app in Hlen. cbn [length] in Hlen. lia.
Qed.

Lemma read_line_ok n stdin :
  (0 < n)%nat -> line_read n (fst (read_line n stdin)) = true.
Proof.
  intros Hn. unfold read_line, fgets, line_read.
  destruct stdin as [|c f].
  - cbn [fst length no_char forallb]. apply Nat.ltb_lt in Hn. now rewrite Hn.
  - destruct (fgets_chars_shape (n - 1) (c :: f))
      as (body & tail & Hl & Hb & Ht & Hk).
    destruct (fgets_chars (n - 1) (c :: f)) as [l rest]. cbn [fst] in *.
    destruct (trim_newline_clean l body tail Hl Hb Ht) as (T1 & T0 & TL).
    rewrite T1, T0. rewrite <- Hl in Hk.
    assert (E : (length (trim_newline l) <? n)%nat = true)
      by (apply Nat.ltb_lt; lia).
    now rewrite E.
Qed.

(** * More of the program *)

(** ** Where the fields of a line lie *)

Lemma run_split {S : Type} (step : S -> ascii -> option S) s : forall st,
  exists p, s = p ++ snd (run step st s).
Proof.
  induction s as [|c s IH]; intros st; cbn [run].
  - now exists [].
  - destruct (step st c) as [st'|]; [|now exists []].
    destruct (IH st') as [p Hp]. exists (c :: p). cbn [app]. now f_equal.
Qed.

Lemma skip_ws_split s : exists p, s = p ++ skip_ws s.
Proof.
  induction s as [|c s [p Hp]]; cbn [skip_ws]; [now exists []|].
  destruct (is_space c); [|now exists []].
  exists (c :: p). cbn [app]. now f_equal.
Qed.

Lemma scan_d_split s v r : scan_d s = Some (v, r) -> exists p, s = p ++ r.
Proof.
  unfold scan_d. destruct (skip_ws_split s) as [p1 H1].
  destruct (run_split d_step (skip_ws s) DStart) as [p2 H2].
  destruct (run d_step DStart (skip_ws s)) as [st r']. cbn [snd] in H2.
  destruct st; try discriminate. intros E. inversion E; subst r'.
  exists (p1 ++ p2). rewrite <- app_assoc, <- H2. exact H1.
Qed.

Lemma scan_lf_split s v r : scan_lf s = Some (v, r) -> exists p, s = p ++ r.
Proof.
  unfold scan_lf. destruct (skip_ws_split s) as [p1 H1].
  destruct (run_split lf_step (skip_ws s) LStart) as [p2 H2].
  destruct (run lf_step LStart (skip_ws s)) as [st r']. cbn [snd] in H2.
  destruct (lf_value st); try discriminate. intros E. inversion E; subst r'.
  exists (p1 ++ p2). rewrite <- app_assoc, <- H2. exact H1.
Qed.

Lemma scanset_not_split stop w : forall s,
  s = fst (scanset_not stop w s) ++ snd (scanset_not stop w s).
Proof.
  induction w as [|w IH]; intros [|c s]; cbn [scanset_not fst snd app];
    try reflexivity.
  destruct (Ascii.eqb c stop); [reflexivity|].
  specialize (IH s). destruct (scanset_not stop w s) as [t rest].
  cbn [fst snd app] in *. now f_equal.
Qed.

Lemma scan_set_split stop w s t r : scan_set stop w s = Some (t, r) -> s = t ++ r.
Proof.
  unfold scan_set. pose proof (scanset_not_split stop w s) as H.
  destruct (scanset_not stop w s) as [[|c t'] r']; [discriminate|].
  intros E. injection E as <- <-. exact H.
Qed.

(** A line whose six fields parse is made of five fields that each end in a
    [|], the amount, and what is left. *)
Lemma fields_parse_split line y m d k c a rest :
  fields_parse line y m d k c a rest ->
  exists p1 p2 p3 p4 p6,
    cstr line
    = p1 ++ BAR :: p2 ++ BAR :: p3 ++ BAR :: p4 ++ BAR :: c ++ BAR :: p6 ++ rest.
Proof.
  intros (s1 & s2 & s3 & s4 & s5 & H1 & H2 & H3 & H4 & H5 & H6).
  apply scan_d_split in H1 as [p1 E1].
  apply bar_then_some in H2 as (r2 & -> & H2). apply scan_d_split in H2 as [p2 E2].
  apply bar_then_some in H3 as (r3 & -> & H3). apply scan_d_split in H3 as [p3 E3].
  apply bar_then_some in H4 as (r4 & -> & H4). apply scan_d_split in H4 as [p4 E4].
  apply bar_then_some in H5 as (r5 & -> & H5). apply scan_set_split in H5.
  apply bar_then_some in H6 as (r6 & -> & H6). apply scan_lf_split in H6 as [p6 E6].
  exists p1, p2, p3, p4, p6. subst. exact E1.
Qed.

Lemma cstr_prefix s : exists tl, s = cstr s ++ tl.
Proof.
  induction s as [|c s [tl Htl]]; cbn [cstr]; [now exists []|].
  destruct (Ascii.eqb c NUL); [now exists (c :: s)|].
  exists tl. cbn [app]. now f_equal.
Qed.

Lemma bars_app a b : bars (a ++ b) = (bars a + bars b)%nat.
Proof. apply count_occ_app. Qed.

Lemma bars_cons_bar s : bars (BAR :: s) = S (bars s).
Proof. unfold bars. now rewrite count_occ_cons_eq. Qed.

Lemma cstr_cut s body tail :
  s = body ++ tail -> no_char NL body = true -> tail = [] \/ tail = [NL] ->
  no_char NL (removelast (cstr s)) = true.
Proof.
  intros -> Hb Ht. rewrite cstr_app. destruct (no_char NUL body) eqn:E.
  - destruct Ht as [->| ->]; cbn [cstr].
    + rewrite app_nil_r. now apply no_char_removelast.
    + change (Ascii.eqb NL NUL) with false. cbv iota.
      now rewrite removelast_last.
  - now apply no_char_removelast, cstr_keeps.
Qed.

Lemma fgets_line_cut f line rest :
  fgets LINE_LEN f = Some (line, rest) ->
  no_char NL (removelast (cstr line)) = true
  /\ (0 < length line <= LINE_LEN - 1)%nat.
Proof.
  unfold fgets. destruct f as [|c f]; [discriminate|].
  destruct (fgets_chars_shape (LINE_LEN - 1) (c :: f))
    as (body & tail & Hl & Hb & Ht & Hk).
  pose proof (fgets_chars_some 510 c f) as Hne.
  change (S 510) with (LINE_LEN - 1)%nat in Hne.
  destruct (fgets_chars (LINE_LEN - 1) (c :: f)) as [l r]. cbn [fst] in *.
  intros E. injection E as <- <-. split.
  - now apply (cstr_cut l body tail).
  - rewrite Hl in *. split; [|exact Hk].
    destruct (body ++ tail); [congruence | cbn [length]; lia].
Qed.

(** ** Records read from a file *)

Lemma note_of_clean rest :
  (length (note_of rest) <? NOTE_LEN)%nat = true
  /\ no_char NUL (note_of rest) = true /\ no_char NL (note_of rest) = true.
Proof.
  unfold note_of.
  destruct (bar_then (scan_set NL (NOTE_LEN - 1)) rest) as [[nt r]|] eqn:E;
    [|repeat split; reflexivity].
  apply bar_then_some in E as (r' & _ & E).
  apply scan_set_clean in E as (Hn & Hl & _).
  destruct (strncpy_clean (NOTE_LEN - 1) nt) as (SL & S0 & SK & _).
  repeat split; auto. apply Nat.ltb_lt. unfold NOTE_LEN in *. lia.
Qed.

Lemma parsed_record_stored line y m d k c a rest :
  no_char NL (removelast (cstr line)) = true ->
  fields_parse line y m d k c a rest ->
  valid_date y m d = true -> (0 <=? a)%float = true ->
  tx_stored (parsed_record y m d k c a rest) = true
  /\ tx_category (parsed_record y m d k c a rest) = c.
Proof.
  intros Hcut Hp VD AP.
  destruct (fields_parse_split _ _ _ _ _ _ _ _ Hp)
    as (p1 & p2 & p3 & p4 & p6 & Hs).
  destruct Hp as (s1 & s2 & s3 & s4 & s5 & _ & _ & _ & _ & H5 & _).
  apply bar_then_some in H5 as (r5 & _ & H5).
  apply scan_set_clean in H5 as (CB & CL & CE).
  set (pre := p1 ++ BAR :: p2 ++ BAR :: p3 ++ BAR :: p4 ++ [BAR]).
  assert (Hs' : cstr line = (pre ++ c) ++ BAR :: p6 ++ rest).
  { rewrite Hs. unfold pre. repeat (rewrite <- app_assoc; cbn [app]).
    reflexivity. }
  assert (C0 : no_char NUL c = true).
  { pose proof (no_char_cstr line) as H0. rewrite Hs' in H0.
    rewrite !no_char_app in H0. now split_andb. }
  assert (CN : no_char NL c = true).
  { rewrite Hs', removelast_app in Hcut by discriminate.
    rewrite !no_char_app in Hcut. now split_andb. }
  destruct (note_of_clean rest) as (NLn & N0 & NN).
  assert (Ec : strncpy (STR_LEN - 1) c = c) by now apply strncpy_short.
  split; [|exact Ec].
  unfold tx_stored, tx_ok, parsed_record.
  cbn [tx_y tx_m tx_d tx_category tx_amount tx_note].
  rewrite Ec, C0, CB, CN, NLn, N0, NN, VD, AP.
  assert (L1 : (length c <? STR_LEN)%nat = true)
    by (apply Nat.ltb_lt; unfold STR_LEN in *; lia).
  rewrite L1. destruct c; [congruence | reflexivity].
Qed.

Lemma load_loop_stored rounds : forall f kept,
  Forall (fun t => tx_stored t = true) kept ->
  Forall (fun t => tx_stored t = true) (load_loop rounds f kept).
Proof.
  induction rounds as [|n IH]; intros f kept Hk; cbn [load_loop];
    [assumption|].
  destruct (fgets LINE_LEN f) as [[line rest]|] eqn:E; [|assumption].
  apply IH. destruct (fgets_line_cut _ _ _ E) as [Hcut _].
  destruct (load_line_cases line kept)
    as [E'|(y & m & d & k & c & a & r & Hp & VD & AP & _ & E')]; rewrite E';
    [assumption|].
  apply Forall_app. split; [assumption|]. constructor; [|constructor].
  now apply (parsed_record_stored line).
Qed.

Lemma tx_entered_stored t : tx_entered t = true -> tx_stored t = true.
Proof.
  unfold tx_entered, tx_stored. intros H. split_andb.
  repeat match goal with h : _ = true |- _ => rewrite h; clear h end.
  reflexivity.
Qed.

Lemma length_delete_le st idx :
  (length (delete_by_index st idx) <= length st)%nat.
Proof.
  unfold delete_by_index. destruct st as [|t st]; [reflexivity|].
  rewrite length_app, length_firstn, length_skipn. lia.
Qed.

(** The state of the store after any run of the program. *)
Lemma reachable_stored st :
  reachable st ->
  Forall (fun t => tx_stored t = true) st
  /\ (length st <= MAX_TRANSACTIONS)%nat.
Proof.
  induction 1 as [|st e Hr [IHf IHl] He|st idx Hr [IHf IHl] Hi
                  |c st st' Hr [IHf IHl] Hs|file st Hr [IHf IHl]].
  - split; [constructor | apply Nat.le_0_l].
  - destruct (add_outcome_dec (fst (add_transaction st e))) as [Ha|Hn].
    2:{ now rewrite (add_transaction_same _ _ Hn). }
    destruct (add_transaction_added _ _ Ha) as (t & E & Hlen & _).
    destruct (add_transaction_entered st e t He E) as [Ht _].
    rewrite E. split.
    + apply Forall_app. split; [assumption|].
      constructor; [now apply tx_entered_stored | constructor].
    + rewrite length_app. cbn [length]. lia.
  - split.
    + unfold delete_by_index. destruct st; [constructor|].
      now apply Forall_firstn_skipn.
    + pose proof (length_delete_le st idx). lia.
  - apply sort_menu_permutation in Hs. split.
    + now apply (Permutation_Forall Hs).
    + now rewrite <- (Permutation_length Hs).
  - destruct file as [f|]; [|now split]. cbn [load_from_file snd]. split.
    + apply load_loop_stored. constructor.
    + rewrite load_loop_lines by apply Nat.le_0_l.
      rewrite length_firstn. apply Nat.le_min_l.
Qed.

Lemma tx_stored_facts t :
  tx_stored t = true ->
  (length (tx_category t) <= STR_LEN - 1)%nat
  /\ no_char NUL (tx_category t) = true
  /\ (length (tx_note t) <= NOTE_LEN - 1)%nat
  /\ no_char NUL (tx_note t) = true
  /\ valid_date (tx_y t) (tx_m t) (tx_d t) = true
  /\ (0 <=? tx_amount t)%float = true
  /\ tx_category t <> []
  /\ no_char BAR (tx_category t) = true
  /\ no_char NL (tx_category t) = true
  /\ no_char NL (tx_note t) = true.
Proof.
  unfold tx_stored, tx_ok. intros H. split_andb.
  repeat match goal with
         | h : (_ <? _)%nat = true |- _ => apply Nat.ltb_lt in h
         end.
  unfold STR_LEN, NOTE_LEN in *.
  repeat split; try assumption; try lia.
  intros E. rewrite E in *. discriminate.
Qed.

Lemma load_line_stored t kept :
  tx_stored t = true -> two_decimal (tx_amount t) ->
  (length kept < MAX_TRANSACTIONS)%nat ->
  load_line (tx_line t) kept = kept ++ [t].
Proof.
  intros Hin H2 Hlen.
  apply tx_stored_facts in Hin
    as (CL & C0 & NL' & N0 & VD & AP & CE & CB & _ & NN).
  unfold tx_line. rewrite !cstr_no_nul by assumption.
  rewrite load_line_fprintf
    by (try assumption; destruct (tx_type t); simpl; lia).
  destruct t as [y m d [|] c a nt]; reflexivity.
Qed.

Lemma fgets_stored t rest :
  tx_stored t = true -> fits_line t ->
  fgets LINE_LEN (tx_line t ++ rest) = Some (tx_line t, rest).
Proof.
  intros Hin Hfit. apply tx_stored_facts in Hin
    as (_ & C0 & _ & N0 & _ & _ & _ & _ & CN & NN).
  set (body := print_d (tx_y t) ++ BAR :: print_d (tx_m t) ++ BAR
          :: print_d (tx_d t) ++ BAR :: print_d (TxType_int (tx_type t))
          ++ BAR :: tx_category t ++ BAR :: fmt_2f (tx_amount t)
          ++ BAR :: tx_note t).
  assert (Hb : tx_line t = body ++ [NL]).
  { unfold tx_line, fprintf_record, body. rewrite !cstr_no_nul by assumption.
    repeat (rewrite <- app_assoc; cbn [app]). reflexivity. }
  assert (Hnl : no_char NL body = true).
  { unfold body. repeat (rewrite no_char_app || rewrite no_char_cons).
    rewrite !(proj2 (no_nul_print_d _)), (proj2 (no_nul_fmt_2f _)), CN, NN.
    reflexivity. }
  unfold fits_line in Hfit. apply Nat.ltb_lt in Hfit. rewrite Hb in *.
  rewrite length_app in Hfit. cbn [length] in Hfit.
  rewrite <- app_assoc. cbn [app]. unfold fgets.
  destruct (body ++ NL :: rest) eqn:E; [destruct body; discriminate|].
  rewrite <- E. f_equal. apply fgets_chars_line; [assumption|].
  unfold LINE_LEN in *. lia.
Qed.

Lemma tx_line_nonempty t : (0 < length (tx_line t))%nat.
Proof.
  unfold tx_line, fprintf_record.
  destruct (print_u_head (tx_y t)) as (c & r & _).
  repeat (rewrite length_app; cbn [length]). lia.
Qed.

Lemma load_loop_serialize_stored st : forall kept rounds,
  Forall (fun t => tx_stored t = true /\ two_decimal (tx_amount t)
                   /\ fits_line t) st ->
  (length kept + length st <= MAX_TRANSACTIONS)%nat ->
  (length (serialize st) <= rounds)%nat ->
  load_loop rounds (serialize st) kept = kept ++ st.
Proof.
  induction st as [|t st IH]; intros kept rounds Hall Hcap Hr.
  - rewrite app_nil_r. destruct rounds; reflexivity.
  - inversion Hall as [|? ? (Hin & H2 & Hfit) Hrest]; subst.
    cbn [serialize flat_map length] in *. rewrite length_app in Hr.
    pose proof (tx_line_nonempty t) as Hpos.
    destruct rounds as [|rounds]; [lia|]. cbn [load_loop].
    rewrite fgets_stored by assumption.
    rewrite load_line_stored by (auto; lia).
    fold (serialize st). rewrite IH; auto.
    + now rewrite <- app_assoc.
    + rewrite length_app. cbn [length]. lia.
    + fold (serialize st) in Hr. lia.
Qed.

(** X1: whatever the user does, the store holds at most 2000 records, and
    each of them has a valid date, an amount that is a number not below zero,
    a category that is not empty, is shorter than 64 characters and has no
    [|] and no newline, and a note shorter than 128 characters without a
    newline. *)
Theorem every_store_is_well_formed (st : store) :
  reachable st ->
  0 <= txCount st <= 2000
  /\ Forall (fun t =>
               valid_date (tx_y t) (tx_m t) (tx_d t) = true
               /\ (0 <=? tx_amount t)%float = true
               /\ tx_category t <> []
               /\ (length (tx_category t) < STR_LEN)%nat
               /\ no_char BAR (tx_category t) = true
               /\ no_char NL (tx_category t) = true
               /\ (length (tx_note t) < NOTE_LEN)%nat
               /\ no_char NL (tx_note t) = true) st.
Proof.
  intros Hr. destruct (reachable_stored st Hr) as [Hf Hl]. split.
  - unfold txCount, MAX_TRANSACTIONS in *. lia.
  - apply (Forall_impl _ (P := fun t => tx_stored t = true)); [|exact Hf].
    intros t Ht. apply tx_stored_facts in Ht
      as (CL & _ & NL' & _ & VD & AP & CE & CB & CN & NN).
    unfold STR_LEN, NOTE_LEN in *. repeat split; auto; lia.
Qed.

Lemma every_store_is_well_formed_witness : 0 <= txCount three_store <= 2000.
Proof.
  refine (proj1 (every_store_is_well_formed three_store _)).
  apply reach_add_all. vm_compute. reflexivity.
Defined.

(** X2: the round trip of C1 holds for every store the program can hold, not
    only for those built by adding: saved and loaded again, the store comes
    back record for record, provided every amount comes back from its
    two-decimal text and every line fits the buffer of the loader; a note
    that holds a [|] (taken from a file) comes back too. *)
Theorem save_then_load_restores_any_store (st prev : store) :
  reachable st ->
  Forall (fun t => two_decimal (tx_amount t) /\ fits_line t) st ->
  load_from_file (snd (save_to_file true st)) prev = (1, st).
Proof.
  intros Hr Hamt. destruct (reachable_stored st Hr) as [Hin Hlen].
  cbn [save_to_file snd load_from_file]. f_equal.
  rewrite load_loop_serialize_stored; [reflexivity | | cbn [length]; lia | lia].
  rewrite Forall_forall in *. intros t Ht.
  pose proof (Hin t Ht). destruct (Hamt t Ht). auto.
Qed.

Lemma save_then_load_restores_any_store_witness :
  load_from_file
    (snd (save_to_file true (snd (load_from_file (Some piped_note) []))))
    three_store
  = (1, snd (load_from_file (Some piped_note) [])).
Proof.
  apply save_then_load_restores_any_store.
  - apply reach_load, reach_start.
  - let v := eval vm_compute in (snd (load_from_file (Some piped_note) [])) in
    assert (E : snd (load_from_file (Some piped_note) []) = v)
      by (vm_compute; reflexivity).
    rewrite E. repeat constructor; vm_compute; reflexivity.
Defined.

(** X3: a line with fewer than five [|] is never kept: the loader needs the
    five delimiters that end the first five fields. *)
Theorem line_with_few_delimiters_is_dropped (line : cstring) (kept : store) :
  (bars line < 5)%nat -> load_line line kept = kept.
Proof.
  intros Hb. apply load_line_rejects.
  intros (y & m & d & k & c & a & rest & Hp & _ & _).
  destruct (fields_parse_split _ _ _ _ _ _ _ _ Hp)
    as (p1 & p2 & p3 & p4 & p6 & Hs).
  destruct (cstr_prefix line) as [tl Htl].
  rewrite Htl, Hs in Hb.
  repeat (rewrite bars_app in Hb || rewrite bars_cons_bar in Hb). lia.
Qed.

Lemma line_with_few_delimiters_is_dropped_witness :
  load_line (lit "abc|garbage" ++ [NL]) three_store = three_store.
Proof.
  apply line_with_few_delimiters_is_dropped. apply Nat.ltb_lt.
  vm_compute. reflexivity.
Defined.

(** ** Dates *)

(** X4: [valid_date] accepts exactly the days of the Gregorian calendar from
    1900 to 3000: month 1 to 12, day 1 to 28, 29 (February of a leap year),
    30 or 31 according to the month. *)
Theorem valid_date_is_the_calendar (y m d : Z) :
  valid_date y m d = true
  <-> 1900 <= y <= 3000 /\ 1 <= m <= 12 /\ 1 <= d <= days_in_month y m.
Proof.
  unfold valid_date, days_in_month, leap_year.
  destruct (Z.ltb_spec y 1900); [split; [discriminate | lia]|].
  destruct (Z.gtb_spec y 3000); [split; [discriminate | lia]|].
  destruct (Z.ltb_spec m 1); [split; [discriminate | lia]|].
  destruct (Z.gtb_spec m 12); [split; [discriminate | lia]|].
  cbn [orb]. rewrite !Z.rem_mod_nonneg by lia.
  set (leap := (y mod 4 =? 0) && negb (y mod 100 =? 0) || (y mod 400 =? 0)).
  assert (C : m = 1 \/ m = 2 \/ m = 3 \/ m = 4 \/ m = 5 \/ m = 6 \/ m = 7
              \/ m = 8 \/ m = 9 \/ m = 10 \/ m = 11 \/ m = 12) by lia.
  destruct C as [->|[->|[->|[->|[->|[->|[->|[->|[->|[->|[->| ->]]]]]]]]]]];
    destruct leap; simpl;
    destruct (Z.ltb_spec d 1); cbn [orb];
    try (split; [discriminate | lia]);
    match goal with
    | |- context [d >? ?n] => destruct (Z.gtb_spec d n)
    end; split; intros; try discriminate; try lia; auto.
Qed.

(** ** The input helpers *)

Lemma trim_last s c :
  no_char NUL s = true -> Ascii.eqb c NUL = false ->
  trim_newline (s ++ [c])
  = if Ascii.eqb c NL || Ascii.eqb c CR then s else s ++ [c].
Proof.
  intros H0 Hc. unfold trim_newline.
  assert (E : cstr (s ++ [c]) = s ++ [c]).
  { apply cstr_no_nul. rewrite no_char_app, no_char_cons, H0, Hc. reflexivity. }
  rewrite E, rev_app_distr. cbn [rev app].
  destruct (Ascii.eqb c NL || Ascii.eqb c CR); [apply removelast_last|].
  reflexivity.
Qed.

(** X5: [trim_newline] takes one character off the end, and only a newline
    or a carriage return: a line that ends in CR LF keeps its CR, and any
    other text is left as it is. *)
Theorem trim_newline_takes_one_line_end (s : cstring) :
  no_char NUL s = true ->
  trim_newline (s ++ [NL]) = s
  /\ trim_newline (s ++ [CR]) = s
  /\ trim_newline (s ++ [CR; NL]) = s ++ [CR]
  /\ (forall c, c <> NL -> c <> CR -> c <> NUL ->
        trim_newline (s ++ [c]) = s ++ [c])
  /\ trim_newline [] = [].
Proof.
  intros H0. repeat split.
  - now rewrite trim_last.
  - now rewrite trim_last.
  - change (s ++ [CR; NL]) with (s ++ [CR] ++ [NL]). rewrite app_assoc.
    rewrite trim_last; [reflexivity | | reflexivity].
    now rewrite no_char_app, H0.
  - intros c H1 H2 H3. apply Ascii.eqb_neq in H1, H2, H3.
    rewrite trim_last by assumption. now rewrite H1, H2.
Qed.

Lemma trim_newline_takes_one_line_end_witness :
  trim_newline (lit "Food" ++ [CR; NL]) = lit "Food" ++ [CR].
Proof.
  apply (proj1 (proj2 (proj2 (trim_newline_takes_one_line_end (lit "Food")
                                eq_refl)))).
Defined.

Lemma fgets_chars_full s : forall rest,
  no_char NL s = true -> fgets_chars (length s) (s ++ rest) = (s, rest).
Proof.
  induction s as [|c s IH]; intros rest Hs; cbn [length app fgets_chars];
    [reflexivity|].
  rewrite no_char_cons in Hs. apply andb_prop in Hs as [Hc Hs].
  apply negb_true_iff in Hc. now rewrite Hc, IH.
Qed.

(** X6: [read_line] returns a typed line without its newline and leaves what
    follows it for the next prompt; of a line too long for the buffer it
    returns the first [n - 1] characters and leaves the others, which the
    next prompt then reads; at the end of the input it returns the empty
    text.  What it returns is shorter than the buffer and has no newline. *)
Theorem read_line_reads_one_line (n : nat) :
  (0 < n)%nat ->
  read_line n [] = ([], [])
  /\ (forall s rest,
        no_char NL s = true -> no_char NUL s = true ->
        (S (length s) < n)%nat ->
        read_line n (s ++ NL :: rest) = (s, rest))
  /\ (forall s c rest,
        no_char NL s = true -> no_char NUL s = true ->
        c <> NL -> c <> CR -> c <> NUL -> S (length s) = (n - 1)%nat ->
        read_line n ((s ++ [c]) ++ rest) = (s ++ [c], rest))
  /\ (forall stdin, line_read n (fst (read_line n stdin)) = true).
Proof.
  intros Hn. split; [reflexivity|]. split; [|split].
  - intros s rest HN H0 Hl. unfold read_line, fgets.
    destruct (s ++ NL :: rest) eqn:E; [destruct s; discriminate|].
    rewrite <- E. rewrite fgets_chars_line by (auto; lia).
    now rewrite trim_last.
  - intros s c rest HN H0 C1 C2 C3 Hl. unfold read_line, fgets.
    destruct ((s ++ [c]) ++ rest) eqn:E; [destruct s; discriminate|].
    rewrite <- E.
    assert (Hlen : (n - 1)%nat = length (s ++ [c]))
      by (rewrite length_app; cbn [length]; lia).
    apply Ascii.eqb_neq in C1, C2, C3.
    rewrite Hlen, fgets_chars_full
      by (rewrite no_char_app, no_char_cons, HN, C1; reflexivity).
    rewrite trim_last by assumption. now rewrite C1, C2.
  - intros stdin. now apply read_line_ok.
Qed.

Lemma read_line_reads_one_line_witness :
  read_line 5 (lit "Groceries") = (lit "Groc", lit "eries").
Proof.
  apply (proj1 (proj2 (proj2 (read_line_reads_one_line 5 ltac:(lia))))
           (lit "Gro") "c"%char (lit "eries"));
    try reflexivity; discriminate.
Defined.






(** X8: one round of [read_double] never returns a NaN or a number below the
    minimum asked for; asked for a number not below zero, it returns what
    [entry_read] expects of an amount. *)
Theorem read_double_returns_a_number (minV : float) (line : cstring) (x : float) :
  read_double_try minV line = Some x ->
  (minV <=? x)%float = true /\ (x =? x)%float = true.
Proof.
  intros H. apply read_double_try_min in H. split; [exact H|].
  destruct (leb_rank _ _ H) as (_ & Rx & _).
  now apply (eqb_rank_iff _ _ Rx Rx).
Qed.

Lemma read_double_returns_a_number_witness :
  (0 <=? 12.5)%float = true /\ (12.5 =? 12.5)%float = true.
Proof.
  apply (read_double_returns_a_number 0 (lit "12.5") 12.5). reflexivity.
Defined.

(** ** Adding and deleting *)

Lemma map_no_nul (f : ascii -> ascii) s :
  (forall c, Ascii.eqb c NUL = false -> Ascii.eqb (f c) NUL = false) ->
  no_char NUL s = true -> no_char NUL (map f s) = true.
Proof.
  intros Hf. induction s as [|c s IH]; [reflexivity|].
  cbn [map]. rewrite !no_char_cons. intros H.
  apply andb_prop in H as [Hc Hs]. apply negb_true_iff in Hc.
  now rewrite (Hf c Hc), IH.
Qed.

Lemma stored_text n s :
  (length s < n)%nat -> no_char NUL s = true ->
  strncpy (n - 1) (bar_to_slash s)
  = map (fun c => if Ascii.eqb c BAR then SLASH else c) s.
Proof.
  intros Hl H0. unfold bar_to_slash. rewrite (cstr_no_nul s H0).
  apply strncpy_short.
  - apply map_no_nul; [|assumption].
    intros c Hc. now destruct (Ascii.eqb c BAR).
  - rewrite length_map. lia.
Qed.

(** X9: [add_transaction] stores what was typed: the date, the type and the
    amount as they are, the category and the note in full with every [|]
    turned into [/], and "Salary" or "Misc" for a category left empty. *)
Theorem add_transaction_stores_the_entry (st : store) (e : entry) :
  entry_read e = true ->
  fst (add_transaction st e) = Added ->
  snd (add_transaction st e)
  = st ++ [ {| tx_y := in_y e; tx_m := in_m e; tx_d := in_d e;
               tx_type := in_t e;
               tx_category :=
                 map (fun c => if Ascii.eqb c BAR then SLASH else c)
                   (match in_category e with
                    | [] => match in_t e with
                            | INCOME => lit "Salary"
                            | EXPENSE => lit "Misc"
                            end
                    | _ => in_category e
                    end);
               tx_amount := in_amount e;
               tx_note :=
                 map (fun c => if Ascii.eqb c BAR then SLASH else c)
                   (in_note e) |} ].
Proof.
  intros Hr. unfold entry_read, line_read in Hr. split_andb.
  repeat match goal with
         | h : (_ <? _)%nat = true |- _ => apply Nat.ltb_lt in h
         end.
  unfold add_transaction.
  destruct (MAX_TRANSACTIONS <=? length st)%nat; [discriminate|].
  destruct (valid_date (in_y e) (in_m e) (in_d e)); [|discriminate].
  cbn [negb]. destruct (in_amount e <=? 0)%float; [discriminate|].
  intros _. cbn [snd]. do 3 f_equal.
  - rewrite (cstr_no_nul (in_category e)) by assumption.
    destruct (in_category e) as [|c cat] eqn:Ec.
    + destruct (in_t e); reflexivity.
    + rewrite <- Ec in *. now apply stored_text.
  - now apply stored_text.
Qed.

Lemma add_transaction_stores_the_entry_witness :
  snd (add_transaction three_store
         (mk_entry 2025 3 1 EXPENSE "" "12.50" "a|b"))
  = three_store
    ++ [ {| tx_y := 2025; tx_m := 3; tx_d := 1; tx_type := EXPENSE;
            tx_category := lit "Misc"; tx_amount := 12.5;
            tx_note := lit "a/b" |} ].
Proof.
  apply (add_transaction_stores_the_entry three_store
           (mk_entry 2025 3 1 EXPENSE "" "12.50" "a|b"));
    vm_compute; reflexivity.
Defined.

(** X10: deleting the record at a valid index takes the count down by one,
    leaves the records before the index where they are and moves each later
    record one place down; the index of [delete_by_index] is valid because
    [read_int] only returns one from 0 to [txCount - 1]. *)
Theorem delete_shifts_later_records (st : store) (idx : nat) :
  (idx < length st)%nat ->
  txCount (delete_by_index st idx) = txCount st - 1
  /\ forall i,
       nth_error (delete_by_index st idx) i
       = nth_error st (if (i <? idx)%nat then i else S i).
Proof.
  intros Hidx. unfold delete_by_index, txCount.
  destruct st as [|t st]; [cbn [length] in Hidx; lia|].
  set (l := t :: st) in *. split.
  - rewrite length_app, length_firstn, length_skipn. lia.
  - intros i. rewrite nth_error_app, length_firstn.
    rewrite Nat.min_l by lia.
    destruct (Nat.ltb_spec i idx) as [Hlt|Hge].
    + rewrite nth_error_firstn.
      apply Nat.ltb_lt in Hlt. now rewrite Hlt.
    + rewrite nth_error_skipn. f_equal. lia.
Qed.

Lemma delete_shifts_later_records_witness :
  txCount (delete_by_index three_store 1) = txCount three_store - 1.
Proof.
  refine (proj1 (delete_shifts_later_records three_store 1 _)).
  apply Nat.ltb_lt. vm_compute. reflexivity.
Defined.

(** X11: deleting the last index right after a record was added gives the
    store back as it was. *)
Theorem delete_undoes_add (st : store) (e : entry) :
  fst (add_transaction st e) = Added ->
  delete_by_index (snd (add_transaction st e)) (length st) = st.
Proof.
  intros Ha. destruct (add_transaction_added _ _ Ha) as (t & E & _).
  rewrite E. unfold delete_by_index.
  destruct (st ++ [t]) eqn:E'; [destruct st; discriminate|]. rewrite <- E'.
  rewrite firstn_app, Nat.sub_diag, firstn_all. cbn [firstn].
  rewrite skipn_all2 by (rewrite length_app; cbn [length]; lia).
  now rewrite !app_nil_r.
Qed.

Lemma delete_undoes_add_witness :
  delete_by_index
    (snd (add_transaction three_store
            (mk_entry 2025 3 1 EXPENSE "" "12.50" "a|b")))
    (length three_store)
  = three_store.
Proof.
  apply delete_undoes_add. vm_compute. reflexivity.
Defined.

(** ** The comparison functions as orders *)

Lemma cmp_date_sign a b :
  cmp_date a b
  = match lex3 (date_key a) (date_key b) with Lt => -1 | Eq => 0 | Gt => 1 end.
Proof.
  unfold cmp_date, date_key, lex3.
  destruct (Z.eqb_spec (tx_y a) (tx_y b)), (Z.ltb_spec (tx_y a) (tx_y b)),
    (Z.compare_spec (tx_y a) (tx_y b)); cbn [negb]; try lia; try reflexivity;
  destruct (Z.eqb_spec (tx_m a) (tx_m b)), (Z.ltb_spec (tx_m a) (tx_m b)),
    (Z.compare_spec (tx_m a) (tx_m b)); cbn [negb]; try lia; try reflexivity;
  destruct (Z.eqb_spec (tx_d a) (tx_d b)), (Z.ltb_spec (tx_d a) (tx_d b)),
    (Z.compare_spec (tx_d a) (tx_d b)); cbn [negb]; try lia; reflexivity.
Qed.

(** X12: [cmp_date] is a comparison function as [qsort] needs one: it
    returns -1, 0 or 1, swapping the arguments flips the sign, it returns 0
    exactly for two records of the same day, and "not after" is transitive. *)
Theorem cmp_date_is_an_order (a b c : Transaction) :
  (cmp_date a b = -1 \/ cmp_date a b = 0 \/ cmp_date a b = 1)
  /\ cmp_date b a = - cmp_date a b
  /\ (cmp_date a b = 0
      <-> tx_y a = tx_y b /\ tx_m a = tx_m b /\ tx_d a = tx_d b)
  /\ (cmp_date a b <= 0 -> cmp_date b c <= 0 -> cmp_date a c <= 0).
Proof.
  split; [|split; [|split]].
  - rewrite cmp_date_sign. destruct (lex3 _ _); auto.
  - rewrite !cmp_date_sign, (lex3_antisym (date_key a) (date_key b)).
    destruct (lex3 (date_key a) (date_key b)); reflexivity.
  - rewrite cmp_date_sign. split.
    + destruct (lex3 (date_key a) (date_key b)) eqn:E; try discriminate.
      intros _. apply lex3_eq in E. unfold date_key in E.
      inversion E. auto.
    + intros (Hy & Hm & Hd).
      assert (E : date_key a = date_key b)
        by (unfold date_key; congruence).
      now rewrite E, lex3_refl.
  - rewrite !cmp_date_key. apply lex_le_trans.
Qed.

Lemma cmp_date_is_an_order_witness : cmp_date tie_a tie_a <= 0.
Proof.
  apply (proj2 (proj2 (proj2 (cmp_date_is_an_order tie_a tie_b tie_a))));
    vm_compute; discriminate.
Defined.

Lemma nan_has_no_rank x :
  (x =? x)%float = false -> sf_rank (Prim2SF x) = None.
Proof.
  rewrite eqb_spec. unfold SFeqb. rewrite SFcompare_rank.
  destruct (sf_rank (Prim2SF x)); [|reflexivity].
  now rewrite lex3_refl.
Qed.

Lemma ltb_nan x y :
  (x =? x)%float = false -> (x <? y)%float = false /\ (y <? x)%float = false.
Proof.
  intros H. apply nan_has_no_rank in H.
  rewrite !ltb_spec. unfold SFltb. rewrite !SFcompare_rank, H.
  split; [reflexivity|]. now destruct (sf_rank (Prim2SF y)).
Qed.

Lemma cmp_amount_sign a b :
  amount_ok a -> amount_ok b ->
  cmp_amount_desc a b
  = match lex3 (amount_key a) (amount_key b) with
    | Lt => -1 | Eq => 0 | Gt => 1
    end.
Proof.
  intros Ha Hb. apply amount_ok_rank in Ha, Hb.
  unfold cmp_amount_desc, amount_key.
  rewrite lex3_opp, (ltb_rank _ _ Ha Hb), (ltb_rank _ _ Hb Ha).
  rewrite (lex3_antisym (rank (tx_amount a)) (rank (tx_amount b))).
  destruct (lex3 (rank (tx_amount a)) (rank (tx_amount b))); reflexivity.
Qed.

(** X13: on records whose amounts are numbers not below zero, as all stored
    ones are, [cmp_amount_desc] is a comparison function as [qsort] needs
    one: the sign flips with the arguments, 0 means equal amounts, negative
    means the first amount is the larger, and "not after" is transitive.  An
    amount that is a NaN would compare equal to every other. *)
Theorem cmp_amount_desc_is_an_order (a b c : Transaction) :
  (amount_ok a -> amount_ok b ->
   cmp_amount_desc b a = - cmp_amount_desc a b
   /\ (cmp_amount_desc a b = 0
       <-> (tx_amount a =? tx_amount b)%float = true)
   /\ (cmp_amount_desc a b < 0
       <-> (tx_amount b <? tx_amount a)%float = true))
  /\ (amount_ok a -> amount_ok b -> amount_ok c ->
      cmp_amount_desc a b <= 0 -> cmp_amount_desc b c <= 0 ->
      cmp_amount_desc a c <= 0)
  /\ ((tx_amount a =? tx_amount a)%float = false ->
      cmp_amount_desc a b = 0 /\ cmp_amount_desc b a = 0).
Proof.
  split; [|split].
  - intros Ha Hb. split; [|split].
    + rewrite (cmp_amount_sign a b), (cmp_amount_sign b a) by assumption.
      rewrite (lex3_antisym (amount_key a) (amount_key b)).
      destruct (lex3 (amount_key a) (amount_key b)); reflexivity.
    + rewrite <- (amount_key_eq a b Ha Hb), cmp_amount_sign by assumption.
      split.
      * destruct (lex3 (amount_key a) (amount_key b)) eqn:E;
          try discriminate. intros _. now apply lex3_eq.
      * intros ->. now rewrite lex3_refl.
    + unfold cmp_amount_desc.
      destruct (tx_amount a <? tx_amount b)%float eqn:E1;
        destruct (tx_amount b <? tx_amount a)%float eqn:E2;
        split; intros H; try discriminate; try lia; try reflexivity.
      pose proof (amount_ok_rank _ Ha) as Ra.
      pose proof (amount_ok_rank _ Hb) as Rb.
      rewrite (ltb_rank _ _ Ra Rb) in E1. rewrite (ltb_rank _ _ Rb Ra) in E2.
      rewrite (lex3_antisym (rank (tx_amount a)) (rank (tx_amount b))) in E2.
      destruct (lex3 (rank (tx_amount a)) (rank (tx_amount b)));
        discriminate.
  - intros Ha Hb Hc.
    rewrite (cmp_amount_key a b), (cmp_amount_key b c), (cmp_amount_key a c)
      by assumption.
    apply lex_le_trans.
  - intros Hn. unfold cmp_amount_desc.
    destruct (ltb_nan _ (tx_amount b) Hn) as [E1 E2].
    now rewrite E1, E2.
Qed.

Lemma cmp_amount_desc_is_an_order_witness :
  cmp_amount_desc tie_b tie_a = - cmp_amount_desc tie_a tie_b.
Proof.
  apply (proj1 (cmp_amount_desc_is_an_order tie_a tie_b tie_a));
    reflexivity.
Defined.

Lemma StronglySorted_firstn_skipn {A : Type} (R : A -> A -> Prop) l :
  StronglySorted R l ->
  forall n m, (n <= m)%nat -> StronglySorted R (firstn n l ++ skipn m l).
Proof.
  induction 1 as [|a l Hs IH Ha]; intros n m Hnm.
  - destruct n, m; constructor.
  - destruct n as [|n].
    + cbn [firstn app]. destruct m as [|m]; cbn [skipn].
      * now constructor.
      * specialize (IH 0%nat m (Nat.le_0_l _)). exact IH.
    + destruct m as [|m]; [lia|]. cbn [firstn skipn app]. constructor.
      * apply IH. lia.
      * now apply Forall_firstn_skipn.
Qed.

(** X14: deleting a record from a store that is in the order of a sort
    leaves it in that order. *)
Theorem delete_keeps_the_order (st : store) (idx : nat) :
  (StronglySorted date_le st ->
   StronglySorted date_le (delete_by_index st idx))
  /\ (StronglySorted amount_ge st ->
      StronglySorted amount_ge (delete_by_index st idx)).
Proof.
  unfold delete_by_index. split; intros H; destruct st as [|t st];
    try constructor; apply StronglySorted_firstn_skipn; auto.
Qed.

Lemma delete_keeps_the_order_witness :
  StronglySorted date_le (delete_by_index [tie_b; tie_a] 0).
Proof.
  apply (proj1 (delete_keeps_the_order [tie_b; tie_a] 0)).
  apply SSorted_cons; [apply SSorted_cons; constructor|].
  constructor; [|constructor].
  right. split; [reflexivity|]. right. split; [reflexivity|].
  vm_compute. discriminate.
Defined.

(** ** Listings *)

Lemma in_combine_seq (l : store) : forall k i t,
  In (i, t) (combine (seq k (length l)) l)
  <-> (k <= i)%nat /\ nth_error l (i - k) = Some t.
Proof.
  induction l as [|a l IH]; intros k i t; cbn [length seq combine In].
  - split; [contradiction|]. intros [_ H]. now destruct (i - k)%nat.
  - rewrite IH. split.
    + intros [E|[Hk Hn]].
      * inversion E; subst. rewrite Nat.sub_diag. now split.
      * split; [lia|]. replace (i - k)%nat with (S (i - S k)) by lia.
        exact Hn.
    + intros [Hk Hn]. destruct (Nat.eq_dec i k) as [->|Hne].
      * rewrite Nat.sub_diag in Hn. cbn in Hn. left. congruence.
      * right. split; [lia|].
        replace (i - k)%nat with (S (i - S k)) in Hn by lia. exact Hn.
Qed.

Lemma indexed_in st i t : In (i, t) (indexed st) <-> nth_error st i = Some t.
Proof.
  unfold indexed. rewrite in_combine_seq, Nat.sub_0_r.
  split; [now intros [_ H] | intros H; split; [lia | exact H]].
Qed.

Lemma combine_seq_by_index (l : store) : forall k,
  by_index (combine (seq k (length l)) l).
Proof.
  induction l as [|a l IH]; intros k; cbn [length seq combine];
    constructor; [apply IH|].
  apply Forall_forall. intros [i t] Hi. apply in_combine_seq in Hi as [Hi _].
  cbn [fst]. lia.
Qed.

Lemma filter_by_index f rows : by_index rows -> by_index (filter f rows).
Proof.
  induction 1 as [|a l Hs IH Ha]; cbn [filter]; [constructor|].
  destruct (f a); [|exact IH]. constructor; [exact IH|].
  rewrite Forall_forall in *. intros x Hx. apply filter_In in Hx as [Hx _].
  auto.
Qed.

Lemma rows_of_filter f st i t :
  In (i, t) (filter (fun it => f (snd it)) (indexed st))
  <-> nth_error st i = Some t /\ f t = true.
Proof. now rewrite filter_In, indexed_in. Qed.

Lemma starts_with_spec needle : forall s,
  starts_with needle s = true <-> exists post, s = needle ++ post.
Proof.
  induction needle as [|c n IH]; intros s; cbn [starts_with].
  - split; [intros _; now exists s | reflexivity].
  - destruct s as [|x s].
    + split; [discriminate | intros [post H]; discriminate].
    + rewrite andb_true_iff, IH. split.
      * intros [E [post ->]]. apply Ascii.eqb_eq in E. subst. now exists post.
      * intros [post E]. inversion E; subst. split;
          [apply Ascii.eqb_refl | now exists post].
Qed.

Lemma strstr_spec needle hay :
  strstr hay needle = true <-> exists pre post, hay = pre ++ needle ++ post.
Proof.
  induction hay as [|x hay IH]; cbn [strstr].
  - rewrite orb_false_r, starts_with_spec. split.
    + intros [post H]. now exists [], post.
    + intros (pre & post & H). destruct pre; [now exists post|discriminate].
  - rewrite orb_true_iff, starts_with_spec, IH. split.
    + intros [[post H]|(pre & post & H)].
      * now exists [], post.
      * exists (x :: pre), post. cbn [app]. now f_equal.
    + intros (pre & post & H). destruct pre as [|p pre].
      * left. now exists post.
      * right. inversion H; subst. now exists pre, post.
Qed.

Lemma lower_keeps_nul c : Ascii.eqb c NUL = false -> Ascii.eqb (lower c) NUL = false.
Proof. destruct c as [[] [] [] [] [] [] [] []]; intros H; try reflexivity; exact H. Qed.

Lemma lower_idem c : lower (lower c) = lower c.
Proof. destruct c as [[] [] [] [] [] [] [] []]; reflexivity. Qed.

Lemma copy_terminated_short n s :
  (length s < n)%nat -> no_char NUL s = true -> copy_terminated n s = s.
Proof.
  intros Hl H0. unfold copy_terminated.
  rewrite strncpy_short by (auto; lia). apply firstn_all2. lia.
Qed.

Lemma to_lower_clean s : no_char NUL s = true -> to_lower_str s = map lower s.
Proof. intros H. unfold to_lower_str. now rewrite cstr_no_nul. Qed.

Lemma query_lower q :
  line_read STR_LEN q = true ->
  to_lower_str (copy_terminated STR_LEN q) = map lower q.
Proof.
  unfold line_read. intros H. split_andb.
  match goal with h : (_ <? _)%nat = true |- _ => apply Nat.ltb_lt in h end.
  rewrite copy_terminated_short by assumption. now apply to_lower_clean.
Qed.

Lemma field_lower c t :
  tx_stored t = true ->
  to_lower_str (copy_terminated NOTE_LEN (searched_field c t))
  = map lower (searched_field c t).
Proof.
  intros H. apply tx_stored_facts in H as (CL & C0 & NL' & N0 & _).
  unfold searched_field, STR_LEN, NOTE_LEN in *.
  destruct (c =? 1);
    (rewrite copy_terminated_short by (auto; lia)); now apply to_lower_clean.
Qed.

(** X15: the text search lists, in the order of the store and each with its
    index, exactly the records whose category (choice 1) or note (choice 2)
    holds the query as a substring, letter case set aside. *)
Theorem text_search_finds_substrings (c : Z) (q : cstring) (y m d : Z)
    (st : store) :
  c = 1 \/ c = 2 -> st <> [] -> line_read STR_LEN q = true -> reachable st ->
  exists rows,
    search_menu c q y m d st = Rows rows
    /\ by_index rows
    /\ forall i t,
         In (i, t) rows
         <-> nth_error st i = Some t
             /\ exists pre post,
                  map lower (searched_field c t)
                  = pre ++ map lower q ++ post.
Proof.
  intros Hc Hne Hq Hr. apply reachable_stored in Hr as [Hst _].
  unfold search_menu. destruct st as [|t0 st]; [congruence|].
  assert (Ec : (c =? 1) || (c =? 2) = true) by (destruct Hc; subst; reflexivity).
  rewrite Ec, (query_lower q Hq). eexists. split; [reflexivity|]. split.
  - apply filter_by_index, combine_seq_by_index.
  - intros i t. rewrite rows_of_filter. split.
    + intros [Hn Hm]. split; [exact Hn|].
      assert (Ht : tx_stored t = true).
      { rewrite Forall_forall in Hst. apply Hst.
        now apply (nth_error_In _ i). }
      unfold text_match in Hm. fold (searched_field c t) in Hm.
      rewrite (field_lower c t Ht) in Hm. now apply strstr_spec.
    + intros [Hn Hsub]. split; [exact Hn|].
      assert (Ht : tx_stored t = true).
      { rewrite Forall_forall in Hst. apply Hst.
        now apply (nth_error_In _ i). }
      unfold text_match. fold (searched_field c t).
      rewrite (field_lower c t Ht). now apply strstr_spec.
Qed.

Lemma text_search_finds_substrings_witness :
  exists rows,
    search_menu 1 (lit "foo") 0 0 0 three_store = Rows rows
    /\ by_index rows
    /\ forall i t,
         In (i, t) rows
         <-> nth_error three_store i = Some t
             /\ exists pre post,
                  map lower (searched_field 1 t)
                  = pre ++ map lower (lit "foo") ++ post.
Proof.
  apply text_search_finds_substrings.
  - now left.
  - vm_compute. discriminate.
  - vm_compute. reflexivity.
  - apply reach_add_all. vm_compute. reflexivity.
Defined.

Lemma filter_all {A : Type} (f : A -> bool) l :
  (forall x, f x = true) -> filter f l = l.
Proof.
  intros H. induction l as [|a l IH]; cbn [filter]; [reflexivity|].
  now rewrite H, IH.
Qed.

Lemma strstr_empty hay : strstr hay [] = true.
Proof. destruct hay; reflexivity. Qed.

(** X16: a text search with an empty query lists every record, as [list_all]
    does, and reports the empty store like it. *)
Theorem empty_query_lists_all (c : Z) (y m d : Z) (st : store) :
  c = 1 \/ c = 2 -> search_menu c [] y m d st = list_all st.
Proof.
  intros Hc. unfold search_menu, list_all.
  destruct st as [|t st]; [reflexivity|].
  assert (Ec : (c =? 1) || (c =? 2) = true) by (destruct Hc; subst; reflexivity).
  rewrite Ec. f_equal. apply filter_all. intros it. apply strstr_empty.
Qed.

Lemma empty_query_lists_all_witness :
  search_menu 2 [] 0 0 0 three_store = list_all three_store.
Proof. apply empty_query_lists_all. now right. Defined.

(** X17: the case of the letters of the query does not matter: two queries
    that differ only in case give the same listing. *)
Theorem text_search_ignores_case (c : Z) (q q' : cstring) (y m d : Z)
    (st : store) :
  line_read STR_LEN q = true -> line_read STR_LEN q' = true ->
  map lower q = map lower q' ->
  search_menu c q y m d st = search_menu c q' y m d st.
Proof.
  intros Hq Hq' E. unfold search_menu.
  now rewrite (query_lower q Hq), (query_lower q' Hq'), E.
Qed.

Lemma text_search_ignores_case_witness :
  search_menu 1 (lit "FOOD") 0 0 0 three_store
  = search_menu 1 (lit "food") 0 0 0 three_store.
Proof. apply text_search_ignores_case; reflexivity. Defined.

(** X18: the search by date refuses a date that is not on the calendar and
    otherwise lists, in the order of the store and each with its index,
    exactly the records of that day; on the empty store it reports that
    there is no data before it asks for anything. *)
Theorem date_search_finds_the_day (q : cstring) (y m d : Z) (st : store) :
  st <> [] ->
  (valid_date y m d = false -> search_menu 3 q y m d st = ListInvalidDate)
  /\ (valid_date y m d = true ->
      exists rows,
        search_menu 3 q y m d st = Rows rows
        /\ by_index rows
        /\ forall i t,
             In (i, t) rows
             <-> nth_error st i = Some t
                 /\ tx_y t = y /\ tx_m t = m /\ tx_d t = d)
  /\ search_menu 3 q y m d [] = ListNoData.
Proof.
  intros Hne. unfold search_menu. destruct st as [|t0 st]; [congruence|].
  cbn [Z.eqb orb]. split; [|split; [|reflexivity]].
  - now intros ->.
  - intros ->. cbn [negb]. eexists. split; [reflexivity|]. split.
    + apply filter_by_index, combine_seq_by_index.
    + intros i t.
      rewrite (rows_of_filter
                 (fun t => (tx_y t =? y) && (tx_m t =? m) && (tx_d t =? d))).
      rewrite !andb_true_iff, !Z.eqb_eq. tauto.
Qed.

Lemma date_search_finds_the_day_witness :
  search_menu 3 [] 2025 2 30 three_store = ListInvalidDate.
Proof.
  apply (proj1 (date_search_finds_the_day [] 2025 2 30 three_store
                  ltac:(vm_compute; discriminate))).
  reflexivity.
Defined.

Lemma ltb_true_rank x y :
  (x <? y)%float = true ->
  sf_rank (Prim2SF x) = Some (rank x) /\ sf_rank (Prim2SF y) = Some (rank y)
  /\ lex3 (rank x) (rank y) = Lt.
Proof.
  rewrite ltb_spec. unfold SFltb, rank. rewrite SFcompare_rank.
  destruct (sf_rank (Prim2SF x)), (sf_rank (Prim2SF y)); try discriminate.
  destruct (lex3 p p0); try discriminate. auto.
Qed.

Lemma leb_ltb_trans x y z :
  (x <=? y)%float = true -> (y <? z)%float = true -> (x <? z)%float = true.
Proof.
  intros H1 H2. destruct (leb_rank _ _ H1) as (Rx & Ry & Hxy).
  destruct (ltb_true_rank _ _ H2) as (_ & Rz & Hyz).
  rewrite (ltb_rank _ _ Rx Rz).
  destruct (lex3 (rank x) (rank z)) eqn:E; [| reflexivity |]; exfalso.
  - apply lex3_eq in E. rewrite E in Hxy. unfold lex_le in Hxy.
    rewrite (lex3_antisym (rank y) (rank z)), Hyz in Hxy. now apply Hxy.
  - assert (Hzx : lex_le (rank z) (rank x))
      by (unfold lex_le; rewrite (lex3_antisym (rank x) (rank z)), E;
          discriminate).
    pose proof (lex_le_trans _ _ _ Hzx Hxy) as Hzy. unfold lex_le in Hzy.
    rewrite (lex3_antisym (rank y) (rank z)), Hyz in Hzy. now apply Hzy.
Qed.

(** X19: the filter lists, in the order of the store and each with its
    index, exactly the expenses whose amount is above the threshold; an
    amount equal to the threshold is left out, and a higher threshold lists
    nothing that a lower one leaves out. *)
Theorem filter_lists_expenses_above (thr thr' : float) (st : store) :
  st <> [] ->
  exists rows rows',
    filter_expenses_over thr st = Rows rows
    /\ filter_expenses_over thr' st = Rows rows'
    /\ by_index rows
    /\ (forall i t,
          In (i, t) rows
          <-> nth_error st i = Some t /\ tx_type t = EXPENSE
              /\ (thr <? tx_amount t)%float = true)
    /\ (forall i t, In (i, t) rows -> (tx_amount t =? thr)%float = false)
    /\ ((thr <=? thr')%float = true -> incl rows' rows).
Proof.
  intros Hne. unfold filter_expenses_over.
  destruct st as [|t0 st]; [congruence|].
  eexists _, _. split; [reflexivity|]. split; [reflexivity|].
  assert (Hrow : forall x i t,
            In (i, t)
              (filter (fun it => TxType_eqb (tx_type (snd it)) EXPENSE
                                 && (x <? tx_amount (snd it))%float)
                 (indexed (t0 :: st)))
            <-> nth_error (t0 :: st) i = Some t /\ tx_type t = EXPENSE
                /\ (x <? tx_amount t)%float = true).
  { intros x i t.
    rewrite (rows_of_filter
               (fun t => TxType_eqb (tx_type t) EXPENSE
                         && (x <? tx_amount t)%float)).
    rewrite andb_true_iff. destruct (tx_type t); cbn [TxType_eqb];
      intuition (auto; discriminate). }
  split; [apply filter_by_index, combine_seq_by_index|].
  split; [apply Hrow|]. split.
  - intros i t Hin. apply Hrow in Hin as (_ & _ & Hlt).
    destruct (ltb_true_rank _ _ Hlt) as (Rt & Ra & Hl).
    destruct (tx_amount t =? thr)%float eqn:E; [|reflexivity].
    apply (eqb_rank_iff _ _ Ra Rt) in E. rewrite E, lex3_refl in Hl.
    discriminate.
  - intros Hle [i t] Hin. apply Hrow in Hin as (Hn & Hty & Hlt).
    apply Hrow. repeat split; auto. now apply (leb_ltb_trans _ thr').
Qed.

Lemma filter_lists_expenses_above_witness :
  exists rows rows',
    filter_expenses_over 50 three_store = Rows rows
    /\ filter_expenses_over 100 three_store = Rows rows'
    /\ by_index rows
    /\ (forall i t,
          In (i, t) rows
          <-> nth_error three_store i = Some t /\ tx_type t = EXPENSE
              /\ (50 <? tx_amount t)%float = true)
    /\ (forall i t, In (i, t) rows -> (tx_amount t =? 50)%float = false)
    /\ ((50 <=? 100)%float = true -> incl rows' rows).
Proof.
  apply filter_lists_expenses_above. vm_compute. discriminate.
Defined.

(** ** The chart and the summary when a record is added *)

Lemma chart_sums_app st t year :
  chart_sums (st ++ [t]) year = chart_step year (chart_sums st year) t.
Proof. unfold chart_sums. now rewrite fold_left_app. Qed.

(** X20: a record that was added changes the chart of a year only if it is
    an expense of that year, and then only the sum of its month, which grows
    by its amount (in double arithmetic); incomes and the records of other
    years leave all twelve sums as they are. *)
Theorem added_record_and_the_chart (st : store) (e : entry) (year : Z) :
  fst (add_transaction st e) = Added ->
  (in_t e = INCOME \/ in_y e <> year ->
   chart_sums (snd (add_transaction st e)) year = chart_sums st year)
  /\ (in_t e = EXPENSE -> in_y e = year ->
      forall m, 1 <= m <= 12 ->
        nth (Z.to_nat m) (chart_sums (snd (add_transaction st e)) year) zero
        = if m =? in_m e
          then (nth (Z.to_nat m) (chart_sums st year) zero + in_amount e)%float
          else nth (Z.to_nat m) (chart_sums st year) zero).
Proof.
  intros Ha. destruct (add_transaction_added _ _ Ha)
    as (t & E & _ & VD & _ & Hamt & Hty & Hy & Hm & _).
  rewrite E, chart_sums_app. unfold chart_step. rewrite Hty, Hy, Hm, Hamt.
  rewrite Hy, Hm in VD. apply valid_date_range in VD as (_ & Hmr & _).
  split.
  - intros [Hi|Hne].
    + now rewrite Hi.
    + apply Z.eqb_neq in Hne. rewrite Hne. now rewrite andb_false_r.
  - intros He Hyear m Hmm. rewrite He, Hyear, Z.eqb_refl. cbn [TxType_eqb andb].
    assert (Hin : (1 <=? in_m e) && (in_m e <=? 12) = true)
      by (apply andb_true_intro; split; apply Z.leb_le; lia).
    rewrite Hin, nth_add_at by (rewrite length_chart_sums; lia).
    destruct (Z.eqb_spec m (in_m e)) as [->|Hne].
    + now rewrite Nat.eqb_refl.
    + destruct (Nat.eqb_spec (Z.to_nat m) (Z.to_nat (in_m e))); [lia|].
      reflexivity.
Qed.

Lemma added_record_and_the_chart_witness :
  chart_sums
    (snd (add_transaction three_store
            (mk_entry 2025 3 1 INCOME "" "12.50" ""))) 2025
  = chart_sums three_store 2025.
Proof.
  apply (proj1 (added_record_and_the_chart three_store
                  (mk_entry 2025 3 1 INCOME "" "12.50" "") 2025
                  ltac:(vm_compute; reflexivity))).
  now left.
Defined.

Lemma sub_zero x : (x - 0)%float = x.
Proof.
  apply Prim2SF_inj. rewrite sub_spec.
  change (Prim2SF 0) with (S754_zero false).
  now destruct (Prim2SF x) as [[|]|[|]| |[|] mx ex].
Qed.

Lemma of_type_amount_ok ty st :
  Forall amount_ok st -> Forall amount_ok (of_type ty st).
Proof.
  intros H. unfold of_type. rewrite Forall_forall in *.
  intros t Ht. apply filter_In in Ht as [Ht _]. auto.
Qed.

(** X21: on every store the program can hold, the income and the expense of
    the summary are numbers not below zero (never a NaN); and when the store
    has no expense, the savings are exactly the income. *)
Theorem summary_totals_are_numbers (st : store) :
  reachable st ->
  (0 <=? fst (fst (show_summary st)))%float = true
  /\ (0 <=? snd (fst (show_summary st)))%float = true
  /\ (of_type EXPENSE st = [] ->
      snd (show_summary st) = fst (fst (show_summary st))).
Proof.
  intros Hr. apply reachable_amount_ok in Hr.
  rewrite show_summary_sums. cbn [fst snd]. split; [|split].
  - now apply sum_amounts_nonneg, of_type_amount_ok.
  - now apply sum_amounts_nonneg, of_type_amount_ok.
  - intros ->. apply sub_zero.
Qed.

Lemma summary_totals_are_numbers_witness :
  (0 <=? fst (fst (show_summary three_store)))%float = true.
Proof.
  refine (proj1 (summary_totals_are_numbers three_store _)).
  apply reach_add_all. vm_compute. reflexivity.
Defined.

(** ** The lines of a file *)

Lemma file_lines_shape rounds : forall f,
  Forall (fun l => (0 < length l <= LINE_LEN - 1)%nat
                   /\ no_char NL (removelast l) = true)
    (file_lines rounds f).
Proof.
  induction rounds as [|k IH]; intros f; cbn [file_lines]; [constructor|].
  destruct (fgets LINE_LEN f) as [[line rest]|] eqn:E; [|constructor].
  constructor; [|apply IH].
  destruct (fgets_progress _ _ _ E) as [Hs Hl].
  unfold fgets in E. destruct f as [|c f]; [discriminate|].
  destruct (fgets_chars_shape (LINE_LEN - 1) (c :: f))
    as (body & tail & Hb & Hn & Ht & Hk).
  set (p := fgets_chars (LINE_LEN - 1) (c :: f)) in *. clearbody p.
  injection E as ->. cbn [fst] in Hb. subst line.
  split; [split|].
  - destruct (body ++ tail); [|cbn [length]; lia].
    cbn [app] in Hs. subst rest. lia.
  - exact Hk.
  - destruct Ht as [->| ->].
    + rewrite app_nil_r. now apply no_char_removelast.
    + now rewrite removelast_last.
Qed.

(** X22: the loop of [load_from_file] reads the whole file, cut into lines
    of 1 to 511 characters; a newline is only ever the last character of a
    line, so a longer line of the file is read as several lines. *)
Theorem file_is_read_in_short_lines (f : cstring) :
  concat (file_lines (length f) f) = f
  /\ Forall (fun l => (0 < length l <= LINE_LEN - 1)%nat
                      /\ no_char NL (removelast l) = true)
       (file_lines (length f) f).
Proof.
  split; [now apply file_lines_whole | apply file_lines_shape].
Qed.

Lemma ends_line_suffix l r : ends_line (l ++ r) -> ends_line r.
Proof.
  intros H. destruct r as [|c r] using rev_ind; [now left|]. clear IHr.
  right. destruct H as [H|(p & H)].
  - apply app_eq_nil in H as [_ H]. now destruct r.
  - rewrite app_assoc in H. apply app_inj_tail in H as [_ ->]. now exists r.
Qed.

Lemma fgets_chars_app k : forall f1 f2,
  (exists p, f1 = p ++ [NL]) ->
  fgets_chars k (f1 ++ f2)
  = (fst (fgets_chars k f1), snd (fgets_chars k f1) ++ f2).
Proof.
  induction k as [|k IH]; intros f1 f2 (p & Hp).
  - now destruct f1, f2.
  - destruct f1 as [|c r1]; [now destruct p|].
    cbn [app fgets_chars]. destruct (Ascii.eqb c NL) eqn:E; [reflexivity|].
    assert (Hr : exists p', r1 = p' ++ [NL]).
    { destruct p as [|c' p']; cbn [app] in Hp; injection Hp as -> ->.
      - now rewrite Ascii.eqb_refl in E.
      - now exists p'. }
    rewrite (IH r1 f2 Hr). now destruct (fgets_chars k r1).
Qed.

Lemma file_lines_more rounds : forall f extra,
  (length f <= rounds)%nat ->
  file_lines (rounds + extra) f = file_lines rounds f.
Proof.
  induction rounds as [|k IH]; intros f extra Hf.
  - destruct f; [|cbn [length] in Hf; lia]. now destruct extra.
  - cbn [Nat.add file_lines].
    destruct (fgets LINE_LEN f) as [[line rest]|] eqn:E; [|reflexivity].
    destruct (fgets_progress _ _ _ E) as [_ Hl]. f_equal. apply IH. lia.
Qed.

Lemma file_lines_fuel rounds f :
  (length f <= rounds)%nat ->
  file_lines rounds f = file_lines (length f) f.
Proof.
  intros H. replace rounds with (length f + (rounds - length f))%nat by lia.
  now apply file_lines_more.
Qed.

Lemma file_lines_app n : forall f1 f2,
  (length f1 <= n)%nat -> ends_line f1 ->
  file_lines (length (f1 ++ f2)) (f1 ++ f2)
  = file_lines (length f1) f1 ++ file_lines (length f2) f2.
Proof.
  induction n as [|n IH]; intros f1 f2 Hn He.
  - destruct f1; [reflexivity | cbn [length] in Hn; lia].
  - destruct f1 as [|c r1]; [reflexivity|].
    destruct He as [He|He]; [discriminate|].
    cbn [app length file_lines]. unfold fgets.
    change (LINE_LEN - 1)%nat with (S 510).
    change (c :: r1 ++ f2) with ((c :: r1) ++ f2).
    rewrite (fgets_chars_app (S 510) (c :: r1) f2 He).
    pose proof (fgets_progress (c :: r1)) as Hp. unfold fgets in Hp.
    change (LINE_LEN - 1)%nat with (S 510) in Hp.
    set (q := fgets_chars (S 510) (c :: r1)) in *. clearbody q.
    destruct q as [line rest]. cbn [fst snd].
    destruct (Hp line rest eq_refl) as [Hs Hl].
    cbn [length] in Hl, Hn. cbn [app]. f_equal.
    assert (Hr : ends_line rest).
    { apply (ends_line_suffix line). rewrite Hs. now right. }
    rewrite (file_lines_fuel (length (r1 ++ f2)) (rest ++ f2)).
    2:{ rewrite !length_app. lia. }
    rewrite (file_lines_fuel (length r1) rest) by lia.
    apply IH; [lia | exact Hr].
Qed.

Lemma firstn_firstn_app {A} n (X Y : list A) :
  firstn n (firstn n X ++ firstn n Y) = firstn n (X ++ Y).
Proof.
  rewrite !firstn_app, !firstn_firstn, Nat.min_id, length_firstn.
  destruct (Nat.le_gt_cases n (length X)) as [H|H].
  - rewrite (Nat.min_l n (length X)) by lia.
    replace (n - n)%nat with 0%nat by lia.
    replace (n - length X)%nat with 0%nat by lia. reflexivity.
  - rewrite (Nat.min_r n (length X)) by lia.
    now rewrite (Nat.min_l (n - length X) n) by lia.
Qed.

(** X23: when a file that is empty or ends in a newline is followed by a
    second one, loading the whole gives the records of the first and then
    those of the second, as many as the array holds. *)
Theorem load_of_joined_files (f1 f2 : cstring) (st st1 st2 : store) :
  ends_line f1 ->
  snd (load_from_file (Some (f1 ++ f2)) st)
  = firstn MAX_TRANSACTIONS
      (snd (load_from_file (Some f1) st1)
       ++ snd (load_from_file (Some f2) st2)).
Proof.
  intros He. cbn [load_from_file snd].
  rewrite !load_loop_lines by (cbn [length]; unfold MAX_TRANSACTIONS; lia).
  cbn [app]. rewrite (file_lines_app (length f1) f1 f2 (le_n _) He).
  rewrite flat_map_app. symmetry. apply firstn_firstn_app.
Qed.

Lemma load_of_joined_files_witness :
  snd (load_from_file (Some (serialize three_store ++ two_lines)) [])
  = firstn MAX_TRANSACTIONS
      (snd (load_from_file (Some (serialize three_store)) [])
       ++ snd (load_from_file (Some two_lines) [])).
Proof.
  apply (load_of_joined_files (serialize three_store) two_lines [] [] []).
  right. exists (removelast (serialize three_store)).
  vm_compute. reflexivity.
Defined.

Lemma div_zero_pos maxv :
  (0 <? maxv)%float = true -> (zero / maxv)%float = zero.
Proof.
  intros H. rewrite ltb_spec in H. apply Prim2SF_inj. rewrite div_spec.
  change (Prim2SF 0) with (S754_zero false) in H.
  change (Prim2SF zero) with (S754_zero false).
  destruct (Prim2SF maxv) as [[|]|[|]| |[|] mx ex]; try discriminate;
    reflexivity.
Qed.

(** X24: in the chart, which is drawn when the largest sum is above zero, a
    month without expenses gets an empty bar. *)
Theorem month_without_expenses_has_no_bar (maxv : float) :
  (0 <? maxv)%float = true -> bar_len maxv zero = Some 0.
Proof.
  intros H. unfold bar_len. rewrite (div_zero_pos maxv H).
  vm_compute. reflexivity.
Qed.

Lemma month_without_expenses_has_no_bar_witness :
  bar_len 120.5%float zero = Some 0.
Proof.
  apply month_without_expenses_has_no_bar. vm_compute. reflexivity.
Defined.

(** ** The length of a written line *)

Lemma length_uint_chars u :
  length (uint_chars u) = Decimal.nb_digits u.
Proof. induction u; cbn [uint_chars length Decimal.nb_digits]; congruence. Qed.

Lemma uint_val_lower d : forall a,
  0 <= a -> a * 10 ^ Z.of_nat (Decimal.nb_digits d) <= uint_val a d.
Proof.
  induction d; intros a Ha; cbn [uint_val Decimal.nb_digits];
    try (rewrite Nat2Z.inj_succ, Z.pow_succ_r by lia;
         etransitivity; [|apply IHd; lia];
         pose proof (Z.pow_pos_nonneg 10 (Z.of_nat (Decimal.nb_digits d))
                       ltac:(lia) ltac:(lia)); nia).
  cbn. lia.
Qed.

Lemma to_uint_normal n : Decimal.unorm (N.to_uint n) = N.to_uint n.
Proof.
  pose proof (DecimalN.Unsigned.to_of (N.to_uint n)) as H.
  rewrite DecimalN.Unsigned.of_to in H. now symmetry.
Qed.

Lemma unorm_head u r : Decimal.unorm u = u -> u = Decimal.D0 r -> r = Decimal.Nil.
Proof.
  intros Hu ->. rewrite DecimalFacts.unorm_D0 in Hu. unfold Decimal.unorm in Hu.
  destruct (Decimal.nzhead r) eqn:E; try congruence.
  exfalso. subst. exact (DecimalFacts.nzhead_nonzero _ _ E).
Qed.

(** A number below [10 ^ k] is printed with at most [k] digits. *)
Lemma length_print_u n k :
  0 <= n < 10 ^ Z.of_nat k -> (1 <= k)%nat -> (length (print_u n) <= k)%nat.
Proof.
  intros Hn Hk. unfold print_u. rewrite length_uint_chars.
  pose proof (uint_val_to_uint (Z.to_N n)) as Hv. rewrite Z2N.id in Hv by lia.
  pose proof (to_uint_normal (Z.to_N n)) as Hu.
  destruct (N.to_uint (Z.to_N n)) as [|r|r|r|r|r|r|r|r|r|r] eqn:E;
    cbn [Decimal.nb_digits]; [lia|..].
  1:{ rewrite (unorm_head _ r Hu eq_refl). cbn. lia. }
  all: cbn [uint_val] in Hv;
    match type of Hv with
    | uint_val ?a ?r' = _ =>
        pose proof (uint_val_lower r' a ltac:(lia)) as Hl;
        assert (Hp : 10 ^ Z.of_nat (Decimal.nb_digits r') < 10 ^ Z.of_nat k)
          by (pose proof (Z.pow_pos_nonneg 10 (Z.of_nat (Decimal.nb_digits r'))
                            ltac:(lia) ltac:(lia)); nia);
        apply Z.pow_lt_mono_r_iff in Hp; lia
    end.
Qed.

Lemma digits2_pos_bound m : Zpos m < 2 ^ Zpos (SpecFloat.digits2_pos m).
Proof.
  induction m as [m IH|m IH|]; cbn [SpecFloat.digits2_pos].
  - rewrite Pos2Z.inj_succ, Z.pow_succ_r by lia. lia.
  - rewrite Pos2Z.inj_succ, Z.pow_succ_r by lia. lia.
  - reflexivity.
Qed.

(** The mantissa and the exponent of a double. *)
Lemma double_bounded x s m e :
  Prim2SF x = S754_finite s m e -> Zpos m < 2 ^ 53 /\ e <= 971.
Proof.
  intros E. pose proof (Prim2SF_valid x) as Hv. rewrite E in Hv.
  unfold valid_binary, bounded, canonical_mantissa, fexp, emin in Hv.
  apply andb_prop in Hv as [Hc He].
  apply Z.leb_le in He.
  apply Z.eqb_eq in Hc.
  unfold FloatOps.prec, FloatOps.emax in *.
  pose proof (digits2_pos_bound m) as Hd.
  split; [|lia].
  eapply Z.lt_le_trans; [exact Hd|].
  apply Z.pow_le_mono_r; lia.
Qed.

Lemma hundredths_bound m e :
  Zpos m < 2 ^ 53 -> e <= 948 ->
  0 <= hundredths m e /\ hundredths m e / 100 < 2 ^ 1001.
Proof.
  intros Hm He. unfold hundredths.
  destruct (Z.leb_spec 0 e) as [H0|H0].
  - pose proof (Z.pow_pos_nonneg 2 e ltac:(lia) H0) as Hp.
    split; [apply Z.mul_nonneg_nonneg; [apply Z.mul_nonneg_nonneg|]; lia|].
    rewrite Z.div_mul by lia.
    replace 1001 with (53 + 948) by reflexivity.
    rewrite Z.pow_add_r by lia.
    pose proof (Z.pow_le_mono_r 2 e 948 ltac:(lia) He) as Hle.
    generalize dependent (2 ^ 948). generalize dependent (2 ^ 53).
    generalize dependent (2 ^ e). intros R HR Q HQ P HP.
    apply Z.le_lt_trans with (Zpos m * P).
    + apply Z.mul_le_mono_nonneg_l; lia.
    + apply Z.mul_lt_mono_pos_r; lia.
  - assert (Hd : 2 <= 2 ^ (- e)).
    { replace 2 with (2 ^ 1) at 1 by reflexivity.
      apply Z.pow_le_mono_r; lia. }
    generalize dependent (2 ^ (- e)). intros d Hd.
    assert (Hq : 0 <= Zpos m * 100 / d <= Zpos m * 100).
    { split; [apply Z.div_pos; lia|].
      apply Z.div_le_upper_bound; [lia|]. nia. }
    assert (Hr : 0 <= round_half_even (Zpos m * 100) d <= Zpos m * 100 + 1).
    { unfold round_half_even.
      destruct (2 * ((Zpos m * 100) mod d) ?= d);
        [destruct (Z.even _)|..]; lia. }
    split; [lia|].
    apply Z.le_lt_trans with (Zpos m * 100 + 1).
    + etransitivity; [|apply Hr].
      apply Z.div_le_upper_bound; lia.
    + apply Z.lt_trans with (2 ^ 61).
      * replace (2 ^ 61) with (2 ^ 53 * 256) by reflexivity. lia.
      * apply Z.pow_lt_mono_r; [reflexivity|discriminate|reflexivity].
Qed.

Lemma length_two_digits n : 0 <= n < 100 -> (length (two_digits n) <= 2)%nat.
Proof.
  intros Hn. unfold two_digits. destruct (Z.ltb_spec n 10).
  - cbn [length]. apply le_n_S. apply length_print_u; [|lia].
    change (10 ^ Z.of_nat 1) with 10. lia.
  - apply length_print_u; [|lia]. change (10 ^ Z.of_nat 2) with 100. lia.
Qed.

(** [%.2f] of an amount from zero to below 2^1000 takes at most 305
    characters. *)
Lemma length_fmt_2f a :
  (0 <=? a)%float = true -> (a <? short_amount)%float = true ->
  (length (fmt_2f a) <= 305)%nat.
Proof.
  intros H0 Hs. rewrite leb_spec in H0. rewrite ltb_spec in Hs.
  change (Prim2SF 0) with (S754_zero false) in H0.
  change (Prim2SF short_amount)
    with (S754_finite false 4503599627370496 948) in Hs.
  unfold fmt_2f. destruct (Prim2SF a) as [[|]|[|]| |[|] m e] eqn:E;
    try discriminate; try (vm_compute; lia).
  destruct (double_bounded a _ _ _ E) as [Hm _].
  assert (He : e <= 948).
  { clear - Hs. unfold SFltb, SFcompare in Hs.
    destruct (Z.compare_spec e 948); try discriminate; lia. }
  destruct (hundredths_bound m e Hm He) as [Hh Hq].
  cbn [sign_chars app]. rewrite length_app. cbn [length].
  pose proof (length_two_digits (hundredths m e mod 100)
                (Z.mod_pos_bound _ 100 eq_refl)) as H2.
  assert (H1 : (length (print_u (hundredths m e / 100)) <= 302)%nat).
  { apply length_print_u; [|clear; lia].
    split; [apply Z.div_pos; [exact Hh|reflexivity]|].
    eapply Z.lt_trans; [exact Hq|]. apply Z.ltb_lt. vm_compute. reflexivity. }
  clear - H1 H2. lia.
Qed.

Lemma length_print_d z k :
  0 <= z < 10 ^ Z.of_nat k -> (1 <= k)%nat -> (length (print_d z) <= k)%nat.
Proof.
  intros Hz Hk. unfold print_d. destruct (Z.ltb_spec z 0); [lia|].
  now apply length_print_u.
Qed.

Lemma stored_fits_line t :
  tx_stored t = true -> (tx_amount t <? short_amount)%float = true ->
  fits_line t.
Proof.
  intros Hst Hs. apply tx_stored_facts in Hst
    as (Hc & _ & Hn & _ & Hv & H0 & _).
  apply valid_date_range in Hv as (Hy & Hm & Hd).
  unfold fits_line. apply Nat.ltb_lt.
  unfold tx_line, fprintf_record.
  repeat (rewrite length_app; cbn [length]).
  pose proof (length_print_d (tx_y t) 4
                ltac:(change (10 ^ Z.of_nat 4) with 10000; lia) ltac:(lia)).
  pose proof (length_print_d (tx_m t) 2
                ltac:(change (10 ^ Z.of_nat 2) with 100; lia) ltac:(lia)).
  pose proof (length_print_d (tx_d t) 2
                ltac:(change (10 ^ Z.of_nat 2) with 100; lia) ltac:(lia)).
  pose proof (length_print_d (TxType_int (tx_type t)) 1
                ltac:(change (10 ^ Z.of_nat 1) with 10;
                      destruct (tx_type t); cbn; lia) ltac:(lia)).
  pose proof (length_cstr (tx_category t)).
  pose proof (length_cstr (tx_note t)).
  pose proof (length_fmt_2f _ H0 Hs).
  unfold STR_LEN, NOTE_LEN, LINE_LEN in *. lia.
Qed.

Lemma file_lines_serialize st : forall rounds,
  Forall (fun t => tx_stored t = true /\ fits_line t) st ->
  (length (serialize st) <= rounds)%nat ->
  file_lines rounds (serialize st) = map tx_line st.
Proof.
  induction st as [|t st IH]; intros rounds Hst Hr.
  - now destruct rounds.
  - inversion Hst as [|? ? [Ht Hf] Hst']; subst.
    unfold serialize in *. cbn [flat_map map] in *.
    rewrite length_app in Hr. pose proof (tx_line_nonempty t).
    destruct rounds as [|k]; [lia|]. cbn [file_lines].
    rewrite (fgets_stored t _ Ht Hf). f_equal. apply IH; [assumption|lia].
Qed.

(** X25: a record of a store the program can hold whose amount is below
    2^1000 is written as a line of at most 511 characters, which the buffer
    of the loader takes whole; when all amounts are so, the saved file is
    read back as one line per record. *)
Theorem short_amounts_fit_the_line (st : store) :
  reachable st ->
  Forall (fun t => (tx_amount t <? short_amount)%float = true) st ->
  Forall fits_line st
  /\ file_lines (length (serialize st)) (serialize st) = map tx_line st.
Proof.
  intros Hr Hs. destruct (reachable_stored st Hr) as [Hst _].
  assert (Hf : Forall (fun t => tx_stored t = true /\ fits_line t) st).
  { rewrite Forall_forall in *. intros t Ht. split; [now apply Hst|].
    apply stored_fits_line; auto. }
  split.
  - rewrite Forall_forall in *. intros t Ht. now apply Hf.
  - now apply file_lines_serialize.
Qed.

Lemma short_amounts_fit_the_line_witness :
  file_lines (length (serialize three_store)) (serialize three_store)
  = map tx_line three_store.
Proof.
  refine (proj2 (short_amounts_fit_the_line three_store _ _)).
  - apply reach_add_all. vm_compute. reflexivity.
  - repeat constructor.
Defined.

(** X26: the buffer of the loader is too short for the longest record that
    [add_transaction] accepts: with a category of 63 characters, a note of
    127 and an amount of 1e308 the written line has more than 511
    characters, and the store saved and loaded again is not the store that
    was saved, although the amount comes back from its text. *)
Theorem longest_record_is_cut_when_loaded :
  exists e,
    entry_read e = true
    /\ fst (add_transaction [] e) = Added
    /\ two_decimal (in_amount e)
    /\ ~ Forall fits_line (snd (add_transaction [] e))
    /\ load_from_file
         (snd (save_to_file true (snd (add_transaction [] e)))) []
       <> (1, snd (add_transaction [] e)).
Proof.
  exists long_entry.
  split; [vm_compute; reflexivity|].
  split; [vm_compute; reflexivity|].
  split; [vm_compute; reflexivity|].
  split.
  - intros H.
    assert (E : existsb (fun t => negb (length (tx_line t) <? LINE_LEN)%nat)
                  (snd (add_transaction [] long_entry)) = true)
      by (vm_compute; reflexivity).
    apply existsb_exists in E as (t & Ht & E).
    rewrite Forall_forall in H. specialize (H t Ht). unfold fits_line in H.
    rewrite H in E. discriminate.
  - intros H.
    assert (E : map (fun t => length (tx_note t))
                  (snd (load_from_file
                          (snd (save_to_file true
                                  (snd (add_transaction [] long_entry)))) []))
                = map (fun t => length (tx_note t))
                    (snd (add_transaction [] long_entry)))
      by (rewrite H; reflexivity).
    vm_compute in E. discriminate.
Qed.

(** ** The loops of the input helpers *)

Lemma fgets_typed_line l rest :
  typed_line l -> fgets 64 (l ++ rest) = Some (l, rest).
Proof.
  intros (body & -> & Hb & Hl). unfold fgets.
  destruct ((body ++ [NL]) ++ rest) eqn:E; [destruct body; discriminate|].
  rewrite <- E, <- app_assoc. cbn [app].
  rewrite fgets_chars_line by (auto; cbn; lia). reflexivity.
Qed.

Lemma ask_again_refused {A} (try : cstring -> option A) bad : forall rounds f,
  Forall (fun l => typed_line l /\ try l = None) bad ->
  ask_again try (length bad + rounds) (concat bad ++ f)
  = ask_again try rounds f.
Proof.
  induction bad as [|l bad IH]; intros rounds f Hb; [reflexivity|].
  inversion Hb as [|? ? [Hl Ht] Hb']; subst.
  cbn [length Nat.add concat ask_again]. rewrite <- app_assoc.
  rewrite (fgets_typed_line l _ Hl), Ht. now apply IH.
Qed.

Lemma ask_again_end {A} (try : cstring -> option A) rounds :
  ask_again try rounds [] = None.
Proof. induction rounds as [|k IH]; [reflexivity | exact IH]. Qed.

Lemma ask_again_never {A} (try : cstring -> option A) bad : forall rounds,
  Forall (fun l => typed_line l /\ try l = None) bad ->
  ask_again try rounds (concat bad) = None.
Proof.
  induction bad as [|l bad IH]; intros rounds Hb; [apply ask_again_end|].
  inversion Hb as [|? ? [Hl Ht] Hb']; subst.
  destruct rounds as [|k]; [reflexivity|].
  cbn [concat ask_again]. rewrite (fgets_typed_line l _ Hl), Ht. now apply IH.
Qed.

Lemma ask_again_first {A} (try : cstring -> option A) bad good rest x rounds :
  Forall (fun l => typed_line l /\ try l = None) bad ->
  typed_line good -> try good = Some x ->
  ask_again try (length bad + S rounds) (concat bad ++ good ++ rest)
  = Some (x, rest).
Proof.
  intros Hb Hg Hx. rewrite ask_again_refused by assumption.
  cbn [ask_again]. now rewrite (fgets_typed_line good rest Hg), Hx.
Qed.

(** X27: [read_int] and [read_double] ask again after every typed line they
    refuse and return the value of the first line they accept, leaving the
    input that follows that line. *)
Theorem readers_ask_until_valid (lo hi : Z) (minV : float)
    (bad : list cstring) (good rest : cstring) (rounds : nat) :
  Forall typed_line bad -> typed_line good ->
  (forall x,
     Forall (fun l => read_int_try lo hi l = None) bad ->
     read_int_try lo hi good = Some x ->
     read_int lo hi (length bad + S rounds) (concat bad ++ good ++ rest)
     = Some (x, rest))
  /\ (forall x,
        Forall (fun l => read_double_try minV l = None) bad ->
        read_double_try minV good = Some x ->
        read_double minV (length bad + S rounds) (concat bad ++ good ++ rest)
        = Some (x, rest)).
Proof.
  intros Hb Hg. split; intros x Hr Hx; apply ask_again_first; auto;
    rewrite Forall_forall in *; auto.
Qed.

Lemma readers_ask_until_valid_witness :
  read_int 1 12 (2 + 1)
    (concat [lit "abc" ++ [NL]; lit "13" ++ [NL]]
       ++ (lit "7" ++ [NL]) ++ lit "2025")
  = Some (7, lit "2025")
  /\ read_double zero (1 + 1)
       (concat [lit "abc" ++ [NL]] ++ (lit "1e" ++ [NL]) ++ lit "5" ++ [NL])
     = Some (1%float, lit "5" ++ [NL]).
Proof.
  split.
  - refine (proj1 (readers_ask_until_valid 1 12 zero
                     [lit "abc" ++ [NL]; lit "13" ++ [NL]] (lit "7" ++ [NL])
                     (lit "2025") 0 _ _) 7 _ _).
    + repeat constructor.
      * exists (lit "abc"). repeat split. cbn. lia.
      * exists (lit "13"). repeat split. cbn. lia.
    + exists (lit "7"). repeat split. cbn. lia.
    + repeat constructor.
    + reflexivity.
  - refine (proj2 (readers_ask_until_valid 1 12 zero
                     [lit "abc" ++ [NL]] (lit "1e" ++ [NL])
                     (lit "5" ++ [NL]) 0 _ _) 1%float _ _).
    + repeat constructor. exists (lit "abc"). repeat split. cbn. lia.
    + exists (lit "1e"). repeat split. cbn. lia.
    + repeat constructor.
    + vm_compute. reflexivity.
Defined.

(** X28: when the input ends before a line they accept, [read_int] and
    [read_double] never return: [fgets] gives nothing, the loop goes on, and
    no number of rounds gives a result. *)
Theorem readers_never_return_at_end_of_input (lo hi : Z) (minV : float)
    (bad : list cstring) (rounds : nat) :
  Forall typed_line bad ->
  (Forall (fun l => read_int_try lo hi l = None) bad ->
   read_int lo hi rounds (concat bad) = None)
  /\ (Forall (fun l => read_double_try minV l = None) bad ->
      read_double minV rounds (concat bad) = None).
Proof.
  intros Hb. split; intros Hr; apply ask_again_never;
    rewrite Forall_forall in *; auto.
Qed.

Lemma readers_never_return_at_end_of_input_witness :
  read_int 1 12 1000 (concat [lit "13" ++ [NL]]) = None
  /\ read_double zero 1000 (concat [lit "-1e" ++ [NL]]) = None.
Proof.
  split.
  - refine (proj1 (readers_never_return_at_end_of_input 1 12 zero
                     [lit "13" ++ [NL]] 1000 _) _).
    + repeat constructor. exists (lit "13"). repeat split. cbn. lia.
    + repeat constructor.
  - refine (proj2 (readers_never_return_at_end_of_input 1 12 zero
                     [lit "-1e" ++ [NL]] 1000 _) _).
    + repeat constructor. exists (lit "-1e"). repeat split. cbn. lia.
    + repeat constructor.
Defined.

(** * The loader on the lines of a file *)

Lemma fgets_short_line l rest :
  short_line l -> fgets LINE_LEN (l ++ rest) = Some (l, rest).
Proof.
  intros [(body & -> & Hb) Hl]. unfold fgets.
  destruct ((body ++ [NL]) ++ rest) eqn:E; [destruct body; discriminate|].
  rewrite <- E, <- app_assoc. cbn [app].
  rewrite length_app in Hl. cbn [length] in Hl.
  rewrite fgets_chars_line; [reflexivity | assumption |].
  unfold LINE_LEN in *. lia.
Qed.

Lemma fgets_chars_end l : forall k,
  no_char NL l = true -> (length l <= k)%nat -> fgets_chars k l = (l, []).
Proof.
  induction l as [|c l IH]; intros k Hn Hk.
  - now destruct k.
  - destruct k as [|k]; cbn [length] in Hk; [lia|]. cbn [fgets_chars].
    rewrite no_char_cons in Hn. apply andb_prop in Hn as [Hc Hn].
    apply negb_true_iff in Hc. rewrite Hc, IH by (auto; lia). reflexivity.
Qed.

(** [fgets] cuts a file of short lines at its newlines. *)
Lemma file_lines_short lines : forall rounds last,
  Forall short_line lines ->
  no_char NL last = true -> (length last < LINE_LEN)%nat ->
  (length (concat lines ++ last) <= rounds)%nat ->
  file_lines rounds (concat lines ++ last)
  = lines ++ match last with [] => [] | _ => [last] end.
Proof.
  induction lines as [|l lines IH]; intros rounds last Hs Hn Hl Hr.
  - cbn [concat app] in *. destruct last as [|c last].
    + now destruct rounds.
    + destruct rounds as [|k]; [cbn [length] in Hr; lia|].
      cbn [file_lines]. unfold fgets.
      rewrite fgets_chars_end by (auto; unfold LINE_LEN in *; lia).
      now destruct k.
  - inversion Hs as [|? ? Hsl Hs']; subst. cbn [concat] in *.
    rewrite <- app_assoc in *.
    assert (Hne : (0 < length l)%nat).
    { destruct Hsl as [(body & -> & _) _]. rewrite length_app. cbn. lia. }
    rewrite length_app in Hr.
    destruct rounds as [|k]; [lia|]. cbn [file_lines].
    rewrite (fgets_short_line l _ Hsl). cbn [app]. f_equal.
    apply IH; auto. lia.
Qed.

Lemma load_short_lines lines last prev :
  Forall short_line lines ->
  no_char NL last = true -> (length last < LINE_LEN)%nat ->
  load_from_file (Some (concat lines ++ last)) prev
  = (1, firstn MAX_TRANSACTIONS
          (flat_map (fun l => load_line l []) (lines ++ [last]))).
Proof.
  intros Hs Hn Hl. cbn [load_from_file]. f_equal.
  rewrite load_loop_lines by apply Nat.le_0_l. cbn [app].
  rewrite file_lines_short by auto. f_equal.
  rewrite !flat_map_app. f_equal. now destruct last.
Qed.

Lemma load_line_passes line kept :
  (length kept < MAX_TRANSACTIONS)%nat ->
  (exists t, load_line line kept = kept ++ [t]) <-> line_passes line.
Proof.
  intros Hlen. split.
  - intros [t Ht]. destruct (load_line_cases line kept)
      as [E|(y & m & d & k & c & a & rest & Hp & VD & AP & _)].
    + rewrite E in Ht. apply (f_equal (@length _)) in Ht.
      rewrite length_app in Ht. cbn [length] in Ht. lia.
    + now exists y, m, d, k, c, a, rest.
  - intros (y & m & d & k & c & a & rest & Hp & VD & AP).
    eexists. now apply (load_line_accepts _ _ _ _ _ _ _ _ kept Hp).
Qed.

(** C3: from a file whose lines have at most 511 characters, the newline
    included, the loader keeps one record for every line that passes the
    checks (the first six fields parse, the date is valid, the amount is not
    below zero) and none for any other line, in the order of the file and at
    most [MAX_TRANSACTIONS] of them, in place of the store; the note is what
    follows the amount after one more [|], or empty when the line ends
    before.  The two lines of the scenario give a store of one record, in
    either order.  (Of any file, the loader reads pieces of at most 511
    characters, each as a line.) *)
Theorem load_keeps_the_parsed_lines :
  (forall lines last prev,
     Forall short_line lines ->
     no_char NL last = true -> (length last < LINE_LEN)%nat ->
     load_from_file (Some (concat lines ++ last)) prev
     = (1, firstn MAX_TRANSACTIONS
             (flat_map (fun l => load_line l []) (lines ++ [last]))))
  /\ (forall line kept, (length kept < MAX_TRANSACTIONS)%nat ->
        ((exists t, load_line line kept = kept ++ [t]) <-> line_passes line))
  /\ (forall line y m d k c a rest kept,
        fields_parse line y m d k c a rest ->
        valid_date y m d = true -> (0 <=? a)%float = true ->
        (length kept < MAX_TRANSACTIONS)%nat ->
        load_line line kept = kept ++ [parsed_record y m d k c a rest])
  /\ (forall line kept, ~ line_passes line -> load_line line kept = kept)
  /\ (forall file prev,
        load_from_file (Some file) prev
        = (1, firstn MAX_TRANSACTIONS
                (flat_map (fun l => load_line l [])
                   (file_lines (length file) file)))
        /\ concat (file_lines (length file) file) = file)
  /\ (forall rest, expect BAR rest = None -> note_of rest = [])
  /\ note_of [BAR] = [] /\ note_of [BAR; NL] = []
  /\ length (snd (load_from_file (Some two_lines) three_store)) = 1%nat
  /\ length (snd (load_from_file (Some garbage_first) three_store)) = 1%nat.
Proof.
  split; [exact load_short_lines|].
  split; [exact load_line_passes|].
  split; [exact load_line_accepts|].
  split; [exact load_line_rejects|].
  split.
  { intros file prev. split; [|now apply file_lines_whole].
    cbn [load_from_file]. f_equal.
    now rewrite load_loop_lines by apply Nat.le_0_l. }
  split.
  { intros rest H. unfold note_of, bar_then. now rewrite H. }
  split; [reflexivity|]. split; [reflexivity|].
  split; vm_compute; reflexivity.
Qed.

Lemma load_keeps_the_parsed_lines_witness :
  load_from_file
    (Some (concat [lit "abc|garbage" ++ [NL];
                   lit "2025|1|15|1|Food|50e|lunch" ++ [NL]]
           ++ lit "2025|2|30|1|Food|50.00")) three_store
  = (1, [parsed_record 2025 1 15 1 (lit "Food") 50 (BAR :: lit "lunch" ++ [NL])]).
Proof.
  rewrite (proj1 load_keeps_the_parsed_lines
             [lit "abc|garbage" ++ [NL];
              lit "2025|1|15|1|Food|50e|lunch" ++ [NL]]
             (lit "2025|2|30|1|Food|50.00") three_store).
  - vm_compute. reflexivity.
  - apply Forall_cons; [|apply Forall_cons; [|apply Forall_nil]];
      (split; [eexists; split; reflexivity
              | apply Nat.ltb_lt; vm_compute; reflexivity]).
  - reflexivity.
  - apply Nat.ltb_lt. vm_compute. reflexivity.
Defined.

(** C3 as stated fails for a line of more than 511 characters, which is
    read in pieces: the line [long_bad] does not pass the checks, its first
    field is no number, and yet the loader keeps a record, read from its
    end. *)
Lemma long_line_is_loaded_in_pieces :
  file_line long_bad
  /\ ~ line_passes long_bad
  /\ snd (load_from_file (Some long_bad) [])
     = [parsed_record 2025 1 15 1 (lit "Food") 50 (BAR :: lit "lunch" ++ [NL])].
Proof.
  split; [|split].
  - exists (repeat "x"%char 511 ++ lit "2025|1|15|1|Food|50.00|lunch").
    split; [|vm_compute; reflexivity].
    unfold long_bad. now rewrite <- !app_assoc.
  - intros (y & m & d & k & c & a & rest & (s1 & s2 & s3 & s4 & s5 & H & _) & _).
    assert (E : scan_d (cstr long_bad) = None) by (vm_compute; reflexivity).
    rewrite E in H. discriminate.
  - vm_compute. reflexivity.
Qed.

Lemma eqb_zero_leb a : (a =? 0)%float = true -> (a <=? 0)%float = true.
Proof.
  rewrite eqb_spec, leb_spec. change (Prim2SF 0) with (S754_zero false).
  now destruct (Prim2SF a) as [[|]|[|]| |[|] m e].
Qed.

Lemma length_print_int k :
  - 2 ^ 31 <= k < 2 ^ 31 -> (length (print_d k) <= 11)%nat.
Proof.
  intros Hk. unfold print_d. destruct (Z.ltb_spec k 0).
  - cbn [length]. apply le_n_S. apply length_print_u; [|lia].
    change (10 ^ Z.of_nat 10) with 10000000000. lia.
  - etransitivity; [apply (length_print_u k 10); [|lia]|lia].
    change (10 ^ Z.of_nat 10) with 10000000000. lia.
Qed.

(** A written record whose amount is zero is a short line. *)
Lemma zero_line_short y m d k c nt :
  valid_date y m d = true -> - 2 ^ 31 <= k < 2 ^ 31 ->
  no_char NL c = true -> (length c <= STR_LEN - 1)%nat ->
  no_char NL nt = true -> (length nt <= NOTE_LEN - 1)%nat ->
  short_line (fprintf_record y m d k c zero nt).
Proof.
  intros VD Hk CN CL NN NL'.
  apply valid_date_range in VD as (Hy & Hm & Hd).
  split.
  - exists (print_d y ++ BAR :: print_d m ++ BAR :: print_d d ++ BAR
            :: print_d k ++ BAR :: c ++ BAR :: fmt_2f zero ++ BAR :: nt).
    split.
    + unfold fprintf_record.
      repeat (rewrite <- app_assoc; cbn [app]). reflexivity.
    + repeat (rewrite no_char_app || rewrite no_char_cons).
      rewrite !(proj2 (no_nul_print_d _)), (proj2 (no_nul_fmt_2f _)), CN, NN.
      reflexivity.
  - unfold fprintf_record.
    repeat (rewrite length_app; cbn [length]).
    pose proof (length_print_d y 4
                  ltac:(change (10 ^ Z.of_nat 4) with 10000; lia) ltac:(lia)).
    pose proof (length_print_d m 2
                  ltac:(change (10 ^ Z.of_nat 2) with 100; lia) ltac:(lia)).
    pose proof (length_print_d d 2
                  ltac:(change (10 ^ Z.of_nat 2) with 100; lia) ltac:(lia)).
    pose proof (length_print_int k Hk).
    change (length (fmt_2f zero)) with 4%nat.
    unfold STR_LEN, NOTE_LEN, LINE_LEN in *. lia.
Qed.

(** C4: [add_transaction] turns an amount equal to zero down (0.0 and -0.0
    alike), whatever the store with room left and the valid date; the loader
    keeps a line whose amount field is [0.00], wherever it stands in a file
    of short lines and whatever the store was: its record, with the amount
    zero, follows those of the lines before it. *)
Theorem zero_amount_refused_when_added_kept_when_loaded :
  (forall st e,
     (length st < MAX_TRANSACTIONS)%nat ->
     valid_date (in_y e) (in_m e) (in_d e) = true ->
     (in_amount e =? 0)%float = true ->
     add_transaction st e = (AmountNotPositive, st))
  /\ (forall y m d k c nt before after prev,
        valid_date y m d = true -> - 2 ^ 31 <= k < 2 ^ 31 ->
        c <> [] -> no_char NUL c = true -> no_char BAR c = true ->
        no_char NL c = true -> (length c <= STR_LEN - 1)%nat ->
        no_char NUL nt = true -> no_char NL nt = true ->
        (length nt <= NOTE_LEN - 1)%nat ->
        Forall short_line before -> Forall short_line after ->
        let line :=
          print_d y ++ BAR :: print_d m ++ BAR :: print_d d ++ BAR
          :: print_d k ++ BAR :: c ++ lit "|0.00|" ++ nt ++ [NL] in
        let t :=
          {| tx_y := y; tx_m := m; tx_d := d;
             tx_type := if k =? 1 then EXPENSE else INCOME;
             tx_category := c; tx_amount := zero; tx_note := nt |} in
        let got := flat_map (fun l => load_line l []) before in
        let loaded :=
          load_from_file (Some (concat before ++ line ++ concat after)) prev in
        loaded
        = (1, firstn MAX_TRANSACTIONS
                (got ++ t :: flat_map (fun l => load_line l []) after))
        /\ ((length got < MAX_TRANSACTIONS)%nat ->
            nth_error (snd loaded) (length got) = Some t)).
Proof.
  split.
  - intros st e Hlen VD Ha. unfold add_transaction.
    apply Nat.leb_gt in Hlen. rewrite Hlen, VD, (eqb_zero_leb _ Ha).
    reflexivity.
  - intros y m d k c nt before after prev VD Hk CE C0 CB CN CL N0 NN NL'
      Hb Ha line t got loaded.
    assert (Hline : line = fprintf_record y m d k c zero nt) by reflexivity.
    assert (Hs : short_line line)
      by (rewrite Hline; now apply zero_line_short).
    assert (Ht : load_line line [] = [t]).
    { rewrite Hline. apply (load_line_fprintf y m d k c zero nt []);
        try assumption; try reflexivity.
      apply Nat.ltb_lt. reflexivity. }
    assert (E : loaded
                = (1, firstn MAX_TRANSACTIONS
                        (got ++ t :: flat_map (fun l => load_line l []) after))).
    { unfold loaded.
      replace (concat before ++ line ++ concat after)
        with (concat (before ++ line :: after) ++ [])
        by (rewrite app_nil_r, concat_app; reflexivity).
      rewrite load_short_lines;
        [| apply Forall_app; split; [|constructor]; assumption
         | reflexivity | apply Nat.ltb_lt; reflexivity ].
      f_equal. f_equal. rewrite !flat_map_app. cbn [flat_map].
      rewrite Ht. change (load_line [] []) with (@nil Transaction).
      cbn [app]. rewrite !app_nil_r. reflexivity. }
    split; [exact E|].
    intros Hroom. rewrite E. cbn [snd].
    rewrite nth_error_firstn. apply Nat.ltb_lt in Hroom. rewrite Hroom.
    rewrite nth_error_app2 by apply Nat.le_refl.
    now rewrite Nat.sub_diag.
Qed.

Lemma zero_amount_refused_when_added_kept_when_loaded_witness :
  add_transaction three_store (mk_entry 2024 2 29 EXPENSE "Food" "-0.0" "")
  = (AmountNotPositive, three_store)
  /\ load_from_file
       (Some (lit "abc|garbage" ++ NL :: lit "2024|2|29|1|Food|0.00|" ++ [NL]))
       three_store
     = (1, [ {| tx_y := 2024; tx_m := 2; tx_d := 29; tx_type := EXPENSE;
                tx_category := lit "Food"; tx_amount := zero;
                tx_note := [] |} ]).
Proof.
  split.
  - apply (proj1 zero_amount_refused_when_added_kept_when_loaded).
    + apply Nat.ltb_lt. vm_compute. reflexivity.
    + vm_compute. reflexivity.
    + vm_compute. reflexivity.
  - destruct (proj2 zero_amount_refused_when_added_kept_when_loaded
                2024 2 29 1 (lit "Food") [] [lit "abc|garbage" ++ [NL]] []
                three_store) as [E _].
    + vm_compute. reflexivity.
    + lia.
    + discriminate.
    + reflexivity.
    + reflexivity.
    + reflexivity.
    + apply Nat.leb_le. vm_compute. reflexivity.
    + reflexivity.
    + reflexivity.
    + apply Nat.leb_le. vm_compute. reflexivity.
    + apply Forall_cons; [|apply Forall_nil].
      split; [eexists; split; reflexivity
             | apply Nat.ltb_lt; vm_compute; reflexivity].
    + apply Forall_nil.
    + refine (eq_trans E _). vm_compute. reflexivity.
Defined.
